(** * teldrive-upload: a shallow embedding of the uploader and its size parser

    The development follows the Go sources:
    - [main.go]: [shouldRetry], [uploadFile], [createRemoteDir],
      [readMetaDataForPath], [list], [checkFileExists],
      [uploadFilesInDirectory];
    - the earlier revision of [main.go] that still parses [PART_SIZE] by
      hand: [sizeRegex], [fileSizeToBytes];
    - [rest/rest.go]: [Call], [callCodec], [CallJSON].

    Go values are modelled as follows.  An [int64] is a [Z] kept in range by
    [wrap64]; a Go [string] is a [string] of bytes; an [error] is its
    message, [None] standing for [nil]; a [float64] is the dyadic rational it
    denotes (or +Inf), every operation rounding its exact result to nearest,
    ties to even.  Effects (the HTTP backend, the log, panics, [os.Exit]) are
    threaded through a small state-and-abort monad. *)

From Stdlib Require Import ZArith List String Ascii Bool Lia.
From Stdlib Require Import Permutation Sorted DecimalString.
From Stdlib Require DecimalPos.
Import ListNotations.

Set Warnings "-register-all".

Local Open Scope string_scope.
Local Open Scope Z_scope.

(* ================================================================== *)
(** * Part I: definitions                                              *)
(* ================================================================== *)

(** ** Go integers *)

Module Go.

(** Two's-complement wrap-around of [int64] arithmetic. *)
Definition wrap64 (z : Z) : Z := (z + 2 ^ 63) mod 2 ^ 64 - 2 ^ 63.

Definition in_int64 (z : Z) : Prop := - 2 ^ 63 <= z < 2 ^ 63.

Definition add64 (a b : Z) : Z := wrap64 (a + b).
Definition mul64 (a b : Z) : Z := wrap64 (a * b).

(** [a / b] and [a % b] truncate toward zero; the caller checks [b <> 0]
    (Go panics on a zero divisor). *)
Definition quo64 (a b : Z) : Z := wrap64 (Z.quot a b).
Definition rem64 (a b : Z) : Z := Z.rem a b.

(** [strconv.FormatInt(n, 10)]. *)
Definition FormatInt (n : Z) : string := NilZero.string_of_int (Z.to_int n).

(** [len(s)] as a mathematical integer. *)
Definition len (s : string) : Z := Z.of_nat (String.length s).

(** [fmt.Sprintf("%03d", n)]: decimal, padded with zeros on the left up to
    a minimum width of three; the sign, if any, counts in the width and
    stays in front. *)
Definition zeros (k : nat) : string := string_of_list_ascii (repeat "0"%char k).

Definition Sprintf_03d (n : Z) : string :=
  if n <? 0 then
    let d := FormatInt (- n) in
    "-" ++ zeros (2 - String.length d)%nat ++ d
  else
    let d := FormatInt n in
    zeros (3 - String.length d)%nat ++ d.

End Go.

(** ** [uploadFile]: the part count (main.go, lines 183-186) *)

(** [numParts := fileSize / u.partSize; if fileSize%u.partSize != 0 { numParts++ }].
    [None] is the run-time panic of an integer division by zero. *)
Definition numParts (fileSize partSize : Z) : option Z :=
  if partSize =? 0 then None
  else
    let n := Go.quo64 fileSize partSize in
    Some (if negb (Go.rem64 fileSize partSize =? 0) then Go.add64 n 1 else n).

(** ** Results of fallible Go functions *)

(** A Go function returning [(T, error)] yields [Ok v] for [(v, nil)] and
    [Err msg] for a non-nil error with message [msg]. *)
Inductive result (A : Type) : Type :=
| Ok (a : A)
| Err (msg : string).
Arguments Ok {A} a.
Arguments Err {A} msg.

(** ** [float64] *)

Module Float64.

(** Only non-negative values arise in the size parser (the pattern admits
    no sign), so a [float64] is either the finite value [m * 2^e] with
    [0 <= m], or +Inf.  Every operation is the IEEE 754 binary64 one:
    the exact result rounded to nearest, ties to even, with 53 bits of
    precision, gradual underflow below [2^-1022] and overflow to +Inf
    at [2^1024]. *)
Inductive t : Type :=
| Fin (m e : Z)
| Inf.

(** [floor (log2 (p / q))] for [0 < p] and [0 < q]. *)
Definition ilog2 (p q : Z) : Z :=
  let e0 := Z.log2 p - Z.log2 q in
  let below := if 0 <=? e0 then q * 2 ^ e0 <=? p else q <=? p * 2 ^ (- e0) in
  if below then e0 else e0 - 1.

(** The integer nearest to [n / d], ties to even ([0 <= n], [0 < d]). *)
Definition nearest_even (n d : Z) : Z :=
  let q := n / d in
  let r := n mod d in
  match 2 * r ?= d with
  | Lt => q
  | Gt => q + 1
  | Eq => if Z.even q then q else q + 1
  end.

(** Rounding of the rational [p / q] ([0 <= p], [0 < q]): the unit in the
    last place is [2^u] with [u = max (floor (log2 (p/q))) (-1022) - 52]. *)
Definition round (p q : Z) : t :=
  if p =? 0 then Fin 0 0
  else
    let u := Z.max (ilog2 p q) (- 1022) - 52 in
    let m := if 0 <=? u then nearest_even p (q * 2 ^ u)
             else nearest_even (p * 2 ^ (- u)) q in
    if (971 <=? u) && (2 ^ 53 <=? m * 2 ^ (u - 971)) then Inf else Fin m u.

(** Rounding of the dyadic [m * 2^e]. *)
Definition round_dyadic (m e : Z) : t :=
  if 0 <=? e then round (m * 2 ^ e) 1 else round m (2 ^ (- e)).

(** An untyped integer constant converted to [float64]. *)
Definition of_const (c : Z) : t := round c 1.

(** [x * y]; the second operand is a finite constant here. *)
Definition mul (x y : t) : t :=
  match x, y with
  | Fin m1 e1, Fin m2 e2 => round_dyadic (m1 * m2) (e1 + e2)
  | _, _ => Inf
  end.

(** The conversion [int64(x)] discards the fraction.  When the value does
    not fit, the Go specification leaves the result to the
    implementation: [Unspecified]. *)
Inductive conv : Type :=
| Int64 (n : Z)
| Unspecified.

Definition to_int64 (x : t) : conv :=
  match x with
  | Fin m e =>
      let n := if 0 <=? e then m * 2 ^ e else m / 2 ^ (- e) in
      if n <? 2 ^ 63 then Int64 n else Unspecified
  | Inf => Unspecified
  end.

End Float64.

(** ** Regular expressions *)

(** The fragment of Go's [regexp] syntax that [sizeRegex] uses, over bytes,
    with its meaning on whole texts (the pattern is anchored at both
    ends). *)
Module Regexp.

Inductive t : Type :=
| Byte (p : ascii -> bool)   (** one byte of the class [p] *)
| Empty                      (** the empty text *)
| Seq (r1 r2 : t)            (** [r1 r2] *)
| Alt (r1 r2 : t)            (** [r1|r2] *)
| Star (r : t).              (** [r*] *)

(** [r+] *)
Definition Plus (r : t) : t := Seq r (Star r).

(** [r?] *)
Definition Opt (r : t) : t := Alt r Empty.

Inductive matches : t -> string -> Prop :=
| matches_byte p c : p c = true -> matches (Byte p) (String c EmptyString)
| matches_empty : matches Empty EmptyString
| matches_seq r1 r2 s1 s2 :
    matches r1 s1 -> matches r2 s2 -> matches (Seq r1 r2) (s1 ++ s2)
| matches_alt_l r1 r2 s : matches r1 s -> matches (Alt r1 r2) s
| matches_alt_r r1 r2 s : matches r2 s -> matches (Alt r1 r2) s
| matches_star_nil r : matches (Star r) EmptyString
| matches_star_cons r s1 s2 :
    matches r s1 -> matches (Star r) s2 -> matches (Star r) (s1 ++ s2).

End Regexp.

(** ** The size parser (earlier revision of main.go, lines 29 and 66-88) *)

Module SizeParser.

(** *** Bytes and classes of bytes *)

Definition byte_in (lo hi c : ascii) : bool :=
  (nat_of_ascii lo <=? nat_of_ascii c)%nat && (nat_of_ascii c <=? nat_of_ascii hi)%nat.

(** [\d] *)
Definition is_digit (c : ascii) : bool := byte_in "0" "9" c.

(** [\s], that is [[\t\n\f\r ]] *)
Definition is_space (c : ascii) : bool :=
  let n := nat_of_ascii c in
  ((n =? 9) || (n =? 10) || (n =? 12) || (n =? 13) || (n =? 32))%nat.

(** [strings.ToLower] on ASCII text: [A-Z] become [a-z], every other byte
    is kept. *)
Definition lower_byte (c : ascii) : ascii :=
  if byte_in "A" "Z" c then ascii_of_nat (nat_of_ascii c + 32) else c.

Fixpoint ToLower (s : string) : string :=
  match s with
  | EmptyString => EmptyString
  | String c r => String (lower_byte c) (ToLower r)
  end.

(** The longest prefix of bytes satisfying [p], and the rest. *)
Fixpoint span (p : ascii -> bool) (s : string) : string * string :=
  match s with
  | EmptyString => (EmptyString, EmptyString)
  | String c r =>
      if p c then let '(a, b) := span p r in (String c a, b)
      else (EmptyString, s)
  end.

Definition is_empty (s : string) : bool :=
  match s with EmptyString => true | _ => false end.

(** *** [sizeRegex] *)

(** A letter under the [(?i)] flag: the byte itself in either case. *)
Definition letter (c : ascii) : Regexp.t :=
  Regexp.Byte (fun x => Ascii.eqb (lower_byte x) (lower_byte c)).

(** A class of letters under the [(?i)] flag. *)
Definition letters (cs : list ascii) : Regexp.t :=
  Regexp.Byte (fun x => existsb (fun c => Ascii.eqb (lower_byte x) (lower_byte c)) cs).

(** [\d+(\.\d+)?] *)
Definition number_re : Regexp.t :=
  let d := Regexp.Byte is_digit in
  Regexp.Seq (Regexp.Plus d)
    (Regexp.Opt (Regexp.Seq (Regexp.Byte (Ascii.eqb ".")) (Regexp.Plus d))).

(** [[KMGT]B|bytes?] *)
Definition unit_re : Regexp.t :=
  Regexp.Alt
    (Regexp.Seq (letters ["K"; "M"; "G"; "T"]%char) (letter "B"))
    (Regexp.Seq (letter "b")
       (Regexp.Seq (letter "y")
          (Regexp.Seq (letter "t")
             (Regexp.Seq (letter "e") (Regexp.Opt (letter "s")))))).

(** [(?i)^(\d+(\.\d+)?)\s*([KMGT]B|bytes?)$] *)
Definition sizeRegex : Regexp.t :=
  Regexp.Seq number_re (Regexp.Seq (Regexp.Star (Regexp.Byte is_space)) unit_re).

(** The matcher of [sizeRegex] is written by hand below; that it accepts
    exactly the texts of [sizeRegex] is the lemma [FindStringSubmatch_sizeRegex]. *)


(** The alternation [([KMGT]B|bytes?)] under the [(?i)] flag, anchored at
    the end of the text by [$]. *)
Definition unit_alternatives : list string :=
  ["kb"; "mb"; "gb"; "tb"; "byte"; "bytes"].

Definition matches_unit (u : string) : bool :=
  existsb (String.eqb (ToLower u)) unit_alternatives.

(** What follows a leading ["."], if the text starts with one. *)
Definition after_dot (s : string) : option string :=
  match s with
  | String c r => if Ascii.eqb c "." then Some r else None
  | EmptyString => None
  end.

(** [sizeRegex.FindStringSubmatch(s)] for
    [(?i)^(\d+(\.\d+)?)\s*([KMGT]B|bytes?)$]: [nil] when [s] does not
    match, and otherwise the whole match followed by the three groups.
    The pattern is anchored at both ends and its pieces use disjoint
    classes of bytes, so the greedy left-to-right reading below is the
    only way to match. *)
Definition FindStringSubmatch (s : string) : list string :=
  let '(int_digits, r1) := span is_digit s in
  if is_empty int_digits then []
  else
    let '(g1, g2, r2) :=
      match after_dot r1 with
      | Some r1' =>
          let '(frac_digits, r1'') := span is_digit r1' in
          if is_empty frac_digits then (int_digits, EmptyString, r1)
          else (int_digits ++ "." ++ frac_digits, "." ++ frac_digits, r1'')
      | None => (int_digits, EmptyString, r1)
      end in
    let '(_, g3) := span is_space r2 in
    if matches_unit g3 then [s; g1; g2; g3] else [].

(** *** [strconv.ParseFloat(s, 64)] on plain decimals *)

Definition digit_value (c : ascii) : Z := Z.of_nat (nat_of_ascii c) - 48.

(** The number spelled by a string of digits, most significant first. *)
Fixpoint digits_value_from (acc : Z) (s : string) : Z :=
  match s with
  | EmptyString => acc
  | String c r => digits_value_from (10 * acc + digit_value c) r
  end.

Definition digits_value (s : string) : Z := digits_value_from 0 s.

Fixpoint all_bytes (p : ascii -> bool) (s : string) : bool :=
  match s with
  | EmptyString => true
  | String c r => p c && all_bytes p r
  end.

(** The text before the first ["."] and, if there is one, the text after it. *)
Fixpoint cut_at_dot (s : string) : string * option string :=
  match s with
  | EmptyString => (EmptyString, None)
  | String c r =>
      if Ascii.eqb c "." then (EmptyString, Some r)
      else let '(a, b) := cut_at_dot r in (String c a, b)
  end.

(** [strconv.Quote] of a text without bytes that need escaping. *)
Definition quote (s : string) : string :=
  String (ascii_of_nat 34) (s ++ String (ascii_of_nat 34) EmptyString).

Definition range_error (s : string) : string :=
  "strconv.ParseFloat: parsing " ++ quote s ++ ": value out of range".
Definition syntax_error (s : string) : string :=
  "strconv.ParseFloat: parsing " ++ quote s ++ ": invalid syntax".

(** [ParseFloat] returns the [float64] nearest to the decimal, and a range
    error when that is +Inf.  Only the decimals the pattern lets through
    ([digits] or [digits.digits]) are accepted here; anything else is a
    syntax error. *)
Definition ParseFloat (s : string) : result Float64.t :=
  let '(ip, fp) := cut_at_dot s in
  let fr := match fp with Some f => f | None => EmptyString end in
  let well_formed :=
    negb (is_empty ip) && all_bytes is_digit ip &&
    match fp with
    | Some f => negb (is_empty f) && all_bytes is_digit f
    | None => true
    end in
  if well_formed then
    match Float64.round (digits_value (ip ++ fr)) (10 ^ Go.len fr) with
    | Float64.Inf => Err (range_error s)
    | x => Ok x
    end
  else Err (syntax_error s).

(** *** [fileSizeToBytes] *)

Definition in_list (s : string) (l : list string) : bool :=
  existsb (String.eqb s) l.

Definition fileSizeToBytes (sizeStr : string) : result Float64.conv :=
  let match_ := FindStringSubmatch (ToLower sizeStr) in
  if negb (Z.of_nat (List.length match_) =? 4) then
    Err ("invalid format: " ++ sizeStr)
  else
    match ParseFloat (nth 1 match_ EmptyString) with
    | Err e => Err e
    | Ok size =>
        let unit := nth 3 match_ EmptyString in
        let c := Float64.of_const in
        if in_list unit ["kb"; "kilobyte"; "kilobytes"] then
          Ok (Float64.to_int64 (Float64.mul size (c 1024)))
        else if in_list unit ["mb"; "megabyte"; "megabytes"] then
          Ok (Float64.to_int64
                (Float64.mul (Float64.mul size (c 1024)) (c 1024)))
        else if in_list unit ["gb"; "gigabyte"; "gigabytes"] then
          Ok (Float64.to_int64
                (Float64.mul
                   (Float64.mul (Float64.mul size (c 1000)) (c 1024))
                   (c 1024)))
        else Err ("unsupported unit: " ++ unit)
    end.

End SizeParser.

(** ** Data model (main.go, lines 41-106) *)

(** A Go [error] value, by its message; [nil] is [None]. *)
Definition error : Type := string.

Module UploadPartOut.
Record t : Type := mk
  { ID : string; Name : string; PartId : Z; PartNo : Z;
    TotalParts : Z; ChannelID : Z; Size : Z }.
Definition zero : t := mk "" "" 0 0 0 0 0.
End UploadPartOut.

Module Part.
Record t : Type := mk { ID : Z; PartNo : Z }.
End Part.

Module FilePayload.
Record t : Type := mk
  { Name : string; Type_ : string; Parts : list Part.t;
    MimeType : string; Path : string; Size : Z }.
End FilePayload.

Module CreateDirRequest.
Record t : Type := mk { Path : string }.
End CreateDirRequest.

Module MetadataRequestOptions.
Record t : Type := mk
  { PerPage : Z; SearchField : string; Search : string;
    NextPageToken : string }.
End MetadataRequestOptions.

Module FileInfo.
Record t : Type := mk
  { Id : string; Name : string; MimeType : string; Size : Z;
    ParentId : string; Type_ : string; ModTime : string }.
End FileInfo.

Module ReadMetadataResponse.
Record t : Type := mk { Files : list FileInfo.t; NextPageToken : string }.
Definition zero : t := mk [] "".
End ReadMetadataResponse.

(** The fields of [Uploader] that are plain data; its [http] client, [pacer]
    and [ctx] are collaborators and live in the [Platform] below. *)
Module Uploader.
Record t : Type := mk { numWorkers : Z; partSize : Z; channelID : Z }.
End Uploader.

(** ** The transport (rest/rest.go) *)

Module rest.

(** What a request body can be in this program. *)
Inductive body : Type :=
| NoBody
| FileRange (path : string) (start length : Z)
    (** [io.LimitReader] over the file [path] positioned at [start] *)
| JsonFilePayload (p : FilePayload.t)
| JsonCreateDir (r : CreateDirRequest.t).

(** The fields of [rest.Opts] the program sets. *)
Record Opts : Type := mkOpts
  { Method : string;
    Path : string;
    Parameters : list (string * string);
    Body : body;
    ContentLength : option Z;
    ContentType : string }.

(** An [http.Response]: its status code, the message the client's error
    handler builds from it, and what [DecodeJSON] makes of its body for
    each of the two result types the program decodes into ([None] is a
    decoding error). *)
Record Response : Type := mkResponse
  { StatusCode : Z;
    Status : string;
    ErrorText : string;
    as_part : result UploadPartOut.t;
    as_listing : result ReadMetadataResponse.t }.

End rest.

(** ** Local files *)

(** What the operating system answers for one regular file: the results of
    [os.Open] and of the first [Read] in [uploadFile], the type
    [http.DetectContentType] finds in the bytes read, the size [Stat]
    reports, and, per part number, the results of the part's own [os.Open]
    and [Seek]. *)
Record LocalFile : Type := mkLocalFile
  { f_open : option error;
    f_read : option error;
    f_mime : string;
    f_size : Z;
    f_part_open : Z -> option error;
    f_part_seek : Z -> option error }.

(** A local directory tree as [os.ReadDir] shows it: a directory carries the
    error of reading it, if any, and its entries. *)
Inductive node : Type :=
| File (name : string) (f : LocalFile)
| Dir (name : string) (read_err : option error) (entries : list node).

(** ** The environment of a run *)

(** Everything outside the program: the state of the network and backend
    with the HTTP round trip [Do] ([http.Client.Do]), the state of the
    uploader's context, the library functions the program calls, and the
    scheduler, which picks the order in which concurrent part uploads run and
    the order in which their results reach the channel. *)
Class Platform : Type :=
  { World : Type;
    Do : World -> rest.Opts -> World * result rest.Response;
    ctx_Err : World -> option error;
    fserrors_ShouldRetry : error -> bool;
    LowLevelRetries : Z;
    md5_hex : string -> string;
    filepath_Join : string -> string -> string;
    filepath_Base : string -> string;
    interleave : forall A : Type, World -> list A -> list A;
    interleave_perm :
      forall (A : Type) (w : World) (l : list A), Permutation (interleave A w l) l }.

(** ** Effects *)

Inductive event : Type :=
| HttpCall (o : rest.Opts)          (** a request handed to [rest.Call] *)
| LogLine (logger line : string).   (** a line written by a logger *)

(** How a computation ends: normally, by a run-time panic, by [os.Exit], or
    not at all (the model ran out of fuel). *)
Inductive outcome (A : Type) : Type :=
| Done (a : A)
| Panic (msg : string)
| Exit (code : Z)
| Hang.
Arguments Done {A} a.
Arguments Panic {A} msg.
Arguments Exit {A} code.
Arguments Hang {A}.

Section Program.

Context {P : Platform}.

(** The state a run threads: the world, and the events so far, the most
    recent first. *)
Record state : Type := mkState { world : World; trace : list event }.

Definition M (A : Type) : Type := state -> state * outcome A.

Definition ret {A} (a : A) : M A := fun s => (s, Done a).

Definition bind {A B} (c : M A) (k : A -> M B) : M B :=
  fun s =>
    match c s with
    | (s', Done a) => k a s'
    | (s', Panic msg) => (s', Panic msg)
    | (s', Exit code) => (s', Exit code)
    | (s', Hang) => (s', Hang)
    end.

Definition emit (e : event) : M unit :=
  fun s => (mkState (world s) (e :: trace s), Done tt).

Definition panic {A} (msg : string) : M A := fun s => (s, Panic msg).
Definition os_Exit {A} (code : Z) : M A := fun s => (s, Exit code).
Definition hang {A} : M A := fun s => (s, Hang).

(** [u.ctx.Err()] at this moment. *)
Definition ctx_err : M (option error) := fun s => (s, Done (ctx_Err (world s))).

(** One round trip of [http.Client.Do]. *)
Definition http_Do (o : rest.Opts) : M (result rest.Response) :=
  fun s => let '(w, r) := Do (world s) o in (mkState w (trace s), Done r).

(** The scheduler's choice among concurrent activities. *)
Definition scheduled {A} (l : list A) : M (list A) :=
  fun s => (s, Done (interleave A (world s) l)).

End Program.

Declare Scope go_scope.
Delimit Scope go_scope with go.
Notation "x <- c ;; k" := (bind c (fun x => k))
  (at level 61, c at next level, right associativity) : go_scope.
Notation "' pat <- c ;; k" := (bind c (fun x => let 'pat := x in k))
  (at level 61, pat pattern, c at next level, right associativity) : go_scope.
Notation "c ;;; k" := (bind c (fun _ => k))
  (at level 61, right associativity) : go_scope.
Local Open Scope go_scope.

(** ** Loggers (main.go, lines 33-39) *)

Section Loggers.

Context {P : Platform}.

(** How [Println] shows an [error] operand. *)
Definition show_error (e : option error) : string :=
  match e with Some msg => msg | None => "<nil>" end.

(** [Println] separates its operands by single spaces. *)
Definition Error_Println (operands : list string) : M unit :=
  emit (LogLine "ERROR" (String.concat " " operands)).

Definition Info_Println (operands : list string) : M unit :=
  emit (LogLine "INFO" (String.concat " " operands)).

(** [Fatalln] is [Println] followed by [os.Exit(1)]. *)
Definition Error_Fatalln {A} (operands : list string) : M A :=
  Error_Println operands ;;; os_Exit 1.

End Loggers.

(** ** [rest.Call] and [rest.CallJSON] (rest/rest.go, lines 183-290, 380-435) *)

Section Transport.

Context {P : Platform}.

(** [Call], for a client whose root URL is set (as [main] does): the body
    is dropped when the content length is given as zero; an error of the
    round trip comes back with a nil response; a status outside 200..299
    comes back with the response and the error handler's error, an empty
    message being replaced. *)
Definition Call (opts : rest.Opts) : M (option rest.Response * option error) :=
  emit (HttpCall opts) ;;;
  let body :=
    match rest.ContentLength opts with
    | Some 0 => rest.NoBody
    | _ => rest.Body opts
    end in
  r <- http_Do (rest.mkOpts (rest.Method opts) (rest.Path opts)
                  (rest.Parameters opts) body (rest.ContentLength opts)
                  (rest.ContentType opts)) ;;
  match r with
  | Err e => ret (None, Some e)
  | Ok resp =>
      if (rest.StatusCode resp <? 200) || (299 <? rest.StatusCode resp) then
        let e := rest.ErrorText resp in
        let e := if String.eqb e "" then
                   "http error " ++ Go.FormatInt (rest.StatusCode resp)
                     ++ ": " ++ rest.Status resp
                 else e in
        ret (Some resp, Some e)
      else ret (Some resp, None)
  end.

(** [callCodec]: a marshalled request becomes the body, with the JSON
    content type, unless the caller has set a body already. *)
Definition with_request (opts : rest.Opts) (request : option rest.body) : rest.Opts :=
  match request, rest.Body opts with
  | Some marshalled, rest.NoBody =>
      rest.mkOpts (rest.Method opts) (rest.Path opts) (rest.Parameters opts)
        marshalled (rest.ContentLength opts) "application/json"
  | _, _ => opts
  end.

(** [CallJSON(ctx, opts, request, response)].  [request] is the value to
    marshal, if any; [decode] says how the body decodes into the type of
    the [response] pointer, if one is passed, and [target] is what that
    pointer holds before the call.  The third component of the result is
    what it holds afterwards: the decoded value, or [target] unchanged when
    nothing was decoded. *)
Definition CallJSON {T : Type} (opts : rest.Opts) (request : option rest.body)
    (decode : option (rest.Response -> result T)) (target : T)
  : M (option rest.Response * option error * T) :=
  let opts := with_request opts request in
  '(resp, err) <- Call opts ;;
  match err, resp, decode with
  | Some e, _, _ => ret (resp, Some e, target)
  | None, Some r, Some dec =>
      match dec r with
      | Ok v => ret (resp, None, v)
      | Err e => ret (resp, Some e, target)
      end
  | None, _, _ => ret (resp, None, target)
  end.

End Transport.

(** ** Retrying (main.go, lines 108-122) *)

Definition retryErrorCodes : list Z :=
  [ 429   (* Too Many Requests *)
  ; 500   (* Internal Server Error *)
  ; 502   (* Bad Gateway *)
  ; 503   (* Service Unavailable *)
  ; 504   (* Gateway Timeout *)
  ; 509   (* Bandwidth Limit Exceeded *) ].

(** The two helpers of rclone's [fserrors] that [shouldRetry] calls besides
    the error classifier [fserrors.ShouldRetry] of the [Platform], from
    their documentation. *)
Module fserrors.

(** [ContextError(ctx, &err)]: "checks to see if ctx is in error.  If it is
    in error then it overwrites *perr with the context error if *perr was
    nil and returns true.  Otherwise it returns false."  The first argument
    is [ctx.Err()]; the second component of the result is [*perr]
    afterwards. *)
Definition ContextError (ctxErr : option error) (err : option error)
  : bool * option error :=
  match ctxErr with
  | Some ce => (true, match err with None => Some ce | Some _ => err end)
  | None => (false, err)
  end.

(** [ShouldRetryHTTP(resp, codes)]: "checks to see if the HTTP response
    code is in the slice retryErrorCodes"; false for a nil response. *)
Definition ShouldRetryHTTP (resp : option rest.Response) (codes : list Z) : bool :=
  match resp with
  | None => false
  | Some r => existsb (Z.eqb (rest.StatusCode r)) codes
  end.

End fserrors.

Section Retry.

Context {P : Platform}.

(** [fserrors.ShouldRetry(err)]: false for nil, and otherwise the
    library's classification of transient errors. *)
Definition ShouldRetry (err : option error) : bool :=
  match err with
  | None => false
  | Some e => fserrors_ShouldRetry e
  end.

(** [shouldRetry(ctx, resp, err)], with [ctx.Err()] for [ctx]. *)
Definition shouldRetry (ctxErr : option error) (resp : option rest.Response)
    (err : option error) : bool * option error :=
  let '(in_error, err) := fserrors.ContextError ctxErr err in
  if in_error then (false, err)
  else (ShouldRetry err || fserrors.ShouldRetryHTTP resp retryErrorCodes, err).

(** [fs.NewPacer] allows [LowLevelRetries] tries, and one when that is not
    positive. *)
Definition pacer_retries : nat :=
  if LowLevelRetries <=? 0 then 1%nat else Z.to_nat LowLevelRetries.

(** [pacer.Call(fn)]: [fn] is tried until it asks for no retry or the
    tries are used up; the last error is returned.  [V] is the type of the
    variables of the enclosing function that the closure [fn] assigns. *)
Fixpoint pacer_loop {V : Type} (tries : nat)
    (fn : V -> M (V * (bool * option error))) (v : V) (err : option error)
  : M (V * option error) :=
  match tries with
  | O => ret (v, err)
  | S tries' =>
      '(v', (retry, err')) <- fn v ;;
      if retry then pacer_loop tries' fn v' err' else ret (v', err')
  end.

Definition pacer_Call {V : Type} (fn : V -> M (V * (bool * option error))) (v : V)
  : M (V * option error) :=
  pacer_loop pacer_retries fn v None.

End Retry.

(** ** [uploadFile] (main.go, lines 155-337) *)

(** [sort.Slice(parts, less)] puts the slice in an order where no element is
    [less] than one before it, keeping its elements; it promises nothing
    about the relative order of elements neither of which is [less] than the
    other.  It is modelled by insertion from the right. *)
Module sort.

Fixpoint insert {A} (less : A -> A -> bool) (x : A) (l : list A) : list A :=
  match l with
  | [] => [x]
  | y :: l' => if less y x then y :: insert less x l' else x :: l
  end.

Definition Slice {A} (less : A -> A -> bool) (l : list A) : list A :=
  fold_right (insert less) [] l.

End sort.

Section UploadFile.

Context {P : Platform}.

(** One iteration of the dispatch loop: the byte range of part [i]
    (counted from zero).
    [start := i * u.partSize; end := start + u.partSize;
     if end > fileSize { end = fileSize }] *)
Definition part_range (partSize fileSize i : Z) : Z * Z :=
  let start := Go.mul64 i partSize in
  let end_ := Go.add64 start partSize in
  let end_ := if end_ >? fileSize then fileSize else end_ in
  (start, end_).

(** The name a part is uploaded under. *)
Definition part_name (fileName : string) (numParts partNumber : Z) : string :=
  if numParts >? 1 then
    fileName ++ ".part." ++ Go.Sprintf_03d (Go.add64 partNumber 1)
  else fileName.

(** The request of the part with number [partNumber] (from zero). *)
Definition part_opts (u : Uploader.t) (filePath fileName uploadURL : string)
    (numParts partNumber start end_ : Z) : rest.Opts :=
  let name := part_name fileName numParts partNumber in
  let contentLength := Go.wrap64 (end_ - start) in
  rest.mkOpts "POST" uploadURL
    [ ("fileName", name);
      ("partNo", Go.FormatInt (Go.add64 partNumber 1));
      ("totalparts", Go.FormatInt numParts);
      ("channelId", Go.FormatInt (Uploader.channelID u)) ]
    (rest.FileRange filePath start contentLength)
    (Some contentLength) "".

(** The body of the goroutine started for one part; [Some part] is the
    value it sends on [uploadedParts], [None] when it sends nothing. *)
Definition upload_part (u : Uploader.t) (f : LocalFile)
    (filePath fileName uploadURL : string) (numParts : Z)
    (task : Z * (Z * Z)) : M (option UploadPartOut.t) :=
  let '(partNumber, (start, end_)) := task in
  match f_part_open f partNumber with
  | Some e => Error_Println ["Error:"; e] ;;; ret None
  | None =>
      match f_part_seek f partNumber with
      | Some e => Error_Println ["Error:"; e] ;;; ret None
      | None =>
          let opts :=
            part_opts u filePath fileName uploadURL numParts partNumber start end_ in
          '(resp, err, part) <-
            CallJSON opts None (Some rest.as_part) UploadPartOut.zero ;;
          match err with
          | Some e => Error_Println ["Error:"; e] ;;; ret None
          | None =>
              match resp with
              | None => panic "invalid memory address or nil pointer dereference"
              | Some r =>
                  if rest.StatusCode r =? 200 then ret (Some part) else ret None
              end
          end
      end
  end.

(** The tasks of the dispatch loop [for i := int64(0); i < numParts; i++],
    in the order they are started. *)
Definition part_tasks (partSize fileSize numParts : Z) : list (Z * (Z * Z)) :=
  map (fun k => let i := Z.of_nat k in (i, part_range partSize fileSize i))
      (seq 0 (Z.to_nat numParts)).

(** Running a list of goroutine bodies one after the other and gathering
    what they send. *)
Fixpoint run_parts (body : Z * (Z * Z) -> M (option UploadPartOut.t))
    (tasks : list (Z * (Z * Z))) : M (list UploadPartOut.t) :=
  match tasks with
  | [] => ret []
  | t :: tasks' =>
      r <- body t ;;
      rs <- run_parts body tasks' ;;
      ret (match r with Some part => part :: rs | None => rs end)
  end.

(** The concurrent phase: every part is started, at most [numWorkers] run
    at a time, and the coordinator drains [uploadedParts] until all are
    done.  The scheduler fixes the order in which the parts' requests
    reach the transport and the order in which the parts sent arrive; both
    are arbitrary permutations here, which covers every interleaving the
    semaphore admits.  With no worker slot the first send on
    [concurrentWorkers] blocks forever. *)
Definition upload_parts (u : Uploader.t) (f : LocalFile)
    (filePath fileName uploadURL : string) (fileSize numParts : Z)
  : M (list UploadPartOut.t) :=
  if numParts <? 0 then panic "makechan: size out of range"
  else if Uploader.numWorkers u <? 0 then panic "makechan: size out of range"
  else if (Uploader.numWorkers u =? 0) && (0 <? numParts) then
    panic "all goroutines are asleep - deadlock!"
  else
    order <- scheduled (part_tasks (Uploader.partSize u) fileSize numParts) ;;
    sent <- run_parts (upload_part u f filePath fileName uploadURL numParts) order ;;
    scheduled sent.

Definition to_Part (uploadPart : UploadPartOut.t) : Part.t :=
  Part.mk (Go.wrap64 (UploadPartOut.PartId uploadPart))
          (UploadPartOut.PartNo uploadPart).

Definition less_PartNo (a b : Part.t) : bool := Part.PartNo a <? Part.PartNo b.

Definition upload_url (fileName destDir : string) (fileSize : Z) : string :=
  let input := fileName ++ ":" ++ destDir ++ ":" ++ Go.FormatInt fileSize in
  "/api/uploads/" ++ md5_hex input.

Definition finalize_opts : rest.Opts :=
  rest.mkOpts "POST" "/api/files" [] rest.NoBody None "".

Definition delete_opts (uploadURL : string) : rest.Opts :=
  rest.mkOpts "DELETE" uploadURL [] rest.NoBody None "".

(** A paced call whose closure keeps nothing but the verdict of
    [shouldRetry]. *)
Definition paced_call (opts : rest.Opts) (request : option rest.body)
  : M (option error) :=
  '(_, err) <-
    pacer_Call
      (fun _ : unit =>
         '(resp, err, _) <- CallJSON opts request None tt ;;
         ctxErr <- ctx_err ;;
         ret (tt, shouldRetry ctxErr resp err))
      tt ;;
  ret err.

(** What follows the concurrent phase, given the parts received. *)
Definition finish_upload (fileName destDir mimeType uploadURL : string)
    (fileSize numParts : Z) (err : option error)
    (received : list UploadPartOut.t) : M (option error) :=
  let parts := map to_Part received in
  if negb (Z.of_nat (List.length parts) =? numParts) then
    ret (Some ("upload failed: " ++ fileName))
  else
    let parts := sort.Slice less_PartNo parts in
    let filePayload :=
      FilePayload.mk fileName "file" parts mimeType destDir fileSize in
    match err with
    | Some e => ret (Some e)
    | None =>
        err <- paced_call finalize_opts (Some (rest.JsonFilePayload filePayload)) ;;
        match err with
        | Some e => ret (Some e)
        | None =>
            err <- paced_call (delete_opts uploadURL) None ;;
            match err with
            | Some e => ret (Some e)
            | None => ret None
            end
        end
    end.

Definition uploadFile (u : Uploader.t) (filePath destDir : string)
    (f : LocalFile) : M (option error) :=
  match f_open f with
  | Some e => ret (Some e)
  | None =>
      let err := f_read f in
      match err with
      | Some e => Error_Println ["Error reading file:"; e] ;;; ret None
      | None =>
          let mimeType := f_mime f in
          let fileSize := f_size f in
          let fileName := filepath_Base filePath in
          let uploadURL := upload_url fileName destDir fileSize in
          match numParts fileSize (Uploader.partSize u) with
          | None => panic "integer divide by zero"
          | Some numParts =>
              received <-
                upload_parts u f filePath fileName uploadURL fileSize numParts ;;
              finish_upload fileName destDir mimeType uploadURL
                fileSize numParts err received
          end
      end
  end.

End UploadFile.

(** ** The directory walker (main.go, lines 339-472) *)

(** [strings.ReplaceAll(s, "\\", "/")] *)
Fixpoint backslashes_to_slashes (s : string) : string :=
  match s with
  | EmptyString => EmptyString
  | String c r =>
      String (if Ascii.eqb c "\" then "/"%char else c) (backslashes_to_slashes r)
  end.

Section Walker.

Context {P : Platform}.

Definition createRemoteDir (path : string) : M (option error) :=
  let opts := rest.mkOpts "POST" "/api/files/makedir" [] rest.NoBody None "" in
  let path :=
    match path with
    | String "/" _ => path
    | _ => "/" ++ path
    end in
  let mkdir := CreateDirRequest.mk path in
  err <- paced_call opts (Some (rest.JsonCreateDir mkdir)) ;;
  match err with
  | Some e => ret (Some e)
  | None => ret None
  end.

Definition fs_ErrorDirNotFound : error := "directory not found".

Definition list_opts (path : string) (options : MetadataRequestOptions.t)
  : rest.Opts :=
  rest.mkOpts "GET" "/api/files"
    [ ("path", path);
      ("perPage", Go.FormatInt (MetadataRequestOptions.PerPage options));
      ("sort", "name");
      ("order", "asc");
      ("op", "list");
      ("nextPageToken", MetadataRequestOptions.NextPageToken options) ]
    rest.NoBody None "".

(** The closure passed to the pacer assigns the variables [resp] and
    [info] of [readMetaDataForPath]; the error test that follows reads
    [resp.StatusCode] whenever the call failed, also when [resp] is nil. *)
Definition readMetaDataForPath (path : string)
    (options : MetadataRequestOptions.t)
  : M (option ReadMetadataResponse.t * option error) :=
  let opts := list_opts path options in
  '((resp, info), err) <-
    pacer_Call
      (fun v : option rest.Response * ReadMetadataResponse.t =>
         '(resp, err, info) <-
           CallJSON opts None (Some rest.as_listing) (snd v) ;;
         ctxErr <- ctx_err ;;
         ret ((resp, info), shouldRetry ctxErr resp err))
      (None, ReadMetadataResponse.zero) ;;
  match err with
  | Some e =>
      match resp with
      | None => panic "invalid memory address or nil pointer dereference"
      | Some r =>
          if rest.StatusCode r =? 404 then ret (None, Some fs_ErrorDirNotFound)
          else ret (None, Some e)
      end
  | None => ret (Some info, None)
  end.

(** The paging loop of [list_]; [fuel] bounds the number of pages the model
    will ask for. *)
Fixpoint list_pages (fuel : nat) (path : string) (files : list FileInfo.t)
    (nextPageToken : string) : M (list FileInfo.t * option error) :=
  match fuel with
  | O => hang
  | S fuel' =>
      let opts := MetadataRequestOptions.mk 500 "" "" nextPageToken in
      '(info, err) <- readMetaDataForPath path opts ;;
      match err, info with
      | Some e, _ => ret ([], Some e)
      | None, None => panic "invalid memory address or nil pointer dereference"
      | None, Some info =>
          let files := (files ++ ReadMetadataResponse.Files info)%list in
          let nextPageToken := ReadMetadataResponse.NextPageToken info in
          if String.eqb nextPageToken "" then ret (files, None)
          else list_pages fuel' path files nextPageToken
      end
  end.

(** [list(path)] of the source; the name is taken by the type of lists. *)
Definition list_ (fuel : nat) (path : string) : M (list FileInfo.t * option error) :=
  list_pages fuel path [] "".

Fixpoint checkFileExists (name : string) (files : list FileInfo.t) : bool :=
  match files with
  | [] => false
  | item :: files' =>
      if String.eqb (FileInfo.Name item) name then true
      else checkFileExists name files'
  end.

(** [for _, entry := range entries { body }] *)
Fixpoint for_each {A} (body : A -> M unit) (l : list A) : M unit :=
  match l with
  | [] => ret tt
  | x :: l' => body x ;;; for_each body l'
  end.

(** [uploadFilesInDirectory], with the function called for each entry as
    a parameter; [read_err] and [entries] are the answer of
    [os.ReadDir(sourcePath)]. *)
Definition walk_directory
    (on_entry : string -> string -> list FileInfo.t -> node -> M unit)
    (fuel : nat) (sourcePath destDir : string)
    (read_err : option error) (entries : list node) : M (option error) :=
  match read_err with
  | Some e => ret (Some e)
  | None =>
      let destDir := backslashes_to_slashes destDir in
      '(files, err) <- list_ fuel destDir ;;
      match err with
      | Some e => ret (Some e)
      | None =>
          for_each (on_entry sourcePath destDir files) entries ;;;
          ret None
      end
  end.

(** The body of the loop over the entries of a directory. *)
Fixpoint upload_entry (fuel : nat) (u : Uploader.t)
    (sourcePath destDir : string) (files : list FileInfo.t) (entry : node)
    {struct entry} : M unit :=
  match entry with
  | Dir name read_err entries =>
      let fullPath := filepath_Join sourcePath name in
      let subDir := filepath_Join destDir name in
      let subDir := backslashes_to_slashes subDir in
      err <- createRemoteDir subDir ;;
      match err with
      | Some e => Error_Fatalln [e]
      | None => ret tt
      end ;;;
      err <- walk_directory (upload_entry fuel u) fuel fullPath subDir
               read_err entries ;;
      Error_Println [show_error err]
  | File name f =>
      let fullPath := filepath_Join sourcePath name in
      let exists_ := checkFileExists name files in
      if negb exists_ then
        err <- uploadFile u fullPath destDir f ;;
        match err with
        | Some e => Error_Println ["upload failed:"; name; e]
        | None => ret tt
        end
      else Info_Println ["file exists:"; name]
  end.

Definition uploadFilesInDirectory (fuel : nat) (u : Uploader.t)
    (sourcePath destDir : string) (read_err : option error)
    (entries : list node) : M (option error) :=
  walk_directory (upload_entry fuel u) fuel sourcePath destDir read_err entries.

End Walker.

(** ** The configuration and [main] (main.go, lines 41-47, 124-142, 474-533) *)

Module Config.
Record t : Type := mk
  { ApiURL : string;
    SessionToken : string;
    PartSize : Z;
    Workers : Z;
    ChannelID : Z }.
End Config.

(** [fs.Mebi], [1 << 20]. *)
Definition fs_Mebi : Z := Z.shiftl 1 20.

(** What [os.Stat] answers for the source path: an error, a regular file,
    or a directory with what [os.ReadDir] shows of it. *)
Inductive stat : Type :=
| StatError (e : error)
| StatFile (f : LocalFile)
| StatDir (read_err : option error) (entries : list node).

Definition usage : string :=
  "Usage: ./uploader -path <file_or_directory_path> -dest <remote_directory>".

Section Main.

Context {P : Platform}.

(** [fmt.Println] writes to the standard output without the prefix of a
    logger. *)
Definition fmt_Println (operands : list string) : M unit :=
  emit (LogLine "" (String.concat " " operands)).

(** [loadConfigFromEnv]; [dotenv] is the error of
    [godotenv.Load("upload.env")], and [processed] is what
    [envconfig.Process] makes of the environment: the configuration it
    fills in, or its error. *)
Definition loadConfigFromEnv (dotenv : option error)
    (processed : result Config.t) : M (result Config.t) :=
  match dotenv with
  | Some e => ret (Err e)
  | None =>
      match processed with
      | Err e => panic e
      | Ok config =>
          if Config.PartSize config =? 0 then
            ret (Ok (Config.mk (Config.ApiURL config) (Config.SessionToken config)
                       (1000 * fs_Mebi) (Config.Workers config)
                       (Config.ChannelID config)))
          else ret (Ok config)
      end
  end.

(** [main], for the values [sourcePath] and [destDir] of the flags [-path]
    and [-dest]; [source] is what [os.Stat] answers for the source path. *)
Definition main (fuel : nat) (sourcePath destDir : string)
    (dotenv : option error) (processed : result Config.t) (source : stat)
  : M unit :=
  if String.eqb sourcePath "" || String.eqb destDir "" then
    fmt_Println [usage]
  else
    loaded <- loadConfigFromEnv dotenv processed ;;
    match loaded with
    | Err e => Error_Fatalln [e]
    | Ok config =>
        let uploader :=
          Uploader.mk (Config.Workers config) (Config.PartSize config)
            (Config.ChannelID config) in
        err <- createRemoteDir destDir ;;
        match err with
        | Some e => Error_Fatalln [e]
        | None => ret tt
        end ;;;
        match source with
        | StatFile f =>
            err <- uploadFile uploader sourcePath destDir f ;;
            match err with
            | Some e => Error_Println ["upload failed:"; e]
            | None => ret tt
            end
        | StatDir read_err entries =>
            err <- uploadFilesInDirectory fuel uploader sourcePath destDir
                     read_err entries ;;
            match err with
            | Some e => Error_Println ["upload failed:"; e]
            | None => ret tt
            end
        | StatError e => Error_Fatalln [e]
        end ;;;
        Info_Println ["Uploads complete!"]
    end.

End Main.

(** ** The earlier revision of main.go (lines 90-122 and 134-350)

    The revision that parses [PART_SIZE] by hand has no pacer, no listing
    of the destination and no loggers: it calls [CallJSON] directly and
    prints with [fmt.Println]. *)

Module Legacy.

Module Config.
Record t : Type := mk
  { ApiURL : string;
    SessionToken : string;
    PartSize : Float64.conv;
    Workers : Z }.
End Config.

(** The first result of [strconv.Atoi(s)] on a platform whose [int] has 64
    bits; the code drops the second.  "If s is empty or contains invalid
    digits, ... the returned value is 0; if the value corresponding to s
    cannot be represented by a signed integer of the given size, ... the
    returned value is the maximum magnitude integer of the appropriate
    bitSize and sign." *)
Definition Atoi (s : string) : Z :=
  let '(negative, ds) :=
    match s with
    | String "-" r => (true, r)
    | String "+" r => (false, r)
    | _ => (false, s)
    end in
  if SizeParser.is_empty ds || negb (SizeParser.all_bytes SizeParser.is_digit ds)
  then 0
  else
    let v := SizeParser.digits_value ds in
    if negative then Z.max (- v) (- 2 ^ 63) else Z.min v (2 ^ 63 - 1).

(** [loadConfigFromEnv]; [dotenv] is the error of
    [godotenv.Load("upload.env")] and [getenv] is [os.Getenv] after it. *)
Definition loadConfigFromEnv (dotenv : option error) (getenv : string -> string)
  : result Config.t :=
  match dotenv with
  | Some e => Err e
  | None =>
      let partSize :=
        if negb (String.eqb (getenv "PART_SIZE") "") then getenv "PART_SIZE"
        else "1GB" in
      match SizeParser.fileSizeToBytes partSize with
      | Err e => Err e
      | Ok partSizeBytes =>
          let workers :=
            if negb (String.eqb (getenv "WORKERS") "") then Atoi (getenv "WORKERS")
            else 4 in
          Ok (Config.mk (getenv "API_URL") (getenv "SESSION_TOKEN")
                partSizeBytes workers)
      end
  end.

Section Program.

Context {P : Platform}.

(** The request of the part with number [partNumber] (from zero). *)
Definition part_opts (filePath fileName uploadURL : string)
    (numParts partNumber start end_ : Z) : rest.Opts :=
  let name := part_name fileName numParts partNumber in
  let contentLength := Go.wrap64 (end_ - start) in
  rest.mkOpts "POST" uploadURL
    [ ("fileName", name);
      ("partNo", Go.FormatInt (Go.add64 partNumber 1));
      ("totalparts", Go.FormatInt numParts) ]
    (rest.FileRange filePath start contentLength)
    (Some contentLength) "application/octet-stream".

(** The body of the goroutine started for one part. *)
Definition upload_part (f : LocalFile)
    (filePath fileName uploadURL : string) (numParts : Z)
    (task : Z * (Z * Z)) : M (option UploadPartOut.t) :=
  let '(partNumber, (start, end_)) := task in
  match f_part_open f partNumber with
  | Some e => fmt_Println ["Error:"; e] ;;; ret None
  | None =>
      match f_part_seek f partNumber with
      | Some e => fmt_Println ["Error:"; e] ;;; ret None
      | None =>
          let opts :=
            part_opts filePath fileName uploadURL numParts partNumber start end_ in
          '(resp, err, part) <-
            CallJSON opts None (Some rest.as_part) UploadPartOut.zero ;;
          match err with
          | Some e => fmt_Println ["Error:"; e] ;;; ret None
          | None =>
              match resp with
              | None => panic "invalid memory address or nil pointer dereference"
              | Some r =>
                  if rest.StatusCode r =? 200 then ret (Some part) else ret None
              end
          end
      end
  end.

(** The concurrent phase, as in [upload_parts] of the later revision. *)
Definition upload_parts (f : LocalFile)
    (filePath fileName uploadURL : string)
    (partSize numWorkers fileSize numParts : Z)
  : M (list UploadPartOut.t) :=
  if numParts <? 0 then panic "makechan: size out of range"
  else if numWorkers <? 0 then panic "makechan: size out of range"
  else if (numWorkers =? 0) && (0 <? numParts) then
    panic "all goroutines are asleep - deadlock!"
  else
    order <- scheduled (part_tasks partSize fileSize numParts) ;;
    sent <- run_parts (upload_part f filePath fileName uploadURL numParts) order ;;
    scheduled sent.

(** What follows the concurrent phase, given the parts received: the two
    requests are made once each, and their outcome is read off
    [resp.StatusCode], also when [resp] is nil. *)
Definition finish_upload (fileName destDir mimeType uploadURL : string)
    (fileSize numParts : Z) (err : option error)
    (received : list UploadPartOut.t) : M (option error) :=
  let parts := map to_Part received in
  if negb (Z.of_nat (List.length parts) =? numParts) then
    ret (Some "upload failed")
  else
    let parts := sort.Slice less_PartNo parts in
    let filePayload :=
      FilePayload.mk fileName "file" parts mimeType destDir fileSize in
    match err with
    | Some e => fmt_Println ["Error marshaling JSON:"; e] ;;; ret (Some e)
    | None =>
        '(resp, err, _) <-
          CallJSON finalize_opts (Some (rest.JsonFilePayload filePayload)) None tt ;;
        match resp with
        | None => panic "invalid memory address or nil pointer dereference"
        | Some r =>
            if negb (rest.StatusCode r =? 200) then
              fmt_Println ["Request failed with status code:";
                           Go.FormatInt (rest.StatusCode r)] ;;;
              ret err
            else
              '(resp, err, _) <- CallJSON (delete_opts uploadURL) None None tt ;;
              match resp with
              | None => panic "invalid memory address or nil pointer dereference"
              | Some r =>
                  if negb (rest.StatusCode r =? 200) then
                    fmt_Println ["Request failed with status code:";
                                 Go.FormatInt (rest.StatusCode r)] ;;;
                    ret err
                  else ret None
              end
        end
    end.

Definition uploadFile (filePath destDir : string) (partSize numWorkers : Z)
    (f : LocalFile) : M (option error) :=
  match f_open f with
  | Some e => ret (Some e)
  | None =>
      let err := f_read f in
      match err with
      | Some e => fmt_Println ["Error reading file:"; e] ;;; ret None
      | None =>
          let mimeType := f_mime f in
          let fileSize := f_size f in
          let fileName := filepath_Base filePath in
          let uploadURL := upload_url fileName destDir fileSize in
          match numParts fileSize partSize with
          | None => panic "integer divide by zero"
          | Some numParts =>
              received <-
                upload_parts f filePath fileName uploadURL partSize numWorkers
                  fileSize numParts ;;
              finish_upload fileName destDir mimeType uploadURL
                fileSize numParts err received
          end
      end
  end.

Definition createRemoteDir (path : string) : M (option error) :=
  let opts := rest.mkOpts "POST" "/api/files/makedir" [] rest.NoBody None "" in
  let path :=
    match path with
    | String "/" _ => path
    | _ => "/" ++ path
    end in
  let mkdir := CreateDirRequest.mk path in
  '(_, err, _) <- CallJSON opts (Some (rest.JsonCreateDir mkdir)) None tt ;;
  match err with
  | Some e => ret (Some e)
  | None => ret None
  end.

(** [for _, entry := range entries { if err := body; err != nil { return err } }
    return nil] *)
Fixpoint until_error {A} (body : A -> M (option error)) (l : list A)
  : M (option error) :=
  match l with
  | [] => ret None
  | x :: l' =>
      err <- body x ;;
      match err with
      | Some e => ret (Some e)
      | None => until_error body l'
      end
  end.

(** [uploadFilesInDirectory], with the function called for each entry as
    a parameter. *)
Definition walk_directory
    (on_entry : string -> string -> node -> M (option error))
    (sourcePath destDir : string)
    (read_err : option error) (entries : list node) : M (option error) :=
  match read_err with
  | Some e => ret (Some e)
  | None => until_error (on_entry sourcePath destDir) entries
  end.

(** The body of the loop over the entries of a directory; its result is
    the error the loop returns with, if any. *)
Fixpoint upload_entry (partSize numWorkers : Z)
    (sourcePath destDir : string) (entry : node) {struct entry}
  : M (option error) :=
  match entry with
  | Dir name read_err entries =>
      let fullPath := filepath_Join sourcePath name in
      let subDir := filepath_Join destDir name in
      err <- createRemoteDir subDir ;;
      match err with
      | Some e => ret (Some e)
      | None =>
          walk_directory (upload_entry partSize numWorkers) fullPath subDir
            read_err entries
      end
  | File name f =>
      let fullPath := filepath_Join sourcePath name in
      uploadFile fullPath destDir partSize numWorkers f
  end.

Definition uploadFilesInDirectory (sourcePath destDir : string)
    (partSize numWorkers : Z) (read_err : option error)
    (entries : list node) : M (option error) :=
  walk_directory (upload_entry partSize numWorkers) sourcePath destDir
    read_err entries.

End Program.

End Legacy.

(** ** A concrete environment *)

(** A small backend, used to run the model on concrete inputs.  Its world is
    a script of replies that are served first, one per request; once the
    script is used up every request is answered by [200 OK], a part upload
    with a part record that repeats the [partNo] it was sent under, a
    listing with a single page holding the file [b.txt].  The scheduler
    reverses every order it is asked about. *)
Module Fixture.

Definition param (key : string) (o : rest.Opts) : string :=
  match find (fun kv => String.eqb (fst kv) key) (rest.Parameters o) with
  | Some kv => snd kv
  | None => ""
  end.

Definition reply (code : Z) (o : rest.Opts) : rest.Response :=
  rest.mkResponse code "" "HTTP error"
    (Ok (UploadPartOut.mk "" (param "fileName" o)
           (100 + SizeParser.digits_value (param "partNo" o))
           (SizeParser.digits_value (param "partNo" o))
           (SizeParser.digits_value (param "totalparts" o)) 0 0))
    (Ok (ReadMetadataResponse.mk
           [FileInfo.mk "1" "b.txt" "text/plain" 3 "" "file" ""] "")).

Definition serve (w : list Z) (o : rest.Opts) : list Z * result rest.Response :=
  match w with
  | [] => ([], Ok (reply 200 o))
  | code :: w' =>
      (w', if code =? 0 then Err "connection refused" else Ok (reply code o))
  end.

Fixpoint has_slash (s : string) : bool :=
  match s with
  | EmptyString => false
  | String c r => Ascii.eqb c "/" || has_slash r
  end.

(** The text after the last slash. *)
Fixpoint base (s : string) : string :=
  match s with
  | EmptyString => EmptyString
  | String c r =>
      if has_slash r then base r
      else if Ascii.eqb c "/" then r else s
  end.

#[export] Instance platform : Platform :=
  {| World := list Z;
     Do := serve;
     ctx_Err := fun _ => None;
     fserrors_ShouldRetry := fun _ => false;
     LowLevelRetries := 10;
     md5_hex := fun input => input;
     filepath_Join := fun a b => a ++ "/" ++ b;
     filepath_Base := base;
     interleave := fun A _ l => rev l;
     interleave_perm := fun A _ l => Permutation_sym (Permutation_rev l) |}.

Definition start (script : list Z) : state := mkState script [].

(** A backend that answers every request with [503 Service Unavailable];
    its pacer allows three tries. *)
Definition busy : Platform :=
  {| World := unit;
     Do := fun w o => (w, Ok (reply 503 o));
     ctx_Err := fun _ => None;
     fserrors_ShouldRetry := fun _ => false;
     LowLevelRetries := 3;
     md5_hex := fun input => input;
     filepath_Join := fun a b => a ++ "/" ++ b;
     filepath_Base := base;
     interleave := fun A _ l => l;
     interleave_perm := fun A _ l => Permutation_refl l |}.

Definition uploader : Uploader.t := Uploader.mk 4 1000 7.

(** A readable regular file of the given size. *)
Definition file (size : Z) : LocalFile :=
  mkLocalFile None None "text/plain" size (fun _ => None) (fun _ => None).

(** The requests in a trace, oldest first. *)
Definition requests (s : state) : list rest.Opts :=
  rev (flat_map (fun e => match e with HttpCall o => [o] | _ => [] end)
         (trace s)).

Definition log_lines (s : state) : list string :=
  rev (flat_map (fun e => match e with LogLine _ l => [l] | _ => [] end)
         (trace s)).

End Fixture.

(** ** Vocabulary of the statements *)

(** The ceiling of [a / b], written with the floor. *)
Definition ceil_div (a b : Z) : Z := - ((- a) / b).

(** The finalize request: [POST /api/files]. *)
Definition is_finalize (e : event) : bool :=
  match e with
  | HttpCall o => String.eqb (rest.Method o) "POST" && String.eqb (rest.Path o) "/api/files"
  | LogLine _ _ => false
  end.


Definition is_http_call (e : event) : bool :=
  match e with HttpCall _ => true | LogLine _ _ => false end.

(** [emits Q c]: whatever the state [c] starts in, the events it adds to
    the trace all satisfy [Q]. *)
Definition emits {P : Platform} {A} (Q : event -> Prop) (c : M A) : Prop :=
  forall s s' r, c s = (s', r) ->
    exists new, trace s' = (new ++ trace s)%list /\ Forall Q new.


(** What the goroutine of task [t] may add to the trace: log lines, and
    the request of its part. *)
Definition part_event_of (u : Uploader.t)
    (filePath fileName uploadURL : string) (n : Z)
    (t : Z * (Z * Z)) (e : event) : Prop :=
  is_http_call e = false \/
  e = HttpCall (part_opts u filePath fileName uploadURL n
                  (fst t) (fst (snd t)) (snd (snd t))).

(** The backend repeats part numbers: whenever the goroutine of a
    dispatched part sends a part record, the record carries the number the
    part was uploaded under. *)
Definition echoes_partNo {P : Platform} (u : Uploader.t) (f : LocalFile)
    (filePath destDir : string) (n : Z) : Prop :=
  let fileName := filepath_Base filePath in
  forall t s s' part,
    In t (part_tasks (Uploader.partSize u) (f_size f) n) ->
    upload_part u f filePath fileName (upload_url fileName destDir (f_size f)) n t s
      = (s', Done (Some part)) ->
    UploadPartOut.PartNo part = fst t + 1.

(** The payload [uploadFile] finalizes with, given the parts received. *)
Definition payload_of {P : Platform} (filePath destDir : string) (f : LocalFile)
    (received : list UploadPartOut.t) : FilePayload.t :=
  FilePayload.mk (filepath_Base filePath) "file"
    (sort.Slice less_PartNo (map to_Part received)) (f_mime f) destDir (f_size f).

(** What [finish_upload] may add to the trace after receiving [received]:
    the finalize request with the sorted parts, and the removal of the
    session; both only when the count of parts received is [n]. *)
Definition finish_event {P : Platform} (filePath destDir : string)
    (f : LocalFile) (n : Z) (received : list UploadPartOut.t) (e : event) : Prop :=
  Z.of_nat (List.length received) = n /\
  (e = HttpCall (with_request finalize_opts
                   (Some (rest.JsonFilePayload (payload_of filePath destDir f received)))) \/
   e = HttpCall (delete_opts
                   (upload_url (filepath_Base filePath) destDir (f_size f)))).

(** The shape of a run of [uploadFile] from [s] that gets past the
    prologue with part count [n]: the concurrent phase ends in [s1] with
    outcome [o1] after adding [new1]; if it ended normally, the rest of the
    run adds [new2]. *)
Inductive upload_run {P : Platform} (u : Uploader.t) (filePath destDir : string)
    (f : LocalFile) (s : state) (new : list event) : Prop :=
| mk_upload_run (n : Z) (s1 : state) (o1 : outcome (list UploadPartOut.t))
    (new1 new2 : list event)
    (Hopen : f_open f = None)
    (Hread : f_read f = None)
    (HnumParts : numParts (f_size f) (Uploader.partSize u) = Some n)
    (Hparts :
      upload_parts u f filePath (filepath_Base filePath)
        (upload_url (filepath_Base filePath) destDir (f_size f)) (f_size f) n s
      = (s1, o1))
    (Htrace1 : trace s1 = (new1 ++ trace s)%list)
    (Hevents1 :
      Forall (fun e => exists t,
                  In t (part_tasks (Uploader.partSize u) (f_size f) n) /\
                  part_event_of u filePath (filepath_Base filePath)
                    (upload_url (filepath_Base filePath) destDir (f_size f))
                    n t e) new1)
    (Hnew : new = (new2 ++ new1)%list)
    (Hevents2 :
      match o1 with
      | Done received => Forall (finish_event filePath destDir f n received) new2
      | _ => new2 = []
      end).

(** The state after a logger has written [line]. *)
Definition logged {P : Platform} (logger line : string) (s : state) : state :=
  mkState (world s) (LogLine logger line :: trace s).

(** [serves_pages path token s pages s']: asked for the listing of [path]
    from [token] on, starting in state [s], the backend answers page after
    page, each but the last with a token for the next, and leaves the state
    [s']. *)
Inductive serves_pages {P : Platform} (path : string)
  : string -> state -> list (list FileInfo.t) -> state -> Prop :=
| last_page token s s' info :
    readMetaDataForPath path (MetadataRequestOptions.mk 500 "" "" token) s
      = (s', Done (Some info, None)) ->
    ReadMetadataResponse.NextPageToken info = "" ->
    serves_pages path token s [ReadMetadataResponse.Files info] s'
| next_page token s s1 s' info pages :
    readMetaDataForPath path (MetadataRequestOptions.mk 500 "" "" token) s
      = (s1, Done (Some info, None)) ->
    ReadMetadataResponse.NextPageToken info <> "" ->
    serves_pages path (ReadMetadataResponse.NextPageToken info) s1 pages s' ->
    serves_pages path token s (ReadMetadataResponse.Files info :: pages) s'.

(** [denotes x N]: the [float64] value [x] is finite and equal to the
    integer [N]. *)
Definition denotes (x : Float64.t) (N : Z) : Prop :=
  match x with
  | Float64.Fin m e => (0 <= e /\ m * 2 ^ e = N) \/ (e < 0 /\ m = N * 2 ^ (- e))
  | Float64.Inf => False
  end.

(** *** Size strings *)

(** A non-empty string of decimal digits. *)
Definition digits (s : string) : Prop :=
  s <> "" /\ SizeParser.all_bytes SizeParser.is_digit s = true.

(** A possibly empty string of white space. *)
Definition spaces (s : string) : Prop :=
  SizeParser.all_bytes SizeParser.is_space s = true.

Inductive size_unit : Type := KB | MB | GB.

Definition unit_name (k : size_unit) : string :=
  match k with KB => "kb" | MB => "mb" | GB => "gb" end.

(** [u] spells the unit [k] in some mix of upper and lower case. *)
Definition spells (u : string) (k : size_unit) : Prop :=
  SizeParser.ToLower u = unit_name k.

Definition multiplier (k : size_unit) : Z :=
  match k with
  | KB => 1024
  | MB => 1024 * 1024
  | GB => 1000 * 1024 * 1024
  end.

(** The same multiplications carried out in [float64], one constant at a
    time and from left to right, as Go evaluates the product. *)
Definition float_scale (k : size_unit) (size : Float64.t) : Float64.t :=
  let c := Float64.of_const in
  match k with
  | KB => Float64.mul size (c 1024)
  | MB => Float64.mul (Float64.mul size (c 1024)) (c 1024)
  | GB => Float64.mul (Float64.mul (Float64.mul size (c 1000)) (c 1024)) (c 1024)
  end.

(** The decimal with integer digits [ip] and, if any, fraction digits [fp]. *)
Definition decimal (ip : string) (fp : option string) : string :=
  match fp with
  | None => ip
  | Some f => ip ++ "." ++ f
  end.

Definition fraction_digits (fp : option string) : string :=
  match fp with None => "" | Some f => f end.

Definition valid_decimal (ip : string) (fp : option string) : Prop :=
  digits ip /\ match fp with None => True | Some f => digits f end.

(** [stops p s]: [s] does not begin with a byte satisfying [p]. *)
Definition stops (p : ascii -> bool) (s : string) : Prop :=
  match s with
  | EmptyString => True
  | String c _ => p c = false
  end.

(** *** Part ranges *)

(** The number of bytes of a task of the dispatch loop. *)
Definition task_length (t : Z * (Z * Z)) : Z := snd (snd t) - fst (snd t).

Definition total_length (tasks : list (Z * (Z * Z))) : Z :=
  fold_right (fun t acc => task_length t + acc) 0 tasks.

(** *** Requests in a trace *)

(** The requests among some events, in the order of the events. *)
Definition http_requests (l : list event) : list rest.Opts :=
  flat_map (fun e => match e with HttpCall o => [o] | LogLine _ _ => [] end) l.

(** The request that removes the upload session: [DELETE]. *)
Definition is_delete (e : event) : bool :=
  match e with
  | HttpCall o => String.eqb (rest.Method o) "DELETE"
  | LogLine _ _ => false
  end.

(** What [Call] hands to the HTTP client for [opts]: the body is left out
    when the content length is given as zero. *)
Definition on_the_wire (opts : rest.Opts) : rest.Opts :=
  rest.mkOpts (rest.Method opts) (rest.Path opts) (rest.Parameters opts)
    (match rest.ContentLength opts with
     | Some 0 => rest.NoBody
     | _ => rest.Body opts
     end)
    (rest.ContentLength opts) (rest.ContentType opts).


(** *** The walker's requests *)

(** The request [createRemoteDir] makes for the directory [p]. *)
Definition makedir_request (p : string) : rest.Opts :=
  rest.mkOpts "POST" "/api/files/makedir" []
    (rest.JsonCreateDir (CreateDirRequest.mk p)) None "application/json".

(** The request of [list] for the page of [path] that starts at [token]. *)
Definition page_request (path token : string) : rest.Opts :=
  rest.mkOpts "GET" "/api/files"
    [ ("path", path); ("perPage", "500"); ("sort", "name"); ("order", "asc");
      ("op", "list"); ("nextPageToken", token) ]
    rest.NoBody None "".

Definition nil_dereference : string :=
  "invalid memory address or nil pointer dereference".

(** The error [Call] returns with a response whose status is outside
    200..299. *)
Definition status_error (resp : rest.Response) : error :=
  if String.eqb (rest.ErrorText resp) ""
  then "http error " ++ Go.FormatInt (rest.StatusCode resp) ++ ": " ++ rest.Status resp
  else rest.ErrorText resp.

(** What [readMetaDataForPath] does after a last round trip that gave [r],
    when [ctx.Err()] is [ctxErr] after it. *)
Definition listing_outcome (ctxErr : option error) (r : result rest.Response)
  : outcome (option ReadMetadataResponse.t * option error) :=
  match r with
  | Err _ => Panic nil_dereference
  | Ok resp =>
      if (rest.StatusCode resp <? 200) || (299 <? rest.StatusCode resp)
      then if rest.StatusCode resp =? 404
           then Done (None, Some fs_ErrorDirNotFound)
           else Done (None, Some (status_error resp))
      else match rest.as_listing resp, ctxErr with
           | Ok info, None => Done (Some info, None)
           | Ok _, Some ce => Done (None, Some ce)
           | Err e, _ => Done (None, Some e)
           end
  end.

(** The requests of a walk: creating a directory, listing one, uploading a
    part to an upload session, finalizing a file, removing an upload
    session. *)
Definition walk_request (o : rest.Opts) : Prop :=
  (rest.Method o = "POST" /\ rest.Path o = "/api/files/makedir") \/
  (rest.Method o = "GET" /\ rest.Path o = "/api/files") \/
  (rest.Method o = "POST" /\ rest.Path o = "/api/files") \/
  (exists session, rest.Path o = "/api/uploads/" ++ session /\
                   (rest.Method o = "POST" \/ rest.Method o = "DELETE")).

Definition walk_event (e : event) : Prop :=
  match e with
  | HttpCall o => walk_request o
  | LogLine _ _ => True
  end.


(** The requests of a walk of the earlier revision: those of a walk but
    for the listing. *)
Definition legacy_walk_request (o : rest.Opts) : Prop :=
  (rest.Method o = "POST" /\ rest.Path o = "/api/files/makedir") \/
  (rest.Method o = "POST" /\ rest.Path o = "/api/files") \/
  (exists session, rest.Path o = "/api/uploads/" ++ session /\
                   (rest.Method o = "POST" \/ rest.Method o = "DELETE")).

Definition legacy_walk_event (e : event) : Prop :=
  match e with
  | HttpCall o => legacy_walk_request o
  | LogLine _ _ => True
  end.

(** A decimal integer as [strconv.Atoi] reads it: digits behind an optional
    sign. *)
Definition numeral (s : string) : Prop :=
  exists ds, digits ds /\ (s = ds \/ s = "+" ++ ds \/ s = "-" ++ ds).

(** What [CallJSON] returns, without a value to decode into, after a round
    trip that gave [r]. *)
Definition answer_of (r : result rest.Response)
  : option rest.Response * option error :=
  match r with
  | Err e => (None, Some e)
  | Ok resp =>
      (Some resp,
       if (rest.StatusCode resp <? 200) || (299 <? rest.StatusCode resp)
       then Some (status_error resp) else None)
  end.


(* ================================================================== *)
(** * Part II: theorems                                                *)
(* ================================================================== *)

Lemma wrap64_id (z : Z) : Go.in_int64 z -> Go.wrap64 z = z.
Proof.
  unfold Go.in_int64, Go.wrap64. intros H.
  rewrite Z.mod_small by lia. lia.
Qed.

(** ** C1: the part count *)

Lemma numParts_spec (fileSize partSize : Z) :
  0 <= fileSize < 2 ^ 63 -> 0 < partSize ->
  exists n, numParts fileSize partSize = Some n /\
            0 <= n /\ (n - 1) * partSize < fileSize <= n * partSize.
Proof.
  intros Hf Hp. unfold numParts.
  destruct (Z.eqb_spec partSize 0) as [->|_]; [lia|].
  unfold Go.quo64, Go.rem64, Go.add64.
  rewrite Z.quot_div_nonneg, Z.rem_mod_nonneg by lia.
  pose proof (Z.div_mod fileSize partSize ltac:(lia)) as Hdm.
  pose proof (Z.mod_pos_bound fileSize partSize Hp) as Hm.
  assert (Hq : 0 <= fileSize / partSize) by (apply Z.div_pos; lia).
  assert (Hq' : fileSize / partSize <= fileSize).
  { apply Z.div_le_upper_bound; nia. }
  rewrite (wrap64_id (fileSize / partSize)) by (unfold Go.in_int64; lia).
  destruct (Z.eqb_spec (fileSize mod partSize) 0) as [E|E]; cbn [negb].
  - eexists; split; [reflexivity|]. nia.
  - assert (fileSize / partSize + 1 < 2 ^ 63) by nia.
    rewrite wrap64_id by (unfold Go.in_int64; lia).
    eexists; split; [reflexivity|]. nia.
Qed.

Lemma ceil_div_unique (a b n : Z) :
  0 < b -> (n - 1) * b < a <= n * b -> n = ceil_div a b.
Proof.
  intros Hb H. unfold ceil_div.
  assert (E : (- a) / b = - n); [|lia].
  symmetry. apply Z.div_unique with (r := n * b - a); lia.
Qed.

(** C1 (as amended): for every file size [0 <= fileSize] that an [int64]
    holds and every [partSize > 0], the part count [uploadFile] computes is
    the ceiling of [fileSize / partSize]; it is [0] exactly when
    [fileSize = 0], so a file of size zero gets no part at all. *)
Theorem C1_numParts_is_ceiling (fileSize partSize : Z) :
  0 <= fileSize < 2 ^ 63 -> 0 < partSize ->
  numParts fileSize partSize = Some (ceil_div fileSize partSize) /\
  (ceil_div fileSize partSize = 0 <-> fileSize = 0).
Proof.
  intros Hf Hp.
  destruct (numParts_spec fileSize partSize Hf Hp) as (n & E & Hn & Hb).
  rewrite <- (ceil_div_unique fileSize partSize n Hp Hb).
  split; [exact E|]. nia.
Qed.

Lemma C1_numParts_is_ceiling_witness :
  (0 <= 2500 < 2 ^ 63 /\ 0 < 1000) /\
  numParts 2500 1000 = Some 3 /\ (ceil_div 2500 1000 = 0 <-> 2500 = 0).
Proof. split; [lia|]. apply (C1_numParts_is_ceiling 2500 1000); lia. Defined.

(** C1 (as stated) fails: for [fileSize = 0] the part count is [0], not
    [1]; and a readable file whose size is reported as zero is finalized
    with an empty list of parts, without any part request. *)
Lemma C1_zero_size_has_no_part :
  numParts 0 1000 = Some 0 /\ numParts 0 1000 <> Some 1 /\
  let run := uploadFile Fixture.uploader "a.bin" "/dst" (Fixture.file 0)
               (Fixture.start []) in
  snd run = Done None /\
  map rest.Body (Fixture.requests (fst run)) =
    [rest.JsonFilePayload (FilePayload.mk "a.bin" "file" [] "text/plain" "/dst" 0);
     rest.NoBody].
Proof.
  split; [reflexivity|]. split; [discriminate|]. vm_compute. split; reflexivity.
Qed.

(** ** C6: the retry classifier *)

Lemma retry_codes (code : Z) :
  existsb (Z.eqb code) retryErrorCodes = true <->
  In code [429; 500; 502; 503; 504; 509].
Proof.
  unfold retryErrorCodes. rewrite existsb_exists. split.
  - intros (x & Hin & E). apply Z.eqb_eq in E. now subst.
  - intros Hin. exists code. split; [exact Hin|apply Z.eqb_refl].
Qed.

(** C6 (as amended): with a done context [shouldRetry] never asks for a
    retry, whatever the response and the error; the error it returns is
    the error passed if there is one, and the context error only when the
    error passed is nil.  With a context that is not done it passes the
    error through and asks for a retry exactly when the error is one the
    library classifies as transient or the response, if any, has status
    429, 500, 502, 503, 504 or 509. *)
Theorem C6_shouldRetry_classification {P : Platform}
    (resp : option rest.Response) (err : option error) :
  (forall ctxErr : error,
      shouldRetry (Some ctxErr) resp err =
        (false, Some (match err with Some e => e | None => ctxErr end))) /\
  snd (shouldRetry None resp err) = err /\
  (fst (shouldRetry None resp err) = true <->
     (exists e, err = Some e /\ fserrors_ShouldRetry e = true) \/
     (exists r, resp = Some r /\
                In (rest.StatusCode r) [429; 500; 502; 503; 504; 509])).
Proof.
  split; [|split].
  - intros ctxErr. unfold shouldRetry; cbn. now destruct err.
  - reflexivity.
  - unfold shouldRetry; cbn. rewrite orb_true_iff. split.
    + intros [H|H].
      * left. destruct err as [e|]; [|discriminate]. now exists e.
      * right. destruct resp as [r|]; [|discriminate].
        exists r. split; [reflexivity|]. now apply retry_codes.
    + intros [(e & -> & H)|(r & -> & H)].
      * now left.
      * right. now apply retry_codes.
Qed.

(** C6 (as stated) fails: with a done context and a non-nil error the
    classifier hands back the error it was given, not the context error. *)
Lemma C6_done_context_keeps_the_error_passed :
  shouldRetry (P := Fixture.platform) (Some "context canceled") None
    (Some "connection reset by peer")
  = (false, Some "connection reset by peer") /\
  shouldRetry (P := Fixture.platform) (Some "context canceled") None
    (Some "connection reset by peer")
  <> (false, Some "context canceled").
Proof. split; [reflexivity|discriminate]. Qed.

(** ** C10: a failed first read *)

(** C10: when the file opens but the first read fails (a file of length
    zero answers end of file), [uploadFile] writes one line to the error
    log and returns nil; the world is untouched and no request of any kind
    is made. *)
Theorem C10_read_failure_returns_nil {P : Platform} (u : Uploader.t)
    (filePath destDir : string) (f : LocalFile) (e : error) (s : state) :
  f_open f = None -> f_read f = Some e ->
  uploadFile u filePath destDir f s =
    (mkState (world s) (LogLine "ERROR" ("Error reading file: " ++ e) :: trace s),
     Done None).
Proof.
  intros Ho Hr. unfold uploadFile. rewrite Ho, Hr. reflexivity.
Qed.

Lemma C10_read_failure_returns_nil_witness :
  let f := mkLocalFile None (Some "EOF") "" 0 (fun _ => None) (fun _ => None) in
  (f_open f = None /\ f_read f = Some "EOF") /\
  uploadFile Fixture.uploader "empty.txt" "/dst" f (Fixture.start []) =
    (mkState (P := Fixture.platform) []
       [LogLine "ERROR" "Error reading file: EOF"], Done None).
Proof.
  split; [split; reflexivity|].
  apply (C10_read_failure_returns_nil (P := Fixture.platform)); reflexivity.
Defined.

(** ** Events of a computation *)

Section Events.

Context {P : Platform}.

Lemma emits_weaken {A} (Q Q' : event -> Prop) (c : M A) :
  (forall e, Q e -> Q' e) -> emits Q c -> emits Q' c.
Proof.
  intros HQ Hc s s' r E. destruct (Hc s s' r E) as (new & Ht & Hn).
  exists new. split; [exact Ht|]. eapply Forall_impl; eauto.
Qed.

Lemma emits_silent {A} (Q : event -> Prop) (c : M A) :
  (forall s, trace (fst (c s)) = trace s) -> emits Q c.
Proof.
  intros H s s' r E. exists []. split; [|constructor].
  specialize (H s). now rewrite E in H.
Qed.

Lemma emits_ret {A} Q (a : A) : emits Q (ret a).
Proof. now apply emits_silent. Qed.

Lemma emits_panic {A} Q msg : emits Q (panic (A := A) msg).
Proof. now apply emits_silent. Qed.

Lemma emits_os_Exit {A} Q code : emits Q (os_Exit (A := A) code).
Proof. now apply emits_silent. Qed.

Lemma emits_hang {A} Q : emits Q (hang (A := A)).
Proof. now apply emits_silent. Qed.

Lemma emits_ctx_err Q : emits Q ctx_err.
Proof. now apply emits_silent. Qed.

Lemma emits_scheduled {A} Q (l : list A) : emits Q (scheduled l).
Proof. now apply emits_silent. Qed.

Lemma emits_http_Do Q o : emits Q (http_Do o).
Proof.
  apply emits_silent. intros s. unfold http_Do. now destruct (Do (world s) o).
Qed.

Lemma emits_emit (Q : event -> Prop) e : Q e -> emits Q (emit e).
Proof.
  intros He s s' r E. unfold emit in E. inversion E; subst; clear E.
  exists [e]. split; [reflexivity|]. now constructor.
Qed.

Lemma emits_bind {A B} Q (c : M A) (k : A -> M B) :
  emits Q c -> (forall a, emits Q (k a)) -> emits Q (bind c k).
Proof.
  intros Hc Hk s s' r E. unfold bind in E.
  destruct (c s) as [s1 o] eqn:Ec.
  destruct (Hc s s1 o Ec) as (new1 & Ht1 & Hn1).
  destruct o as [a| | |].
  - destruct (Hk a s1 s' r E) as (new2 & Ht2 & Hn2).
    exists (new2 ++ new1)%list. split.
    + now rewrite Ht2, Ht1, app_assoc.
    + apply Forall_app. now split.
  - inversion E; subst. now exists new1.
  - inversion E; subst. now exists new1.
  - inversion E; subst. now exists new1.
Qed.

End Events.

(** Splits a goal [emits Q c] along the structure of [c]. *)
Ltac emits_step :=
  lazymatch goal with
  | |- emits _ (bind _ _) => apply emits_bind; [|intros ?]
  | |- emits _ (ret _) => apply emits_ret
  | |- emits _ (panic _) => apply emits_panic
  | |- emits _ (os_Exit _) => apply emits_os_Exit
  | |- emits _ hang => apply emits_hang
  | |- emits _ ctx_err => apply emits_ctx_err
  | |- emits _ (scheduled _) => apply emits_scheduled
  | |- emits _ (http_Do _) => apply emits_http_Do
  | |- emits _ (let '(_, _) := ?x in _) => destruct x
  | |- emits _ (match ?x with _ => _ end) => destruct x
  | |- emits _ (if ?x then _ else _) => destruct x
  end.

Section EventsOfTheProgram.

Context {P : Platform}.

Lemma emits_Call (opts : rest.Opts) :
  emits (eq (HttpCall opts)) (Call opts).
Proof.
  unfold Call. apply emits_bind; [now apply emits_emit|intros _].
  repeat emits_step.
Qed.

Lemma emits_CallJSON {T} opts request decode (target : T) :
  emits (eq (HttpCall (with_request opts request)))
        (CallJSON opts request decode target).
Proof.
  unfold CallJSON. apply emits_bind; [apply emits_Call|intros [resp err]].
  repeat emits_step.
Qed.

Lemma emits_pacer_loop {V} Q (fn : V -> M (V * (bool * option error))) :
  (forall v, emits Q (fn v)) ->
  forall tries v err, emits Q (pacer_loop tries fn v err).
Proof.
  intros Hfn tries. induction tries as [|tries IH]; intros v err; cbn.
  - apply emits_ret.
  - apply emits_bind; [apply Hfn|intros [v' [retry err']]].
    destruct retry; [apply IH|apply emits_ret].
Qed.

Lemma emits_paced_call opts request :
  emits (eq (HttpCall (with_request opts request))) (paced_call opts request).
Proof.
  unfold paced_call, pacer_Call.
  apply emits_bind; [|intros [_ err]; apply emits_ret].
  apply emits_pacer_loop. intros [].
  apply emits_bind; [apply emits_CallJSON|intros [[resp err] _]].
  repeat emits_step.
Qed.

End EventsOfTheProgram.

(** ** Events of [uploadFile] *)



Lemma in_part_tasks (partSize fileSize n : Z) (t : Z * (Z * Z)) :
  In t (part_tasks partSize fileSize n) ->
  0 <= fst t < n /\ snd t = part_range partSize fileSize (fst t).
Proof.
  unfold part_tasks. rewrite in_map_iff. intros (k & <- & Hk).
  apply in_seq in Hk. cbn. split; [lia|reflexivity].
Qed.

Section EventsOfUploadFile.

Context {P : Platform}.

Variables (u : Uploader.t) (f : LocalFile).
Variables (filePath fileName uploadURL : string) (n : Z).

Local Abbreviation part_event := (part_event_of u filePath fileName uploadURL n).

Lemma emits_log Q (operands : list string) :
  (forall lg l, Q (LogLine lg l)) -> emits Q (Error_Println operands).
Proof. intros H. apply emits_emit, H. Qed.

Lemma emits_upload_part (t : Z * (Z * Z)) :
  emits (part_event t) (upload_part u f filePath fileName uploadURL n t).
Proof.
  destruct t as [i [start end_]]. unfold upload_part.
  assert (Hlog : forall ops, emits (part_event (i, (start, end_))) (Error_Println ops)).
  { intros ops. apply emits_log. intros; now left. }
  destruct (f_part_open f i); [apply emits_bind; [apply Hlog|intros; apply emits_ret]|].
  destruct (f_part_seek f i); [apply emits_bind; [apply Hlog|intros; apply emits_ret]|].
  apply emits_bind.
  - eapply emits_weaken; [|apply emits_CallJSON].
    intros e <-. now right.
  - intros [[resp err] part].
    destruct err; [apply emits_bind; [apply Hlog|intros; apply emits_ret]|].
    repeat emits_step.
Qed.

Lemma emits_run_parts (tasks : list (Z * (Z * Z))) :
  emits (fun e => exists t, In t tasks /\ part_event t e)
        (run_parts (upload_part u f filePath fileName uploadURL n) tasks).
Proof.
  induction tasks as [|t tasks IH]; cbn [run_parts].
  - apply emits_ret.
  - apply emits_bind.
    + eapply emits_weaken; [|apply emits_upload_part].
      intros e He. exists t. split; [now left|exact He].
    + intros r. apply emits_bind; [|intros; apply emits_ret].
      eapply emits_weaken; [|apply IH].
      intros e (t' & Hin & He). exists t'. split; [now right|exact He].
Qed.

Lemma emits_upload_parts (fileSize : Z) :
  emits (fun e => exists t, In t (part_tasks (Uploader.partSize u) fileSize n) /\
                            part_event t e)
        (upload_parts u f filePath fileName uploadURL fileSize n).
Proof.
  unfold upload_parts.
  destruct (n <? 0); [apply emits_panic|].
  destruct (Uploader.numWorkers u <? 0); [apply emits_panic|].
  destruct (_ && _); [apply emits_panic|].
  intros s s' r E. unfold bind at 1 in E. cbn [scheduled] in E.
  set (order := interleave _ (world s) _) in E.
  assert (Hemits := emits_bind
    (fun e => exists t, In t order /\ part_event t e)
    (run_parts (upload_part u f filePath fileName uploadURL n) order)
    (fun sent => scheduled sent)
    (emits_run_parts order) (fun sent => emits_scheduled _ sent)).
  destruct (Hemits s s' r E) as (new & Ht & Hn).
  exists new. split; [exact Ht|].
  eapply Forall_impl; [|exact Hn].
  intros e (t & Hin & He). exists t. split; [|exact He].
  eapply Permutation_in; [apply interleave_perm|exact Hin].
Qed.

End EventsOfUploadFile.

(** ** Sorting *)

Lemma insert_perm {A} (less : A -> A -> bool) (x : A) (l : list A) :
  Permutation (sort.insert less x l) (x :: l).
Proof.
  induction l as [|y l IH]; cbn; [reflexivity|].
  destruct (less y x); [|reflexivity].
  rewrite IH. apply perm_swap.
Qed.

Lemma Slice_perm {A} (less : A -> A -> bool) (l : list A) :
  Permutation (sort.Slice less l) l.
Proof.
  induction l as [|x l IH]; cbn; [reflexivity|].
  unfold sort.Slice in IH. rewrite insert_perm. now constructor.
Qed.

Lemma insert_sorted (x : Part.t) (l : list Part.t) :
  Sorted Z.le (map Part.PartNo l) ->
  Sorted Z.le (map Part.PartNo (sort.insert less_PartNo x l)).
Proof.
  induction l as [|y l IH]; cbn; intros Hs.
  - repeat constructor.
  - unfold less_PartNo at 1.
    destruct (Z.ltb_spec (Part.PartNo y) (Part.PartNo x)) as [Hlt|Hge]; cbn.
    + inversion Hs as [|? ? Hs' Hhd]; subst. constructor; [now apply IH|].
      destruct l as [|z l]; cbn.
      * constructor. lia.
      * unfold less_PartNo at 1.
        destruct (Z.ltb_spec (Part.PartNo z) (Part.PartNo x)); cbn;
          constructor; [now inversion Hhd|lia].
    + constructor; [exact Hs|]. now constructor.
Qed.

Lemma Slice_sorted (l : list Part.t) :
  Sorted Z.le (map Part.PartNo (sort.Slice less_PartNo l)).
Proof.
  induction l as [|x l IH]; cbn; [constructor|].
  now apply insert_sorted.
Qed.

Lemma sorted_perm_unique (l1 l2 : list Z) :
  Sorted Z.le l1 -> Sorted Z.le l2 -> Permutation l1 l2 -> l1 = l2.
Proof.
  intros H1 H2.
  apply Sorted_StronglySorted in H1; [|intros a b c; apply Z.le_trans].
  apply Sorted_StronglySorted in H2; [|intros a b c; apply Z.le_trans].
  revert l2 H2. induction H1 as [|a l1 Hs1 IH Ha]; intros l2 H2 Hp.
  - apply Permutation_nil in Hp. now subst.
  - destruct H2 as [|b l2 Hs2 Hb].
    + apply Permutation_sym, Permutation_nil in Hp. discriminate.
    + assert (a = b).
      { assert (Hain : In a (b :: l2)).
        { eapply Permutation_in; [exact Hp|now left]. }
        assert (Hbin : In b (a :: l1)).
        { eapply Permutation_in; [apply Permutation_sym; exact Hp|now left]. }
        rewrite Forall_forall in Ha, Hb.
        destruct Hain as [->|Hain]; [reflexivity|].
        destruct Hbin as [->|Hbin]; [reflexivity|].
        specialize (Ha b Hbin). specialize (Hb a Hain). lia. }
      subst b. f_equal. apply IH; [exact Hs2|].
      eapply Permutation_cons_inv; exact Hp.
Qed.

Lemma seq_sorted (start len : nat) :
  Sorted Z.le (map Z.of_nat (seq start len)).
Proof.
  revert start. induction len as [|len IH]; intros start; cbn; [constructor|].
  constructor; [apply IH|].
  destruct len; cbn; constructor. lia.
Qed.

Lemma seq_succ_of_nat (start len : nat) :
  map (fun k => Z.of_nat k + 1) (seq start len) = map Z.of_nat (seq (S start) len).
Proof.
  rewrite <- seq_shift, map_map. apply map_ext. intros k. lia.
Qed.

(** ** The phases of [uploadFile] *)

Section Phases.

Context {P : Platform}.

Variables (u : Uploader.t) (filePath destDir : string) (f : LocalFile).

Let fileName := filepath_Base filePath.
Let uploadURL := upload_url fileName destDir (f_size f).

Lemma uploadFile_phases (n : Z) :
  f_open f = None -> f_read f = None ->
  numParts (f_size f) (Uploader.partSize u) = Some n ->
  uploadFile u filePath destDir f =
    bind (upload_parts u f filePath fileName uploadURL (f_size f) n)
         (finish_upload fileName destDir (f_mime f) uploadURL (f_size f) n None).
Proof.
  intros Ho Hr Hn. unfold uploadFile. now rewrite Ho, Hr, Hn.
Qed.

Lemma finish_upload_incomplete (n : Z) (received : list UploadPartOut.t) (s : state) :
  Z.of_nat (List.length received) <> n ->
  finish_upload fileName destDir (f_mime f) uploadURL (f_size f) n None received s
  = (s, Done (Some ("upload failed: " ++ fileName))).
Proof.
  intros Hne. unfold finish_upload. rewrite length_map.
  destruct (Z.eqb_spec (Z.of_nat (List.length received)) n); [contradiction|].
  reflexivity.
Qed.

(** The requests after a complete collection: finalize with the sorted
    parts, then the removal of the session. *)
Lemma emits_finish_upload (n : Z) (received : list UploadPartOut.t) :
  emits (finish_event filePath destDir f n received)
        (finish_upload fileName destDir (f_mime f) uploadURL (f_size f) n None
           received).
Proof.
  unfold finish_upload. rewrite length_map.
  destruct (Z.eqb_spec (Z.of_nat (List.length received)) n) as [E|E]; cbn [negb].
  2: apply emits_ret.
  apply emits_bind.
  - eapply emits_weaken; [|apply emits_paced_call].
    intros e <-. split; [exact E|now left].
  - intros [e|]; [apply emits_ret|].
    apply emits_bind; [|intros; repeat emits_step].
    eapply emits_weaken; [|apply emits_paced_call].
    intros e <-. split; [exact E|now right].
Qed.

(** No part request and no log line is a finalize request. *)
Lemma part_event_not_finalize (n : Z) (t : Z * (Z * Z)) (e : event) :
  part_event_of u filePath fileName uploadURL n t e -> is_finalize e = false.
Proof.
  intros [H| ->].
  - destruct e; [discriminate|reflexivity].
  - cbn. unfold uploadURL, upload_url. cbn. reflexivity.
Qed.

(** The prologue of [uploadFile] adds no request. *)
Lemma uploadFile_early (s : state) :
  (f_open f <> None \/ f_read f <> None \/
   numParts (f_size f) (Uploader.partSize u) = None) ->
  exists new, trace (fst (uploadFile u filePath destDir f s)) = (new ++ trace s)%list /\
              Forall (fun e => is_http_call e = false) new.
Proof.
  intros H. unfold uploadFile.
  destruct (f_open f) as [e|]; [now exists []|].
  destruct (f_read f) as [e|].
  { exists [LogLine "ERROR" (String.concat " " ["Error reading file:"; e])].
    split; [reflexivity|]. now repeat constructor. }
  destruct (numParts (f_size f) (Uploader.partSize u)); [|now exists []].
  now destruct H as [H|[H|H]].
Qed.

(** Every run of [uploadFile] either stops in the prologue, without any
    request, or has the shape [upload_run]. *)
Lemma uploadFile_run (s : state) :
  exists new,
    trace (fst (uploadFile u filePath destDir f s)) = (new ++ trace s)%list /\
    (Forall (fun e => is_http_call e = false) new \/
     upload_run u filePath destDir f s new).
Proof.
  destruct (f_open f) as [e|] eqn:Ho.
  { destruct (uploadFile_early s) as (new & Ht & Hn).
    - left. now rewrite Ho.
    - exists new. split; [exact Ht|now left]. }
  destruct (f_read f) as [e|] eqn:Hr.
  { destruct (uploadFile_early s) as (new & Ht & Hn).
    - right; left. now rewrite Hr.
    - exists new. split; [exact Ht|now left]. }
  destruct (numParts (f_size f) (Uploader.partSize u)) as [n|] eqn:Hn.
  2:{ destruct (uploadFile_early s) as (new & Ht & Hnew).
      - now right; right.
      - exists new. split; [exact Ht|now left]. }
  rewrite (uploadFile_phases n Ho Hr Hn). unfold bind.
  destruct (upload_parts u f filePath fileName uploadURL (f_size f) n s)
    as [s1 o1] eqn:E1.
  destruct (emits_upload_parts u f filePath fileName uploadURL n (f_size f) s s1 o1 E1)
    as (new1 & Ht1 & Hn1).
  destruct o1 as [received| | |].
  - destruct (finish_upload fileName destDir (f_mime f) uploadURL (f_size f) n None
                received s1) as [s2 r] eqn:E2.
    destruct (emits_finish_upload n received s1 s2 r E2) as (new2 & Ht2 & Hn2).
    exists (new2 ++ new1)%list. cbn [fst]. split.
    + now rewrite Ht2, Ht1, app_assoc.
    + right. now apply (mk_upload_run u filePath destDir f s _ n s1
                          (Done received) new1 new2).
  - exists new1. split; [exact Ht1|]. right.
    now apply (mk_upload_run u filePath destDir f s _ n s1 (Panic msg) new1 []).
  - exists new1. split; [exact Ht1|]. right.
    now apply (mk_upload_run u filePath destDir f s _ n s1 (Exit code) new1 []).
  - exists new1. split; [exact Ht1|]. right.
    now apply (mk_upload_run u filePath destDir f s _ n s1 Hang new1 []).
Qed.

End Phases.

(** ** C9: the parameters of a part request *)



Example part_names_of_three_parts :
  map (Fixture.param "fileName")
    (Fixture.requests
       (fst (upload_parts Fixture.uploader (Fixture.file 2500) "a.bin" "a.bin"
               "/api/uploads/x" 2500 3 (Fixture.start []))))
  = ["a.bin.part.003"; "a.bin.part.002"; "a.bin.part.001"].
Proof. reflexivity. Qed.

Example part_name_of_a_single_part :
  map (fun o => (Fixture.param "fileName" o, Fixture.param "partNo" o,
                 Fixture.param "totalparts" o))
    (Fixture.requests
       (fst (upload_parts Fixture.uploader (Fixture.file 700) "a.bin" "a.bin"
               "/api/uploads/x" 700 1 (Fixture.start []))))
  = [("a.bin", "1", "1")].
Proof. reflexivity. Qed.

(** ** C2: no finalize without all the parts *)

(** C2: take any run of [uploadFile].  If it reaches the collection of the
    part records and their count differs from [numParts], the run ends
    there: it returns the error [upload failed: <name>] and the events it
    added hold no finalize request.  Conversely, if the events added by a
    run hold a finalize request, then the run collected exactly [numParts]
    part records. *)
Theorem C2_finalize_only_when_complete {P : Platform} (u : Uploader.t)
    (filePath destDir : string) (f : LocalFile) (s : state) :
  let fileName := filepath_Base filePath in
  let uploadURL := upload_url fileName destDir (f_size f) in
  exists new,
    trace (fst (uploadFile u filePath destDir f s)) = (new ++ trace s)%list /\
    (forall n s1 received,
        f_open f = None -> f_read f = None ->
        numParts (f_size f) (Uploader.partSize u) = Some n ->
        upload_parts u f filePath fileName uploadURL (f_size f) n s
          = (s1, Done received) ->
        Z.of_nat (List.length received) <> n ->
        uploadFile u filePath destDir f s
          = (s1, Done (Some ("upload failed: " ++ fileName))) /\
        Forall (fun e => is_finalize e = false) new) /\
    (Exists (fun e => is_finalize e = true) new ->
     exists n s1 received,
       numParts (f_size f) (Uploader.partSize u) = Some n /\
       upload_parts u f filePath fileName uploadURL (f_size f) n s
         = (s1, Done received) /\
       Z.of_nat (List.length received) = n).
Proof.
  intros fileName uploadURL.
  destruct (uploadFile_run u filePath destDir f s) as (new & Ht & Hrun).
  exists new. split; [exact Ht|]. split.
  - intros n s1 received Ho Hr Hn Hparts Hne.
    assert (Hfile : uploadFile u filePath destDir f s
                    = (s1, Done (Some ("upload failed: " ++ fileName)))).
    { rewrite (uploadFile_phases u filePath destDir f n Ho Hr Hn).
      unfold bind. fold fileName uploadURL. rewrite Hparts.
      now apply finish_upload_incomplete. }
    split; [exact Hfile|].
    rewrite Hfile in Ht. cbn [fst] in Ht.
    destruct (emits_upload_parts u f filePath fileName uploadURL n (f_size f)
                s s1 _ Hparts) as (new1 & Ht1 & He1).
    rewrite Ht1 in Ht. apply app_inv_tail in Ht. subst new1.
    eapply Forall_impl; [|exact He1].
    intros e (t & _ & He). eapply part_event_not_finalize; exact He.
  - intros Hex. destruct Hrun as [Hquiet|Hrun].
    + apply Exists_exists in Hex. destruct Hex as (e & Hin & He).
      rewrite Forall_forall in Hquiet. specialize (Hquiet _ Hin).
      destruct e; discriminate.
    + destruct Hrun as [n s1 o1 new1 new2 Ho Hr Hn Hparts Ht1 He1 Hnew He2].
      subst new. apply Exists_app in Hex. destruct Hex as [Hex|Hex].
      * destruct o1 as [received| | |];
          try (subst new2; now apply Exists_nil in Hex).
        exists n, s1, received. split; [exact Hn|]. split; [exact Hparts|].
        apply Exists_exists in Hex. destruct Hex as (e & Hin & _).
        rewrite Forall_forall in He2. now destruct (He2 _ Hin).
      * apply Exists_exists in Hex. destruct Hex as (e & Hin & He).
        rewrite Forall_forall in He1. destruct (He1 _ Hin) as (t & _ & Hpe).
        apply part_event_not_finalize in Hpe. congruence.
Qed.

Lemma C2_finalize_only_when_complete_witness :
  let f := Fixture.file 2500 in
  let s := Fixture.start [200; 500; 200] in
  (f_open f = None /\ f_read f = None /\
   numParts (f_size f) (Uploader.partSize Fixture.uploader) = Some 3) /\
  snd (uploadFile Fixture.uploader "a.bin" "/dst" f s)
    = Done (Some "upload failed: a.bin") /\
  existsb is_finalize (trace (fst (uploadFile Fixture.uploader "a.bin" "/dst" f s)))
    = false.
Proof.
  intros f s. split; [repeat split|].
  destruct (C2_finalize_only_when_complete Fixture.uploader "a.bin" "/dst" f s)
    as (new & Ht & Hincomplete & _).
  pose (run := upload_parts Fixture.uploader f "a.bin" "a.bin"
                 (upload_url (P := Fixture.platform) "a.bin" "/dst" 2500) 2500 3 s).
  destruct (Hincomplete 3 (fst run)
              [UploadPartOut.mk "" "a.bin.part.001" 101 1 3 0 0;
               UploadPartOut.mk "" "a.bin.part.003" 103 3 3 0 0]
              eq_refl eq_refl eq_refl) as (Hfile & _).
  - vm_compute. reflexivity.
  - cbn. lia.
  - rewrite Hfile. split; [reflexivity|]. vm_compute. reflexivity.
Defined.

(** ** C3: the parts of the finalize request *)

Section Collection.

Context {P : Platform}.

Lemma run_parts_complete (body : Z * (Z * Z) -> M (option UploadPartOut.t))
    (key : Z * (Z * Z) -> Z) (tasks : list (Z * (Z * Z))) :
  (forall t s s' part, In t tasks -> body t s = (s', Done (Some part)) ->
                       UploadPartOut.PartNo part = key t) ->
  forall s s' sent, run_parts body tasks s = (s', Done sent) ->
    (List.length sent <= List.length tasks)%nat /\
    (List.length sent = List.length tasks ->
     map UploadPartOut.PartNo sent = map key tasks).
Proof.
  induction tasks as [|t tasks IH]; intros Hecho s s' sent Hrun.
  - cbn in Hrun. inversion Hrun; subst. cbn. split; [lia|reflexivity].
  - cbn [run_parts] in Hrun. unfold bind in Hrun.
    destruct (body t s) as [s1 [r| | |]] eqn:Eb; try discriminate.
    destruct (run_parts body tasks s1) as [s2 [rs| | |]] eqn:Er; try discriminate.
    inversion Hrun; subst; clear Hrun.
    assert (Hecho' : forall t' s0 s0' part, In t' tasks ->
              body t' s0 = (s0', Done (Some part)) ->
              UploadPartOut.PartNo part = key t').
    { intros t' s0 s0' part Hin. apply Hecho. now right. }
    destruct (IH Hecho' s1 s' rs Er) as (Hle & Heq).
    destruct r as [part|]; cbn [List.length map].
    + split; [lia|]. intros Hlen. f_equal.
      * eapply Hecho; [now left|exact Eb].
      * apply Heq. lia.
    + split; [lia|]. intros Hlen. lia.
Qed.

Lemma upload_parts_complete (u : Uploader.t) (f : LocalFile)
    (filePath destDir : string) (n : Z) (s s1 : state)
    (received : list UploadPartOut.t) :
  let fileName := filepath_Base filePath in
  upload_parts u f filePath fileName (upload_url fileName destDir (f_size f))
    (f_size f) n s = (s1, Done received) ->
  echoes_partNo u f filePath destDir n ->
  Z.of_nat (List.length received) = n ->
  Permutation (map UploadPartOut.PartNo received)
              (map Z.of_nat (seq 1 (Z.to_nat n))).
Proof.
  intros fileName Hrun Hecho Hlen. unfold upload_parts in Hrun.
  destruct (n <? 0); [discriminate|].
  destruct (Uploader.numWorkers u <? 0); [discriminate|].
  destruct (_ && _); [discriminate|].
  unfold bind, scheduled in Hrun.
  set (tasks := part_tasks (Uploader.partSize u) (f_size f) n) in *.
  set (order := interleave _ (world s) tasks) in *.
  destruct (run_parts _ order s) as [s2 [sent| | |]] eqn:Er; try discriminate.
  inversion Hrun; subst s1 received; clear Hrun.
  assert (Hord : Permutation order tasks) by apply interleave_perm.
  assert (Hrec : Permutation (interleave _ (world s2) sent) sent)
    by apply interleave_perm.
  assert (Htasks : List.length tasks = Z.to_nat n).
  { unfold tasks, part_tasks. now rewrite length_map, length_seq. }
  apply run_parts_complete with (key := fun t => fst t + 1) in Er.
  - destruct Er as (_ & Heq).
    rewrite (Permutation_map UploadPartOut.PartNo Hrec), Heq.
    + rewrite (Permutation_map (fun t => fst t + 1) Hord).
      unfold tasks, part_tasks. rewrite map_map. cbn [fst].
      now rewrite seq_succ_of_nat.
    + rewrite (Permutation_length Hord), Htasks.
      rewrite <- (Permutation_length Hrec). lia.
  - intros t s0 s0' part Hin. apply Hecho.
    eapply Permutation_in; [exact Hord|exact Hin].
Qed.

End Collection.

(** C3: in every run of [uploadFile], every finalize request carries a
    [FilePayload] whose [Parts] are as many as [numParts] and are in
    ascending order of [partNo]; and if every part record repeats the
    number its part was uploaded under, their numbers are exactly
    1, 2, ..., [numParts], each once. *)
Theorem C3_finalize_parts_sorted_and_complete {P : Platform} (u : Uploader.t)
    (filePath destDir : string) (f : LocalFile) (s : state) :
  exists new,
    trace (fst (uploadFile u filePath destDir f s)) = (new ++ trace s)%list /\
    forall o, In (HttpCall o) new -> is_finalize (HttpCall o) = true ->
      exists n payload,
        numParts (f_size f) (Uploader.partSize u) = Some n /\
        rest.Body o = rest.JsonFilePayload payload /\
        Z.of_nat (List.length (FilePayload.Parts payload)) = n /\
        Sorted Z.le (map Part.PartNo (FilePayload.Parts payload)) /\
        (echoes_partNo u f filePath destDir n ->
         map Part.PartNo (FilePayload.Parts payload)
           = map Z.of_nat (seq 1 (Z.to_nat n))).
Proof.
  destruct (uploadFile_run u filePath destDir f s) as (new & Ht & Hrun).
  exists new. split; [exact Ht|]. intros o Hin Hfin.
  destruct Hrun as [Hquiet|Hrun].
  { rewrite Forall_forall in Hquiet. now specialize (Hquiet _ Hin). }
  destruct Hrun as [n s1 o1 new1 new2 Ho Hr Hn Hparts Ht1 He1 Hnew He2].
  subst new. apply in_app_or in Hin. destruct Hin as [Hin|Hin].
  2:{ rewrite Forall_forall in He1. destruct (He1 _ Hin) as (t & _ & Hpe).
      apply part_event_not_finalize in Hpe. congruence. }
  destruct o1 as [received| | |]; try (subst new2; contradiction).
  rewrite Forall_forall in He2. destruct (He2 _ Hin) as (Hlen & [E|E]).
  2:{ inversion E; subst o. discriminate. }
  inversion E; subst o; clear E.
  exists n, (payload_of filePath destDir f received).
  split; [exact Hn|]. split; [reflexivity|]. cbn [payload_of FilePayload.Parts].
  assert (Hperm := Slice_perm less_PartNo (map to_Part received)).
  split; [|split].
  - now rewrite (Permutation_length Hperm), length_map.
  - apply Slice_sorted.
  - intros Hecho. apply sorted_perm_unique.
    + apply Slice_sorted.
    + apply seq_sorted.
    + rewrite (Permutation_map Part.PartNo Hperm), map_map. cbn [to_Part Part.PartNo].
      eapply upload_parts_complete; eauto.
Qed.

(** The fixture backend repeats part numbers. *)
Lemma Fixture_echoes :
  echoes_partNo (P := Fixture.platform) Fixture.uploader (Fixture.file 2500)
    "a.bin" "/dst" 3.
Proof.
  unfold echoes_partNo. intros t s s' part Hin Hrun.
  vm_compute in Hin.
  destruct Hin as [<-|[<-|[<-|[]]]];
    unfold upload_part, CallJSON, Call, bind, emit, http_Do, ret in Hrun;
    cbn in Hrun; unfold Fixture.serve in Hrun;
    (destruct (world s) as [|code w];
     [ cbn in Hrun; inversion Hrun; reflexivity
     | destruct (code =? 0); cbn in Hrun; [discriminate|];
       destruct ((code <? 200) || (299 <? code)); cbn in Hrun; [discriminate|];
       destruct (code =? 200); inversion Hrun; reflexivity ]).
Qed.

Lemma C3_finalize_parts_sorted_and_complete_witness :
  let run := uploadFile Fixture.uploader "a.bin" "/dst" (Fixture.file 2500)
               (Fixture.start []) in
  exists o payload,
    In (HttpCall o) (trace (fst run)) /\ is_finalize (HttpCall o) = true /\
    rest.Body o = rest.JsonFilePayload payload /\
    map Part.PartNo (FilePayload.Parts payload) = [1; 2; 3].
Proof.
  intros run.
  destruct (C3_finalize_parts_sorted_and_complete Fixture.uploader "a.bin" "/dst"
              (Fixture.file 2500) (Fixture.start [])) as (new & Ht & Hfin).
  fold run in Ht. cbn [trace Fixture.start] in Ht. rewrite app_nil_r in Ht.
  subst new.
  pose (o := nth 1 (trace (fst run)) (LogLine "" "")).
  assert (Ho : exists o', o = HttpCall o') by (vm_compute; eauto).
  destruct Ho as (o' & Ho).
  assert (Hin : In (HttpCall o') (trace (fst run))).
  { rewrite <- Ho. vm_compute. auto. }
  assert (Hf : is_finalize (HttpCall o') = true).
  { rewrite <- Ho. vm_compute. reflexivity. }
  destruct (Hfin o' Hin Hf) as (n & payload & Hn & Hbody & _ & _ & Hecho).
  exists o', payload. split; [exact Hin|]. split; [exact Hf|].
  split; [exact Hbody|].
  assert (n = 3) by (vm_compute in Hn; congruence). subst n.
  apply Hecho, Fixture_echoes.
Defined.


(** ** The loop over the entries of a directory *)

Section Loop.

Context {P : Platform}.

Lemma for_each_app {A} (body : A -> M unit) (l1 l2 : list A) (s : state) :
  for_each body (l1 ++ l2)%list s
  = bind (for_each body l1) (fun _ => for_each body l2) s.
Proof.
  revert s. induction l1 as [|x l1 IH]; intros s; cbn [for_each app].
  - reflexivity.
  - unfold bind. destruct (body x s) as [s1 [[]| | |]]; try reflexivity.
    rewrite IH. reflexivity.
Qed.

Lemma for_each_after {A} (body : A -> M unit) (before after : list A)
    (x : A) (s s1 : state) :
  for_each body before s = (s1, Done tt) ->
  for_each body (before ++ x :: after)%list s
  = bind (body x) (fun _ => for_each body after) s1.
Proof.
  intros Hb. rewrite for_each_app. unfold bind at 1. now rewrite Hb.
Qed.


End Loop.

(** ** C7: files already listed are skipped *)

Section Listing.

Context {P : Platform}.

(** Given enough fuel, [list_pages] returns what it had, followed by all
    the pages the backend serves. *)
Lemma list_pages_accumulates (path : string) (fuel : nat) :
  forall token s pages s' files,
    serves_pages path token s pages s' ->
    (List.length pages <= fuel)%nat ->
    list_pages fuel path files token s
    = (s', Done ((files ++ List.concat pages)%list, None)).
Proof.
  induction fuel as [|fuel IH]; intros token s pages s' files Hserve Hfuel.
  - destruct Hserve; cbn in Hfuel; lia.
  - cbn [list_pages]. unfold bind.
    destruct Hserve as [token s s' info Hread Htok
                       |token s s1 s' info pages Hread Htok Hrest];
      rewrite Hread.
    + rewrite Htok. cbn. now rewrite app_nil_r.
    + apply String.eqb_neq in Htok. rewrite Htok.
      cbn in Hfuel. rewrite (IH _ _ _ _ _ Hrest) by lia.
      cbn [List.concat]. now rewrite app_assoc.
Qed.

Lemma upload_entry_listed (fuel : nat) (u : Uploader.t)
    (sourcePath destDir name : string) (files : list FileInfo.t)
    (f : LocalFile) (s : state) :
  checkFileExists name files = true ->
  upload_entry fuel u sourcePath destDir files (File name f) s
  = (logged "INFO" ("file exists: " ++ name) s, Done tt).
Proof. intros Hex. cbn [upload_entry]. rewrite Hex. reflexivity. Qed.

End Listing.

(** C7: [uploadFilesInDirectory] asks once for the listing of the
    destination, in pages of 500 that are put together until a page comes
    without a token for the next, and only then walks the entries, against
    that listing;  and in that walk an entry for a file whose name is in the
    listing adds one line to the log and nothing else: the world is not
    touched and no request is made for it. *)
Theorem C7_listed_files_are_skipped {P : Platform} (fuel : nat) (u : Uploader.t)
    (sourcePath destDir : string) (entries : list node) :
  let dest := backslashes_to_slashes destDir in
  (forall s pages s1,
      serves_pages dest "" s pages s1 -> (List.length pages <= fuel)%nat ->
      uploadFilesInDirectory fuel u sourcePath destDir None entries s
      = bind (for_each (upload_entry fuel u sourcePath dest (List.concat pages)) entries)
             (fun _ => ret None) s1) /\
  (forall files before name f after s0 s1,
      entries = (before ++ File name f :: after)%list ->
      checkFileExists name files = true ->
      for_each (upload_entry fuel u sourcePath dest files) before s0 = (s1, Done tt) ->
      for_each (upload_entry fuel u sourcePath dest files) entries s0
      = for_each (upload_entry fuel u sourcePath dest files) after
          (logged "INFO" ("file exists: " ++ name) s1)).
Proof.
  intros dest. split.
  - intros s pages s1 Hserve Hfuel.
    unfold uploadFilesInDirectory, walk_directory, list_. fold dest.
    unfold bind at 1.
    rewrite (list_pages_accumulates dest fuel "" s pages s1 [] Hserve Hfuel).
    reflexivity.
  - intros files before name f after s0 s1 -> Hex Hbefore.
    rewrite (for_each_after _ _ _ _ _ _ Hbefore).
    unfold bind. now rewrite upload_entry_listed.
Qed.

Lemma C7_listed_files_are_skipped_witness :
  let page := [FileInfo.mk "1" "b.txt" "text/plain" 3 "" "file" ""] in
  let run := uploadFilesInDirectory 5 Fixture.uploader "src" "dst" None
               [File "b.txt" (Fixture.file 10)] (Fixture.start []) in
  checkFileExists "b.txt" page = true /\
  snd run = Done None /\
  map rest.Method (Fixture.requests (fst run)) = ["GET"] /\
  Fixture.log_lines (fst run) = ["file exists: b.txt"].
Proof.
  intros page run. split; [reflexivity|].
  destruct (C7_listed_files_are_skipped (P := Fixture.platform) 5
              Fixture.uploader "src" "dst"
              [File "b.txt" (Fixture.file 10)]) as (Hlist & Hskip).
  pose (s1 := fst (list_ (P := Fixture.platform) 5 "dst" (Fixture.start []))).
  assert (Hserve : serves_pages "dst" "" (Fixture.start []) [page] s1).
  { apply (last_page "dst" "" (Fixture.start []) s1
             (ReadMetadataResponse.mk page "")); reflexivity. }
  assert (Hrun : run = bind (for_each (upload_entry 5 Fixture.uploader "src"
                                         (backslashes_to_slashes "dst")
                                         (List.concat [page]))
                               [File "b.txt" (Fixture.file 10)])
                            (fun _ => ret None) s1).
  { apply (Hlist (Fixture.start []) [page] s1 Hserve). cbn. lia. }
  rewrite Hrun. unfold bind.
  rewrite (Hskip (List.concat [page]) [] "b.txt" (Fixture.file 10) [] s1 s1
             eq_refl eq_refl eq_refl).
  repeat split.
Defined.

(** ** C5: failures during the walk *)




(** ** [float64] rounding on known values *)

(** 0.1 is [0x1.999999999999ap-4]; 1e23 rounds down; ties go to the even
    significand; the largest finite value is [(2^53 - 1) * 2^971] and the
    midpoint above it overflows; below [2^-1022] the spacing stays
    [2^-1074]. *)
Example round_known_values :
  Float64.round 1 10 = Float64.Fin 7205759403792794 (- 56) /\
  Float64.round (10 ^ 23) 1 = Float64.Fin 5960464477539062 24 /\
  Float64.round (2 ^ 53 + 1) 1 = Float64.Fin (2 ^ 52) 1 /\
  Float64.round (2 ^ 53 + 3) 1 = Float64.Fin (2 ^ 52 + 2) 1 /\
  Float64.round (2 ^ 1024 - 2 ^ 970 - 1) 1 = Float64.Fin (2 ^ 53 - 1) 971 /\
  Float64.round (2 ^ 1024 - 2 ^ 970) 1 = Float64.Inf /\
  Float64.round 1 (2 ^ 1074) = Float64.Fin 1 (- 1074) /\
  Float64.round 1 (2 ^ 1075) = Float64.Fin 0 (- 1074) /\
  Float64.round 3 (2 ^ 1075) = Float64.Fin 2 (- 1074).
Proof. vm_compute. repeat split. Qed.

(** Where the arithmetic is not exact the parser follows [float64]: the
    decimal below rounds to 1, and a product beyond [int64] has no
    specified conversion. *)
Example fileSizeToBytes_inexact :
  SizeParser.fileSizeToBytes "0.99999999999999999999KB" = Ok (Float64.Int64 1024) /\
  SizeParser.fileSizeToBytes "0.1KB" = Ok (Float64.Int64 102) /\
  SizeParser.fileSizeToBytes "9223372036854775808KB" = Ok Float64.Unspecified.
Proof. vm_compute. repeat split. Qed.

(** ** Exact [float64] arithmetic on integers *)

Section ExactFloats.

Import Float64.

Lemma denotes_intro (m e N k : Z) :
  0 <= k -> 0 <= e + k -> m * 2 ^ (e + k) = N * 2 ^ k -> denotes (Fin m e) N.
Proof.
  intros Hk Hek H. cbn.
  destruct (Z_le_gt_dec 0 e) as [He|He].
  - left. split; [exact He|].
    rewrite Z.pow_add_r, Z.mul_assoc in H by lia.
    apply Z.mul_reg_r in H; [exact H|]. apply Z.pow_nonzero; lia.
  - right. split; [lia|].
    assert (Hk2 : 2 ^ k = 2 ^ (- e) * 2 ^ (e + k)).
    { rewrite <- Z.pow_add_r by lia. f_equal. lia. }
    rewrite Hk2, Z.mul_assoc in H.
    apply Z.mul_reg_r in H; [exact H|]. apply Z.pow_nonzero; lia.
Qed.

Lemma denotes_elim (m e N : Z) :
  denotes (Fin m e) N ->
  exists k, 0 <= k /\ 0 <= e + k /\ m * 2 ^ (e + k) = N * 2 ^ k.
Proof.
  intros [(He & H)|(He & H)].
  - exists 0. rewrite Z.add_0_r, Z.pow_0_r. repeat split; lia.
  - exists (- e). replace (e + - e) with 0 by lia. rewrite Z.pow_0_r.
    repeat split; lia.
Qed.

Lemma nearest_even_exact (n d : Z) :
  0 < d -> n mod d = 0 -> nearest_even n d = n / d.
Proof.
  intros Hd Hm. unfold nearest_even. rewrite Hm.
  destruct (Z.compare_spec (2 * 0) d); [lia|reflexivity|lia].
Qed.

Lemma nearest_even_scale (c n d : Z) :
  0 < c -> 0 < d -> nearest_even (c * n) (c * d) = nearest_even n d.
Proof.
  intros Hc Hd. unfold nearest_even.
  rewrite Z.div_mul_cancel_l, Z.mul_mod_distr_l by lia.
  replace (2 * (c * (n mod d))) with (c * (2 * (n mod d))) by ring.
  destruct (Z.compare_spec (c * (2 * (n mod d))) (c * d)),
           (Z.compare_spec (2 * (n mod d)) d); try reflexivity; nia.
Qed.

Lemma ilog2_int (N : Z) : 0 < N -> ilog2 N 1 = Z.log2 N.
Proof.
  intros HN. unfold ilog2. rewrite Z.log2_1, Z.sub_0_r.
  pose proof (Z.log2_nonneg N) as Hnn.
  destruct (Z.leb_spec 0 (Z.log2 N)); [|lia].
  pose proof (Z.log2_spec N HN) as Hs.
  destruct (Z.leb_spec (1 * 2 ^ Z.log2 N) N); [reflexivity|lia].
Qed.

Lemma ilog2_scale (k p q : Z) :
  0 <= k -> 0 < p -> 0 < q -> ilog2 (2 ^ k * p) (2 ^ k * q) = ilog2 p q.
Proof.
  intros Hk Hp Hq. unfold ilog2.
  rewrite !(Z.mul_comm (2 ^ k)), !Z.log2_mul_pow2 by lia.
  replace (k + Z.log2 p - (k + Z.log2 q)) with (Z.log2 p - Z.log2 q) by lia.
  set (e0 := Z.log2 p - Z.log2 q).
  assert (Hc : 0 < 2 ^ k) by (apply Z.pow_pos_nonneg; lia).
  destruct (0 <=? e0).
  - replace (q * 2 ^ k * 2 ^ e0) with (2 ^ k * (q * 2 ^ e0)) by ring.
    replace (p * 2 ^ k) with (2 ^ k * p) by ring.
    destruct (Z.leb_spec (2 ^ k * (q * 2 ^ e0)) (2 ^ k * p)),
             (Z.leb_spec (q * 2 ^ e0) p); try reflexivity; nia.
  - replace (p * 2 ^ k * 2 ^ (- e0)) with (2 ^ k * (p * 2 ^ (- e0))) by ring.
    replace (q * 2 ^ k) with (2 ^ k * q) by ring.
    destruct (Z.leb_spec (2 ^ k * q) (2 ^ k * (p * 2 ^ (- e0)))),
             (Z.leb_spec q (p * 2 ^ (- e0))); try reflexivity; nia.
Qed.

Lemma round_scale (k p q : Z) :
  0 <= k -> 0 < p -> 0 < q -> round (2 ^ k * p) (2 ^ k * q) = round p q.
Proof.
  intros Hk Hp Hq. unfold round.
  assert (Hc : 0 < 2 ^ k) by (apply Z.pow_pos_nonneg; lia).
  destruct (Z.eqb_spec (2 ^ k * p) 0); [nia|].
  destruct (Z.eqb_spec p 0); [lia|].
  rewrite ilog2_scale by assumption.
  set (u := Z.max (ilog2 p q) (- 1022) - 52).
  replace (2 ^ k * q * 2 ^ u) with (2 ^ k * (q * 2 ^ u)) by ring.
  replace (2 ^ k * p * 2 ^ (- u)) with (2 ^ k * (p * 2 ^ (- u))) by ring.
  destruct (Z.leb_spec 0 u).
  - rewrite nearest_even_scale; [reflexivity|exact Hc|].
    apply Z.mul_pos_pos; [exact Hq|apply Z.pow_pos_nonneg; lia].
  - rewrite nearest_even_scale by assumption. reflexivity.
Qed.

(** An integer with at most 53 significant bits, times a power of two in
    range, is rounded to itself. *)
Lemma round_int_exact (N a b : Z) :
  0 <= a < 2 ^ 53 -> 0 <= b <= 970 -> N = a * 2 ^ b -> denotes (round N 1) N.
Proof.
  intros Ha Hb HN. unfold round.
  destruct (Z.eqb_spec N 0) as [->|Hnz].
  { cbn. left. split; lia. }
  assert (Hpb : 0 < 2 ^ b) by (apply Z.pow_pos_nonneg; lia).
  assert (Hapos : 0 < a) by nia.
  assert (HNpos : 0 < N) by nia.
  rewrite ilog2_int by exact HNpos.
  assert (Hlog : Z.log2 N = b + Z.log2 a).
  { subst N. apply Z.log2_mul_pow2; lia. }
  assert (Hla : Z.log2 a < 53) by (apply Z.log2_lt_pow2; lia).
  pose proof (Z.log2_nonneg a) as Hla0.
  rewrite Z.max_l by lia.
  set (u := Z.log2 N - 52).
  destruct (Z.leb_spec 971 u) as [Hu|Hu]; [lia|]. cbn [andb].
  destruct (Z.leb_spec 0 u) as [Hu0|Hu0].
  - assert (Hdiv : N = a * 2 ^ (b - u) * 2 ^ u).
    { rewrite <- Z.mul_assoc, <- Z.pow_add_r by lia.
      now replace (b - u + u) with b by lia. }
    assert (Hpu : 0 < 2 ^ u) by (apply Z.pow_pos_nonneg; lia).
    rewrite Z.mul_1_l, nearest_even_exact; [|exact Hpu|].
    + left. split; [exact Hu0|].
      rewrite Hdiv at 1. rewrite Z.div_mul by lia. lia.
    + rewrite Hdiv. apply Z.mod_mul. lia.
  - rewrite nearest_even_exact; [|lia|apply Z.mod_1_r].
    right. split; [exact Hu0|]. now rewrite Z.div_1_r.
Qed.

Lemma round_dyadic_exact (m e N a b : Z) :
  denotes (Fin m e) N ->
  0 <= a < 2 ^ 53 -> 0 <= b <= 970 -> N = a * 2 ^ b ->
  denotes (round_dyadic m e) N.
Proof.
  intros Hd Ha Hb HN. unfold round_dyadic.
  destruct Hd as [(He & Hm)|(He & Hm)].
  - destruct (Z.leb_spec 0 e); [|lia]. rewrite Hm.
    eapply round_int_exact; eauto.
  - destruct (Z.leb_spec 0 e); [lia|].
    destruct (Z.eq_dec N 0) as [->|Hnz].
    + subst m. cbn. left. split; lia.
    + assert (0 < N) by nia.
      replace m with (2 ^ (- e) * N) by lia.
      replace (2 ^ (- e)) with (2 ^ (- e) * 1) at 2 by lia.
      rewrite round_scale by lia.
      eapply round_int_exact; eauto.
Qed.

Lemma mul_exact (x y : t) (X Y a b : Z) :
  denotes x X -> denotes y Y ->
  0 <= a < 2 ^ 53 -> 0 <= b <= 970 -> X * Y = a * 2 ^ b ->
  denotes (mul x y) (X * Y).
Proof.
  intros Hx Hy Ha Hb HN.
  destruct x as [m1 e1|]; [|contradiction].
  destruct y as [m2 e2|]; [|contradiction].
  cbn [mul]. eapply round_dyadic_exact; eauto.
  apply denotes_elim in Hx, Hy.
  destruct Hx as (k1 & Hk1 & Hek1 & H1), Hy as (k2 & Hk2 & Hek2 & H2).
  apply denotes_intro with (k := k1 + k2); [lia|lia|].
  replace (e1 + e2 + (k1 + k2)) with ((e1 + k1) + (e2 + k2)) by lia.
  rewrite (Z.pow_add_r 2 (e1 + k1) (e2 + k2)), (Z.pow_add_r 2 k1 k2) by lia.
  transitivity ((m1 * 2 ^ (e1 + k1)) * (m2 * 2 ^ (e2 + k2))); [ring|].
  rewrite H1, H2. ring.
Qed.

Lemma to_int64_exact (x : t) (N : Z) :
  denotes x N -> N < 2 ^ 63 -> to_int64 x = Int64 N.
Proof.
  intros Hx HN. destruct x as [m e|]; [|contradiction]. cbn [to_int64].
  destruct Hx as [(He & Hm)|(He & Hm)].
  - destruct (Z.leb_spec 0 e); [|lia]. rewrite Hm.
    destruct (Z.ltb_spec N (2 ^ 63)); [reflexivity|lia].
  - destruct (Z.leb_spec 0 e); [lia|]. rewrite Hm.
    rewrite Z.div_mul by (apply Z.pow_nonzero; lia).
    destruct (Z.ltb_spec N (2 ^ 63)); [reflexivity|lia].
Qed.

End ExactFloats.

(** ** The pattern on well-formed size strings *)

Section ParserFacts.

Import SizeParser.

Lemma digit_byte (c : ascii) :
  is_digit c = true ->
  lower_byte c = c /\ Ascii.eqb c "." = false /\ is_space c = false /\
  0 <= digit_value c <= 9.
Proof.
  destruct c as [[] [] [] [] [] [] [] []]; vm_compute; intros H;
    try discriminate H; repeat split; discriminate.
Qed.

Lemma space_byte (c : ascii) :
  is_space c = true ->
  lower_byte c = c /\ Ascii.eqb c "." = false /\ is_digit c = false.
Proof.
  destruct c as [[] [] [] [] [] [] [] []]; vm_compute; intros H;
    try discriminate H; repeat split.
Qed.

Lemma append_nil_r (s : string) : s ++ "" = s.
Proof. induction s as [|c s IH]; cbn; [reflexivity|now rewrite IH]. Qed.

Lemma append_assoc (a b c : string) : (a ++ b) ++ c = a ++ (b ++ c).
Proof. induction a as [|x a IH]; cbn; [reflexivity|now rewrite IH]. Qed.

Lemma ToLower_app (a b : string) : ToLower (a ++ b) = ToLower a ++ ToLower b.
Proof. induction a as [|x a IH]; cbn; [reflexivity|now rewrite IH]. Qed.

Lemma ToLower_fixed (p : ascii -> bool) (s : string) :
  (forall c, p c = true -> lower_byte c = c) ->
  all_bytes p s = true -> ToLower s = s.
Proof.
  intros Hp. induction s as [|c s IH]; cbn; [reflexivity|].
  intros H. apply andb_prop in H. destruct H as (Hc & Hs).
  now rewrite (Hp c Hc), IH.
Qed.

Lemma span_app (p : ascii -> bool) (a b : string) :
  all_bytes p a = true -> stops p b -> span p (a ++ b) = (a, b).
Proof.
  intros Ha Hb. induction a as [|c a IH]; cbn.
  - destruct b as [|c b]; [reflexivity|]. cbn in Hb |- *. now rewrite Hb.
  - cbn in Ha. apply andb_prop in Ha. destruct Ha as (Hc & Ha).
    now rewrite Hc, (IH Ha).
Qed.

Lemma cut_at_dot_digits (ip : string) :
  all_bytes is_digit ip = true -> cut_at_dot ip = (ip, None).
Proof.
  induction ip as [|c ip IH]; cbn; [reflexivity|].
  intros H. apply andb_prop in H. destruct H as (Hc & Hs).
  destruct (digit_byte c Hc) as (_ & -> & _). now rewrite (IH Hs).
Qed.

Lemma cut_at_dot_fraction (ip f : string) :
  all_bytes is_digit ip = true ->
  cut_at_dot (ip ++ String "." f) = (ip, Some f).
Proof.
  induction ip as [|c ip IH]; cbn; [reflexivity|].
  intros H. apply andb_prop in H. destruct H as (Hc & Hs).
  destruct (digit_byte c Hc) as (_ & -> & _). now rewrite (IH Hs).
Qed.


Lemma digits_value_from_nonneg (s : string) :
  all_bytes is_digit s = true ->
  forall acc, 0 <= acc -> 0 <= digits_value_from acc s.
Proof.
  induction s as [|c s IH]; cbn [all_bytes digits_value_from];
    intros H acc Hacc; [exact Hacc|].
  apply andb_prop in H. destruct H as (Hc & Hs).
  destruct (digit_byte c Hc) as (_ & _ & _ & Hd).
  apply IH; [exact Hs|lia].
Qed.

Lemma is_empty_false (s : string) : s <> "" -> is_empty s = false.
Proof. destruct s; [contradiction|reflexivity]. Qed.

Lemma unit_letter (a : ascii) :
  In (lower_byte a) ["k"; "m"; "g"; "t"; "b"]%char ->
  is_digit a = false /\ is_space a = false /\ Ascii.eqb a "." = false.
Proof.
  destruct a as [[] [] [] [] [] [] [] []]; vm_compute; intros H;
    repeat split; try reflexivity; exfalso;
    repeat (destruct H as [H|H]; [discriminate H|]); exact H.
Qed.

Lemma unit_head (u : string) :
  matches_unit u = true ->
  exists a r, u = String a r /\
              In (lower_byte a) ["k"; "m"; "g"; "t"; "b"]%char.
Proof.
  unfold matches_unit, unit_alternatives. destruct u as [|a r]; [discriminate|].
  cbn [ToLower existsb]. intros H. exists a, r. split; [reflexivity|].
  repeat (apply orb_prop in H; destruct H as [H|H]);
    try discriminate H;
    apply String.eqb_eq in H; inversion H; cbn; tauto.
Qed.

(** White space followed by a unit begins neither with a digit nor with a
    dot; a unit does not begin with white space. *)
Lemma after_number (ws u : string) :
  spaces ws -> matches_unit u = true ->
  stops is_digit (ws ++ u) /\ after_dot (ws ++ u) = None /\
  span is_space (ws ++ u) = (ws, u).
Proof.
  intros Hws Hu.
  destruct (unit_head u Hu) as (a & r & -> & Ha).
  destruct (unit_letter a Ha) as (Hd & Hs & Hdot).
  split; [|split].
  - destruct ws as [|c ws]; cbn; [exact Hd|].
    cbn in Hws. apply andb_prop in Hws. now destruct (space_byte c (proj1 Hws)).
  - destruct ws as [|c ws]; cbn; [now rewrite Hdot|].
    cbn in Hws. apply andb_prop in Hws.
    now destruct (space_byte c (proj1 Hws)) as (_ & -> & _).
  - apply span_app; [exact Hws|exact Hs].
Qed.

Lemma after_dot_dot (r : string) : after_dot (String "." r) = Some r.
Proof. reflexivity. Qed.

Lemma FindStringSubmatch_valid (ip : string) (fp : option string)
    (ws u : string) :
  valid_decimal ip fp -> spaces ws -> matches_unit u = true ->
  let s := decimal ip fp ++ ws ++ u in
  FindStringSubmatch s
  = [s; decimal ip fp; match fp with None => "" | Some f => "." ++ f end; u].
Proof.
  intros ((Hne & Hip) & Hfp) Hws Hu s.
  destruct (after_number ws u Hws Hu) as (Hstop & Hdot & Hspan).
  unfold FindStringSubmatch, s. destruct fp as [f|]; cbn [decimal].
  - destruct Hfp as (Hfne & Hf).
    rewrite !append_assoc.
    rewrite (span_app is_digit ip); [|exact Hip|reflexivity].
    rewrite (is_empty_false ip Hne). cbn [append].
    rewrite after_dot_dot.
    rewrite (span_app is_digit f _ Hf Hstop), (is_empty_false f Hfne).
    now rewrite Hspan, Hu.
  - rewrite (span_app is_digit ip _ Hip Hstop), (is_empty_false ip Hne).
    now rewrite Hdot, Hspan, Hu.
Qed.

Lemma matches_unit_name (k : size_unit) : matches_unit (unit_name k) = true.
Proof. now destruct k. Qed.

End ParserFacts.

(** ** The matcher and the pattern *)

Section MatcherAndPattern.

Import SizeParser.

Lemma span_spec (p : ascii -> bool) (s a b : string) :
  span p s = (a, b) -> s = a ++ b /\ all_bytes p a = true /\ stops p b.
Proof.
  revert a b. induction s as [|c s IH]; cbn; intros a b E.
  - inversion E; subst. now repeat split.
  - destruct (p c) eqn:Hc.
    + destruct (span p s) as [a' b'] eqn:Es. inversion E; subst.
      destruct (IH a' b eq_refl) as (-> & Ha & Hb). cbn. rewrite Hc.
      now repeat split.
    + inversion E; subst. cbn. now repeat split.
Qed.

Lemma after_dot_inv (r r' : string) : after_dot r = Some r' -> r = String "." r'.
Proof.
  destruct r as [|c r]; cbn; [discriminate|].
  destruct (Ascii.eqb_spec c "."); [|discriminate].
  intros E. inversion E. now subst.
Qed.

Lemma is_empty_inv (s : string) : is_empty s = false -> s <> "".
Proof. destruct s; [discriminate|discriminate]. Qed.

(** What [FindStringSubmatch] accepts is a decimal, white space and a unit
    of the alternation. *)
Lemma FindStringSubmatch_inv (s : string) :
  FindStringSubmatch s <> [] ->
  exists ip fp ws u,
    valid_decimal ip fp /\ spaces ws /\ matches_unit u = true /\
    s = decimal ip fp ++ ws ++ u.
Proof.
  unfold FindStringSubmatch.
  destruct (span is_digit s) as [ip r1] eqn:E1.
  apply span_spec in E1. destruct E1 as (-> & Hip & _).
  destruct (is_empty ip) eqn:Hne; [now intros []|].
  apply is_empty_inv in Hne.
  destruct (after_dot r1) as [r1'|] eqn:Edot.
  - apply after_dot_inv in Edot. subst r1.
    destruct (span is_digit r1') as [f r2] eqn:E2.
    apply span_spec in E2. destruct E2 as (-> & Hf & _).
    destruct (is_empty f) eqn:Hfne.
    + cbn [span is_space]. change (is_space ".") with false. cbv iota.
      change (matches_unit (String "." (f ++ r2))) with false. now intros [].
    + apply is_empty_inv in Hfne.
      destruct (span is_space r2) as [ws u] eqn:E3.
      apply span_spec in E3. destruct E3 as (-> & Hws & _).
      destruct (matches_unit u) eqn:Hu; [|now intros []].
      intros _. exists ip, (Some f), ws, u.
      repeat split; try assumption. cbn [decimal]. now rewrite !append_assoc.
  - destruct (span is_space r1) as [ws u] eqn:E3.
    apply span_spec in E3. destruct E3 as (-> & Hws & _).
    destruct (matches_unit u) eqn:Hu; [|now intros []].
    intros _. exists ip, None, ws, u. now repeat split.
Qed.

Lemma star_class (p : ascii -> bool) (s : string) :
  Regexp.matches (Regexp.Star (Regexp.Byte p)) s <-> all_bytes p s = true.
Proof.
  split.
  - intros H. remember (Regexp.Star (Regexp.Byte p)) as r eqn:Er.
    induction H as [| | | | | |r' s1 s2 H1 _ H2 IH2]; try discriminate.
    + reflexivity.
    + inversion Er; subst r'. inversion H1; subst. cbn.
      now rewrite (IH2 eq_refl), andb_true_r.
  - induction s as [|c s IH]; cbn; intros H.
    + constructor.
    + apply andb_prop in H. destruct H as (Hc & Hs).
      change (String c s) with (String c "" ++ s).
      constructor; [now constructor|now apply IH].
Qed.

Lemma plus_class (p : ascii -> bool) (s : string) :
  Regexp.matches (Regexp.Plus (Regexp.Byte p)) s <->
  s <> "" /\ all_bytes p s = true.
Proof.
  unfold Regexp.Plus. split.
  - intros H. inversion H as [| |r1 r2 s1 s2 H1 H2| | | |]; subst.
    inversion H1; subst. apply star_class in H2. cbn.
    split; [discriminate|]. now rewrite H2, andb_true_r.
  - intros (Hne & H). destruct s as [|c s]; [contradiction|].
    cbn in H. apply andb_prop in H. destruct H as (Hc & Hs).
    change (String c s) with (String c "" ++ s).
    constructor; [now constructor|now apply star_class].
Qed.

Lemma number_re_spec (s : string) :
  Regexp.matches number_re s <->
  exists ip fp, valid_decimal ip fp /\ s = decimal ip fp.
Proof.
  unfold number_re. split.
  - intros H. inversion H as [| |r1 r2 s1 s2 H1 H2| | | |]; subst.
    apply plus_class in H1.
    inversion H2 as [| | |r1 r2 s Hf|r1 r2 s He| |]; subst.
    + inversion Hf as [| |r1 r2 s3 s4 Hdot Hplus| | | |]; subst.
      inversion Hdot as [p c Hc| | | | | |]; subst.
      apply Ascii.eqb_eq in Hc. subst c. apply plus_class in Hplus.
      exists s1, (Some s4). now split.
    + inversion He; subst. exists s1, None. split; [now split|].
      cbn. apply append_nil_r.
  - intros (ip & fp & (Hip & Hfp) & ->). destruct fp as [f|]; cbn [decimal].
    + constructor; [now apply plus_class|].
      apply Regexp.matches_alt_l.
      change ("." ++ f) with (String "." "" ++ f).
      constructor; [now constructor|now apply plus_class].
    + rewrite <- (append_nil_r ip) at 1.
      constructor; [now apply plus_class|].
      apply Regexp.matches_alt_r. constructor.
Qed.

Ltac invert_matches :=
  repeat match goal with
    | H : Regexp.matches (letter _) _ |- _ => unfold letter in H
    | H : Regexp.matches (letters _) _ |- _ => unfold letters in H
    | H : Regexp.matches (Regexp.Opt _) _ |- _ => unfold Regexp.Opt in H
    | H : Regexp.matches (Regexp.Byte _) _ |- _ => inversion H; subst; clear H
    | H : Regexp.matches (Regexp.Seq _ _) _ |- _ => inversion H; subst; clear H
    | H : Regexp.matches (Regexp.Alt _ _) _ |- _ => inversion H; subst; clear H
    | H : Regexp.matches Regexp.Empty _ |- _ => inversion H; subst; clear H
    end.

Ltac letter_facts :=
  repeat match goal with
    | H : false = true |- _ => discriminate H
    | H : existsb _ _ = true |- _ => cbn [existsb] in H
    | H : _ || _ = true |- _ => apply orb_prop in H; destruct H as [H|H]
    | H : Ascii.eqb (lower_byte _) _ = true |- _ => apply Ascii.eqb_eq in H
    end.

Ltac use_letter_facts :=
  repeat match goal with
    | H : lower_byte ?a = _ |- context [lower_byte ?a] => rewrite H
    end.

Ltac match_byte :=
  constructor; cbv beta; cbn [existsb]; use_letter_facts; reflexivity.

Lemma unit_re_spec (u : string) :
  Regexp.matches unit_re u <-> matches_unit u = true.
Proof.
  split.
  - unfold unit_re. intros H. invert_matches; cbv beta in *; letter_facts;
      unfold matches_unit; cbn [append ToLower]; use_letter_facts; reflexivity.
  - unfold matches_unit, unit_alternatives. cbn [existsb]. intros H.
    repeat (apply orb_prop in H; destruct H as [H|H]); try discriminate H;
      apply String.eqb_eq in H.
    1-4: destruct u as [|a [|b [|c r]]]; try discriminate H;
         cbn [ToLower] in H; inversion H;
         apply Regexp.matches_alt_l;
         change (String a (String b "")) with (String a "" ++ String b "");
         constructor; match_byte.
    + destruct u as [|a [|b [|c [|d [|e r]]]]]; try discriminate H.
      cbn [ToLower] in H. inversion H.
      apply Regexp.matches_alt_r.
      change (String a (String b (String c (String d ""))))
        with (String a "" ++ String b "" ++ String c "" ++ String d "" ++ "").
      repeat (constructor; [match_byte|]).
      apply Regexp.matches_alt_r. constructor.
    + destruct u as [|a [|b [|c [|d [|e [|g r]]]]]]; try discriminate H.
      cbn [ToLower] in H. inversion H.
      apply Regexp.matches_alt_r.
      change (String a (String b (String c (String d (String e "")))))
        with (String a "" ++ String b "" ++ String c "" ++ String d ""
                ++ String e "").
      repeat (constructor; [match_byte|]).
      apply Regexp.matches_alt_l. match_byte.
Qed.

(** [FindStringSubmatch] finds a match exactly on the texts of
    [sizeRegex]; the first group is then the decimal and the third the
    unit. *)
Theorem FindStringSubmatch_sizeRegex (s : string) :
  (FindStringSubmatch s <> [] <-> Regexp.matches sizeRegex s) /\
  (forall g1 g2 g3,
      FindStringSubmatch s = [s; g1; g2; g3] ->
      Regexp.matches number_re g1 /\ Regexp.matches unit_re g3 /\
      exists ws, spaces ws /\ s = g1 ++ ws ++ g3).
Proof.
  split; [split|].
  - intros H. apply FindStringSubmatch_inv in H.
    destruct H as (ip & fp & ws & u & Hnum & Hws & Hu & ->).
    unfold sizeRegex. constructor.
    + apply number_re_spec. now exists ip, fp.
    + constructor; [now apply star_class|now apply unit_re_spec].
  - unfold sizeRegex. intros H.
    inversion H as [| |r1 r2 s1 s23 Hnum H23| | | |]; subst.
    inversion H23 as [| |r1 r2 s2 s3 Hws Hu| | | |]; subst.
    apply number_re_spec in Hnum. destruct Hnum as (ip & fp & Hnum & ->).
    apply star_class in Hws. apply unit_re_spec in Hu.
    pose proof (FindStringSubmatch_valid ip fp s2 s3 Hnum Hws Hu) as E.
    cbv zeta in E. rewrite E. discriminate.
  - intros g1 g2 g3 E.
    assert (Hne : FindStringSubmatch s <> []) by (rewrite E; discriminate).
    apply FindStringSubmatch_inv in Hne.
    destruct Hne as (ip & fp & ws & u & Hnum & Hws & Hu & Hs).
    pose proof (FindStringSubmatch_valid ip fp ws u Hnum Hws Hu) as E'.
    cbv zeta in E'. rewrite <- Hs, E in E'. inversion E'; subst g1 g2 g3.
    split; [apply number_re_spec; now exists ip, fp|].
    split; [now apply unit_re_spec|].
    exists ws. now split.
Qed.

End MatcherAndPattern.

(** ** C4: the multipliers of the size parser *)

Section SizeParserCorrect.

Import SizeParser.

Lemma ToLower_decimal (ip : string) (fp : option string) :
  valid_decimal ip fp -> ToLower (decimal ip fp) = decimal ip fp.
Proof.
  assert (Hfix : forall s, all_bytes is_digit s = true -> ToLower s = s).
  { intros s. apply ToLower_fixed. intros c Hc. now destruct (digit_byte c Hc). }
  intros ((_ & Hip) & Hfp). destruct fp as [f|]; cbn [decimal].
  - destruct Hfp as (_ & Hf).
    rewrite !ToLower_app, (Hfix ip Hip), (Hfix f Hf). reflexivity.
  - now apply Hfix.
Qed.

Lemma ParseFloat_valid (ip : string) (fp : option string) :
  valid_decimal ip fp ->
  ParseFloat (decimal ip fp)
  = match Float64.round (digits_value (ip ++ fraction_digits fp))
            (10 ^ Go.len (fraction_digits fp)) with
    | Float64.Inf => Err (range_error (decimal ip fp))
    | x => Ok x
    end.
Proof.
  intros ((Hne & Hip) & Hfp). unfold ParseFloat.
  destruct fp as [f|]; cbn [decimal fraction_digits].
  - destruct Hfp as (Hfne & Hf). cbn [append].
    rewrite (cut_at_dot_fraction ip f Hip).
    rewrite (is_empty_false ip Hne), (is_empty_false f Hfne), Hip, Hf.
    reflexivity.
  - rewrite (cut_at_dot_digits ip Hip), (is_empty_false ip Hne), Hip.
    reflexivity.
Qed.

(** On a well-formed size string the parser reads the decimal, rounds it
    to a [float64], applies the multiplications of the unit and converts
    the product to [int64]. *)
Lemma fileSizeToBytes_valid (ip : string) (fp : option string)
    (ws u : string) (k : size_unit) :
  valid_decimal ip fp -> spaces ws -> spells u k ->
  fileSizeToBytes (decimal ip fp ++ ws ++ u)
  = match ParseFloat (decimal ip fp) with
    | Err e => Err e
    | Ok size => Ok (Float64.to_int64 (float_scale k size))
    end.
Proof.
  intros Hnum Hws Hu.
  assert (Hlow : ToLower (decimal ip fp ++ ws ++ u)
                 = decimal ip fp ++ ws ++ unit_name k).
  { rewrite !ToLower_app, (ToLower_decimal ip fp Hnum). unfold spells in Hu.
    rewrite Hu. rewrite (ToLower_fixed is_space ws); [reflexivity| |exact Hws].
    intros c Hc. now destruct (space_byte c Hc). }
  unfold fileSizeToBytes. rewrite Hlow.
  rewrite (FindStringSubmatch_valid ip fp ws (unit_name k) Hnum Hws
             (matches_unit_name k)).
  cbn [List.length Z.of_nat Z.eqb negb nth Pos.of_succ_nat Pos.succ Pos.eqb].
  destruct (ParseFloat (decimal ip fp)) as [size|e]; [|reflexivity].
  now destruct k.
Qed.

Lemma of_const_exact (c : Z) :
  0 <= c < 2 ^ 53 -> denotes (Float64.of_const c) c.
Proof.
  intros Hc. unfold Float64.of_const.
  apply round_int_exact with (a := c) (b := 0); lia.
Qed.

Lemma ParseFloat_int (ds : string) :
  digits ds -> digits_value ds < 2 ^ 53 ->
  exists x, ParseFloat ds = Ok x /\ denotes x (digits_value ds).
Proof.
  intros Hds Hlt.
  assert (Hnn : 0 <= digits_value ds).
  { apply digits_value_from_nonneg; [apply Hds|lia]. }
  pose proof (ParseFloat_valid ds None (conj Hds I)) as Hp.
  cbn [decimal fraction_digits] in Hp.
  rewrite append_nil_r in Hp. change (10 ^ Go.len "") with 1 in Hp.
  pose proof (round_int_exact (digits_value ds) (digits_value ds) 0
                ltac:(lia) ltac:(lia) ltac:(lia)) as Hd.
  destruct (Float64.round (digits_value ds) 1) as [m e|] eqn:Er; [|contradiction].
  exists (Float64.Fin m e). split; [exact Hp|exact Hd].
Qed.

Lemma float_scale_exact (k : size_unit) (x : Float64.t) (N : Z) :
  denotes x N -> 0 <= N -> N * multiplier k < 2 ^ 63 ->
  denotes (float_scale k x) (N * multiplier k).
Proof.
  intros Hx HN Hlt.
  assert (H1024 := of_const_exact 1024 ltac:(lia)).
  assert (H1000 := of_const_exact 1000 ltac:(lia)).
  destruct k; cbn [float_scale multiplier] in *.
  - apply mul_exact with (a := N) (b := 10); auto; lia.
  - replace (N * (1024 * 1024)) with (N * 1024 * 1024) by ring.
    apply mul_exact with (a := N) (b := 20); auto; try lia.
    apply mul_exact with (a := N) (b := 10); auto; lia.
  - replace (N * (1000 * 1024 * 1024)) with (N * 1000 * 1024 * 1024) by ring.
    apply mul_exact with (a := N * 1000) (b := 20); auto; try lia.
    apply mul_exact with (a := N * 1000) (b := 10); auto; try lia.
    apply mul_exact with (a := N * 1000) (b := 0); auto; lia.
Qed.

Lemma fileSizeToBytes_case (s t : string) (v : Float64.conv) :
  ToLower s = ToLower t ->
  fileSizeToBytes s = Ok v -> fileSizeToBytes t = Ok v.
Proof.
  unfold fileSizeToBytes. intros ->.
  destruct (negb _); [discriminate|]. auto.
Qed.

End SizeParserCorrect.

(** C4: the size parser is a function of the text, whose result does not
    depend on the case of the letters.  On every well-formed size string,
    made of a decimal, optional white space and a unit KB, MB or GB spelled
    in any case, it rounds the decimal to a [float64], multiplies by 1024
    for KB, by 1024 twice for MB, and by 1000, 1024 and 1024 for GB, and
    converts the product to [int64].  When the decimal is a whole number
    whose product with the multiplier fits an [int64], the result is
    exactly that product: 1024 per KB, 1024 * 1024 per MB and
    1000 * 1024 * 1024 per GB.  In particular ["1GB"] is 1048576000 bytes,
    neither 1024^3 nor 1000^3, and ["2KB"] is 2048 bytes. *)
Theorem C4_size_parser_multipliers :
  (SizeParser.fileSizeToBytes "1GB" = Ok (Float64.Int64 1048576000) /\
   1048576000 = 1000 * 1024 * 1024 /\
   1048576000 <> 1024 ^ 3 /\ 1048576000 <> 1000 ^ 3 /\
   SizeParser.fileSizeToBytes "2KB" = Ok (Float64.Int64 2048)) /\
  (forall ip fp ws u k,
      valid_decimal ip fp -> spaces ws -> spells u k ->
      SizeParser.fileSizeToBytes (decimal ip fp ++ ws ++ u)
      = match SizeParser.ParseFloat (decimal ip fp) with
        | Err e => Err e
        | Ok size => Ok (Float64.to_int64 (float_scale k size))
        end) /\
  (forall ds ws u k,
      digits ds -> spaces ws -> spells u k ->
      SizeParser.digits_value ds * multiplier k < 2 ^ 63 ->
      SizeParser.fileSizeToBytes (ds ++ ws ++ u)
      = Ok (Float64.Int64 (SizeParser.digits_value ds * multiplier k))) /\
  (forall s t v,
      SizeParser.ToLower s = SizeParser.ToLower t ->
      SizeParser.fileSizeToBytes s = Ok v ->
      SizeParser.fileSizeToBytes t = Ok v).
Proof.
  split; [|split; [|split]].
  - repeat split; try (vm_compute; congruence); lia.
  - apply fileSizeToBytes_valid.
  - intros ds ws u k Hds Hws Hu Hlt.
    assert (Hnn : 0 <= SizeParser.digits_value ds).
    { apply digits_value_from_nonneg; [apply Hds|lia]. }
    assert (Hsmall : SizeParser.digits_value ds < 2 ^ 53).
    { destruct k; cbn [multiplier] in Hlt; lia. }
    destruct (ParseFloat_int ds Hds Hsmall) as (x & Hparse & Hx).
    pose proof (fileSizeToBytes_valid ds None ws u k (conj Hds I) Hws Hu) as Hv.
    cbn [decimal] in Hv. rewrite Hv, Hparse. f_equal.
    apply to_int64_exact; [|exact Hlt].
    now apply float_scale_exact.
  - apply fileSizeToBytes_case.
Qed.

Lemma C4_size_parser_multipliers_witness :
  (digits "500" /\ spaces " " /\ spells "Mb" MB /\
   SizeParser.digits_value "500" * multiplier MB < 2 ^ 63) /\
  SizeParser.fileSizeToBytes "500 Mb" = Ok (Float64.Int64 524288000) /\
  SizeParser.fileSizeToBytes "1.5GB" = Ok (Float64.Int64 1572864000) /\
  SizeParser.fileSizeToBytes "2kb" = Ok (Float64.Int64 2048).
Proof.
  destruct C4_size_parser_multipliers
    as ((_ & _ & _ & _ & H2KB) & Hvalid & Hwhole & Hcase).
  assert (H500 : digits "500") by (split; [discriminate|reflexivity]).
  assert (Hlt : SizeParser.digits_value "500" * multiplier MB < 2 ^ 63)
    by (vm_compute; reflexivity).
  split; [repeat split; try exact Hlt; try apply H500; reflexivity|].
  split; [|split].
  - exact (Hwhole "500" " " "Mb" MB H500 eq_refl eq_refl Hlt).
  - assert (Hnum : valid_decimal "1" (Some "5")).
    { repeat split; try discriminate; reflexivity. }
    pose proof (Hvalid "1" (Some "5") "" "GB" GB Hnum eq_refl eq_refl) as H.
    etransitivity; [exact H|]. vm_compute. reflexivity.
  - exact (Hcase "2KB" "2kb" _ eq_refl H2KB).
Defined.

(** ** C8: units the parser rejects *)

(** C8 does not hold of the code: the longhand units do not match the
    pattern, although the [switch] has cases for them, and [bytes], [byte]
    and [TB] match the pattern, with a valid number, but no case of the
    [switch] takes them. *)
Theorem C8_longhand_and_bytes_are_rejected :
  (~ Regexp.matches SizeParser.sizeRegex "1kilobyte" /\
   SizeParser.fileSizeToBytes "1kilobyte" = Err "invalid format: 1kilobyte" /\
   SizeParser.fileSizeToBytes "2megabytes" = Err "invalid format: 2megabytes" /\
   SizeParser.fileSizeToBytes "1 gigabyte" = Err "invalid format: 1 gigabyte") /\
  (Regexp.matches SizeParser.sizeRegex "10bytes" /\
   SizeParser.FindStringSubmatch (SizeParser.ToLower "10bytes")
     = ["10bytes"; "10"; ""; "bytes"] /\
   SizeParser.ParseFloat "10" = Ok (Float64.Fin 5629499534213120 (- 49)) /\
   SizeParser.fileSizeToBytes "10bytes" = Err "unsupported unit: bytes" /\
   SizeParser.fileSizeToBytes "1byte" = Err "unsupported unit: byte" /\
   SizeParser.fileSizeToBytes "1TB" = Err "unsupported unit: tb").
Proof.
  split; [split|split].
  - intros H. apply (proj1 (FindStringSubmatch_sizeRegex "1kilobyte")) in H.
    now apply H.
  - vm_compute. repeat split.
  - apply (proj1 (FindStringSubmatch_sizeRegex "10bytes")). discriminate.
  - vm_compute. repeat split.
Qed.

(* ================================================================== *)
(** * Part III: further properties of the code                         *)
(* ================================================================== *)

(** ** The byte ranges of the parts (main.go, lines 215-220) *)

Lemma part_range_exact (partSize fileSize n i : Z) :
  0 <= fileSize -> 0 < partSize -> fileSize + partSize < 2 ^ 63 ->
  (n - 1) * partSize < fileSize <= n * partSize -> 0 <= i < n ->
  part_range partSize fileSize i
  = (i * partSize, Z.min ((i + 1) * partSize) fileSize).
Proof.
  intros Hf Hp Hsum Hn Hi. unfold part_range, Go.mul64, Go.add64.
  assert (Hstart : 0 <= i * partSize < fileSize) by nia.
  rewrite (wrap64_id (i * partSize)) by (unfold Go.in_int64; lia).
  rewrite wrap64_id by (unfold Go.in_int64; lia).
  replace ((i + 1) * partSize) with (i * partSize + partSize) by ring.
  destruct (Z.gtb_spec (i * partSize + partSize) fileSize); f_equal; lia.
Qed.

Lemma total_length_app (l1 l2 : list (Z * (Z * Z))) :
  total_length (l1 ++ l2)%list = total_length l1 + total_length l2.
Proof.
  unfold total_length. induction l1 as [|t l1 IH]; cbn; [reflexivity|].
  fold (total_length (l1 ++ l2)%list) in *. unfold total_length in *. lia.
Qed.

Lemma total_length_prefix (partSize fileSize n : Z) (m : nat) :
  0 <= fileSize -> 0 < partSize -> fileSize + partSize < 2 ^ 63 ->
  (n - 1) * partSize < fileSize <= n * partSize -> Z.of_nat m <= n ->
  total_length
    (map (fun k => let i := Z.of_nat k in (i, part_range partSize fileSize i))
         (seq 0 m))
  = Z.min (Z.of_nat m * partSize) fileSize.
Proof.
  intros Hf Hp Hsum Hn. induction m as [|m IH]; intros Hm.
  - cbn. lia.
  - rewrite seq_S, map_app, total_length_app, IH by lia.
    cbn [map total_length fold_right Nat.add]. unfold task_length. cbn [snd fst].
    rewrite (part_range_exact partSize fileSize n (Z.of_nat m)) by lia.
    cbn [fst snd].
    replace (Z.of_nat (S m)) with (Z.of_nat m + 1) by lia.
    assert (Z.of_nat m * partSize < fileSize) by nia.
    lia.
Qed.

(** The dispatch loop cuts the file into consecutive, non-empty ranges of
    at most [partSize] bytes that cover it exactly: part [i] is
    [[i * partSize, min ((i + 1) * partSize) fileSize)], and the lengths add
    up to [fileSize].  The sizes must leave room for [start + partSize] in
    an [int64]. *)
Theorem part_tasks_partition (partSize fileSize n : Z) :
  0 <= fileSize -> 0 < partSize -> fileSize + partSize < 2 ^ 63 ->
  numParts fileSize partSize = Some n ->
  (forall i start end_,
      In (i, (start, end_)) (part_tasks partSize fileSize n) ->
      0 <= i < n /\ start = i * partSize /\
      end_ = Z.min ((i + 1) * partSize) fileSize /\
      0 <= start < end_ /\ end_ - start <= partSize /\
      (i = n - 1 -> end_ = fileSize)) /\
  map fst (part_tasks partSize fileSize n) = map Z.of_nat (seq 0 (Z.to_nat n)) /\
  total_length (part_tasks partSize fileSize n) = fileSize.
Proof.
  intros Hf Hp Hsum Hn.
  destruct (numParts_spec fileSize partSize ltac:(lia) Hp) as (n' & E & Hn0 & Hb).
  rewrite Hn in E. inversion E; subst n'; clear E.
  split; [|split].
  - intros i start end_ Hin. apply in_part_tasks in Hin. cbn [fst snd] in Hin.
    destruct Hin as (Hi & Hr).
    rewrite (part_range_exact partSize fileSize n i) in Hr by assumption.
    inversion Hr; subst. repeat split; try lia; nia.
  - unfold part_tasks. rewrite map_map. reflexivity.
  - unfold part_tasks.
    rewrite (total_length_prefix partSize fileSize n) by (try assumption; lia).
    rewrite Z2Nat.id by lia. lia.
Qed.

Lemma part_tasks_partition_witness :
  (0 <= 2500 /\ 0 < 1000 /\ 2500 + 1000 < 2 ^ 63 /\ numParts 2500 1000 = Some 3) /\
  map snd (part_tasks 1000 2500 3) = [(0, 1000); (1000, 2000); (2000, 2500)] /\
  total_length (part_tasks 1000 2500 3) = 2500.
Proof.
  split; [repeat split; try lia; reflexivity|]. split; [reflexivity|].
  apply (part_tasks_partition 1000 2500 3); try lia. reflexivity.
Defined.

(** ** Exact traces of the transport and of paced calls *)

Section ExactTraces.

Context {P : Platform}.


Lemma http_requests_repeat (o : rest.Opts) (k : nat) :
  http_requests (repeat (HttpCall o) k) = repeat o k.
Proof. induction k as [|k IH]; cbn; [reflexivity|]. now rewrite <- IH. Qed.

(** [Call] makes one round trip and returns: with a nil response and the
    error of the round trip, or with the response and an error exactly when
    its status is outside 200..299. *)
Lemma Call_run (opts : rest.Opts) (s : state) :
  let '(w, r) := Do (world s) (on_the_wire opts) in
  Call opts s =
    (mkState w (HttpCall opts :: trace s),
     Done (match r with
           | Err e => (None, Some e)
           | Ok resp =>
               (Some resp,
                if (rest.StatusCode resp <? 200) || (299 <? rest.StatusCode resp)
                then Some (if String.eqb (rest.ErrorText resp) ""
                           then "http error " ++ Go.FormatInt (rest.StatusCode resp)
                                  ++ ": " ++ rest.Status resp
                           else rest.ErrorText resp)
                else None)
           end)).
Proof.
  unfold Call, bind, emit, http_Do, on_the_wire. cbn [world trace].
  destruct (Do (world s) _) as [w [resp|e]]; [|reflexivity].
  now destruct ((rest.StatusCode resp <? 200) || (299 <? rest.StatusCode resp)).
Qed.

Lemma CallJSON_trace {T} opts request decode (target : T) (s : state) :
  trace (fst (CallJSON opts request decode target s))
    = HttpCall (with_request opts request) :: trace s /\
  exists r, snd (CallJSON opts request decode target s) = Done r.
Proof.
  unfold CallJSON, bind.
  pose proof (Call_run (with_request opts request) s) as Hc.
  destruct (Do (world s) _) as [w r]. rewrite Hc.
  destruct r as [resp|e]; cbn.
  - destruct ((rest.StatusCode resp <? 200) || (299 <? rest.StatusCode resp)).
    + split; [reflexivity|eexists; reflexivity].
    + destruct decode as [dec|]; [destruct (dec resp)|]; cbn;
        (split; [reflexivity|eexists; reflexivity]).
  - split; [reflexivity|eexists; reflexivity].
Qed.

Lemma pacer_retries_pos : (1 <= pacer_retries)%nat.
Proof.
  unfold pacer_retries. destruct (Z.leb_spec LowLevelRetries 0); lia.
Qed.

Lemma pacer_loop_trace {V} (e : event)
    (fn : V -> M (V * (bool * option error))) :
  (forall v s, trace (fst (fn v s)) = e :: trace s /\
               exists r, snd (fn v s) = Done r) ->
  forall tries v err s,
  exists k,
    (k <= tries)%nat /\ (0 < tries -> 0 < k)%nat /\
    trace (fst (pacer_loop tries fn v err s)) = (repeat e k ++ trace s)%list /\
    exists r, snd (pacer_loop tries fn v err s) = Done r.
Proof.
  intros Hfn tries. induction tries as [|tries IH]; intros v err s.
  - exists 0%nat. cbn. repeat split; try lia. eauto.
  - cbn [pacer_loop]. unfold bind.
    destruct (Hfn v s) as (Ht & r & Hr).
    destruct (fn v s) as [s1 o]. cbn [fst snd] in Ht, Hr. subst o.
    destruct r as [v' [retry err']]. destruct retry.
    + destruct (IH v' err' s1) as (k & Hk & _ & Htr & Hdone).
      exists (S k). repeat split; try lia; [|exact Hdone].
      rewrite Htr, Ht. change (e :: trace s) with ([e] ++ trace s)%list.
      now rewrite app_assoc, <- repeat_cons.
    + exists 1%nat. cbn. repeat split; try lia; [now rewrite Ht|eauto].
Qed.

(** A paced call always returns; it makes the same request at least once
    and at most as often as the pacer retries. *)
Lemma paced_call_trace (opts : rest.Opts) (request : option rest.body) (s : state) :
  exists k err,
    (1 <= k <= pacer_retries)%nat /\
    trace (fst (paced_call opts request s))
      = (repeat (HttpCall (with_request opts request)) k ++ trace s)%list /\
    snd (paced_call opts request s) = Done err.
Proof.
  unfold paced_call, pacer_Call, bind.
  destruct (pacer_loop_trace (HttpCall (with_request opts request))
              (fun _ : unit =>
                 bind (CallJSON opts request None tt)
                   (fun x => let '(resp, err, _) := x in
                             bind ctx_err (fun ctxErr =>
                               ret (tt, shouldRetry ctxErr resp err))))
              ) with (tries := pacer_retries) (v := tt) (err := @None error) (s := s)
    as (k & Hk & Hpos & Htr & r & Hr).
  - intros [] s0. unfold bind.
    destruct (CallJSON_trace opts request None tt s0) as (Ht & r & Hr).
    destruct (CallJSON opts request None tt s0) as [s1 o].
    cbn [fst snd] in Ht, Hr. subst o. destruct r as [[resp err] []].
    cbn. split; [exact Ht|eauto].
  - pose proof pacer_retries_pos as Hpr.
    destruct (pacer_loop pacer_retries _ tt None s) as [s1 o].
    cbn [fst snd] in Htr, Hr. subst o. destruct r as [[] err].
    exists k, err. cbn. repeat split; try lia. exact Htr.
Qed.

End ExactTraces.

(** ** What [CallJSON] returns (rest/rest.go, lines 271-290 and 391-435) *)



(** ** One part upload (main.go, lines 225-282) *)



(** ** The concurrent phase (main.go, lines 215-288) *)

Section ConcurrentPhase.

Context {P : Platform}.

Variables (u : Uploader.t) (f : LocalFile).
Variables (filePath fileName uploadURL : string) (n : Z).

Local Abbreviation opts_of :=
  (fun t : Z * (Z * Z) =>
     part_opts u filePath fileName uploadURL n (fst t) (fst (snd t)) (snd (snd t))).




End ConcurrentPhase.


(** ** Finalize, then discard the session (main.go, lines 290-337) *)

Section FinishPhase.

Context {P : Platform}.

Variables (u : Uploader.t) (filePath destDir : string) (f : LocalFile).

Let fileName := filepath_Base filePath.
Let uploadURL := upload_url fileName destDir (f_size f).

Lemma finish_upload_trace (n : Z) (received : list UploadPartOut.t) (s : state) :
  let finalize :=
    HttpCall (with_request finalize_opts
                (Some (rest.JsonFilePayload (payload_of filePath destDir f received)))) in
  exists kf kd err s',
    finish_upload fileName destDir (f_mime f) uploadURL (f_size f) n None received s
      = (s', Done err) /\
    trace s' = (repeat (HttpCall (delete_opts uploadURL)) kd
                ++ repeat finalize kf ++ trace s)%list /\
    (kf <= pacer_retries /\ kd <= pacer_retries)%nat /\
    (0 < kd -> 0 < kf)%nat /\
    (err = None -> 0 < kf /\ 0 < kd)%nat.
Proof.
  intros finalize. unfold finish_upload. rewrite length_map.
  destruct (negb _).
  { exists 0%nat, 0%nat, (Some ("upload failed: " ++ fileName)), s.
    repeat split; try lia; discriminate. }
  unfold bind.
  destruct (paced_call_trace finalize_opts
              (Some (rest.JsonFilePayload (payload_of filePath destDir f received))) s)
    as (kf & e1 & Hkf & Ht1 & Hr1).
  fold finalize in Ht1. unfold payload_of in Ht1, Hr1. fold fileName in Ht1, Hr1.
  destruct (paced_call finalize_opts _ s) as [s1 o1].
  cbn [fst snd] in Ht1, Hr1. subst o1.
  destruct e1 as [e1|].
  { exists kf, 0%nat, (Some e1), s1. cbn [repeat app].
    repeat split; try lia; try discriminate. exact Ht1. }
  destruct (paced_call_trace (delete_opts uploadURL) None s1)
    as (kd & e2 & Hkd & Ht2 & Hr2).
  change (with_request (delete_opts uploadURL) None)
    with (delete_opts uploadURL) in Ht2.
  destruct (paced_call (delete_opts uploadURL) None s1) as [s2 o2].
  cbn [fst snd] in Ht2, Hr2. subst o2.
  exists kf, kd, e2, s2.
  split; [now destruct e2|]. split; [now rewrite Ht2, Ht1|].
  repeat split; lia.
Qed.

End FinishPhase.

Lemma part_event_not_delete (u : Uploader.t) (filePath fileName uploadURL : string)
    (n : Z) (t : Z * (Z * Z)) (e : event) :
  part_event_of u filePath fileName uploadURL n t e -> is_delete e = false.
Proof.
  intros [H| ->]; [destruct e; [discriminate|reflexivity]|reflexivity].
Qed.

(** In every run of [uploadFile] the requests come in three stages: first
    the part requests (and log lines), then the finalize requests, then the
    requests that discard the session.  So the session is discarded only
    after the file was finalized, and no part is uploaded after a finalize
    request.  A run that got past the first read and returns nil has made
    both a finalize request and a discard request. *)
Theorem uploadFile_stages {P : Platform} (u : Uploader.t)
    (filePath destDir : string) (f : LocalFile) (s : state) :
  let run := uploadFile u filePath destDir f s in
  exists discards finalizes parts,
    trace (fst run) = (discards ++ finalizes ++ parts ++ trace s)%list /\
    Forall (fun e => is_delete e = true) discards /\
    Forall (fun e => is_finalize e = true) finalizes /\
    Forall (fun e => is_finalize e = false /\ is_delete e = false) parts /\
    (discards <> [] -> finalizes <> []) /\
    (f_read f = None -> snd run = Done None ->
     finalizes <> [] /\ discards <> []).
Proof.
  intros run. subst run.
  destruct (f_open f) as [e|] eqn:Ho.
  { unfold uploadFile. rewrite Ho. exists [], [], []. cbn.
    repeat split; try constructor; try congruence; try discriminate. }
  destruct (f_read f) as [e|] eqn:Hr.
  { unfold uploadFile. rewrite Ho, Hr.
    exists [], [], [LogLine "ERROR" ("Error reading file: " ++ e)].
    split; [reflexivity|]. split; [constructor|]. split; [constructor|].
    split; [now repeat constructor|]. split; [congruence|]. discriminate. }
  destruct (numParts (f_size f) (Uploader.partSize u)) as [n|] eqn:Hn.
  2:{ unfold uploadFile. rewrite Ho, Hr, Hn. exists [], [], []. cbn.
      repeat split; try constructor; try congruence; try discriminate. }
  rewrite (uploadFile_phases u filePath destDir f n Ho Hr Hn). unfold bind.
  set (fileName := filepath_Base filePath).
  set (uploadURL := upload_url fileName destDir (f_size f)).
  destruct (upload_parts u f filePath fileName uploadURL (f_size f) n s)
    as [s1 o1] eqn:E1.
  destruct (emits_upload_parts u f filePath fileName uploadURL n (f_size f) s s1 o1 E1)
    as (new1 & Ht1 & Hn1).
  assert (Hparts : Forall (fun e => is_finalize e = false /\ is_delete e = false) new1).
  { eapply Forall_impl; [|exact Hn1]. intros e (t & _ & He). split.
    - eapply part_event_not_finalize; exact He.
    - eapply part_event_not_delete; exact He. }
  destruct o1 as [received| | |].
  2-4: exists [], [], new1; cbn [fst snd app];
       (repeat split; try constructor; try congruence; try discriminate; auto).
  destruct (finish_upload_trace filePath destDir f n received s1)
    as (kf & kd & err & s2 & Hrun & Ht2 & _ & Hord & Hnil).
  fold fileName uploadURL in Hrun, Ht2. rewrite Hrun. cbn [fst snd].
  exists (repeat (HttpCall (delete_opts uploadURL)) kd),
         (repeat (HttpCall (with_request finalize_opts
                    (Some (rest.JsonFilePayload
                             (payload_of filePath destDir f received))))) kf),
         new1.
  split; [now rewrite Ht2, Ht1|].
  split; [apply Forall_forall; intros e He; apply repeat_spec in He; now subst|].
  split; [apply Forall_forall; intros e He; apply repeat_spec in He; now subst|].
  split; [exact Hparts|].
  split.
  - intros Hd Hf. destruct kd; [now apply Hd|]. destruct kf; [lia|discriminate].
  - intros _ E. inversion E; subst err. destruct (Hnil eq_refl) as (Hf & Hd).
    destruct kf, kd; try lia. split; discriminate.
Qed.

Lemma uploadFile_stages_witness :
  let run := uploadFile (P := Fixture.platform) Fixture.uploader "a.bin" "/dst"
               (Fixture.file 2500) (Fixture.start []) in
  (f_read (Fixture.file 2500) = None /\ snd run = Done None) /\
  map rest.Method (rev (http_requests (trace (fst run))))
    = ["POST"; "POST"; "POST"; "POST"; "DELETE"] /\
  existsb is_finalize (trace (fst run)) = true /\
  existsb is_delete (trace (fst run)) = true.
Proof.
  intros run. split; [split; reflexivity|]. split; [reflexivity|].
  destruct (uploadFile_stages (P := Fixture.platform) Fixture.uploader "a.bin"
              "/dst" (Fixture.file 2500) (Fixture.start []))
    as (discards & finalizes & parts & Ht & Hd & Hf & _ & _ & Hnil).
  cbn zeta in Ht, Hnil. fold run in Ht, Hnil.
  destruct (Hnil eq_refl eq_refl) as (Hfne & Hdne).
  rewrite Ht. rewrite !existsb_app.
  destruct discards as [|d discards]; [contradiction|].
  destruct finalizes as [|x finalizes]; [contradiction|].
  inversion Hd; subst. inversion Hf; subst. cbn [existsb].
  split.
  - match goal with H : is_finalize x = true |- _ => rewrite H end.
    cbn. now rewrite orb_true_r.
  - match goal with H : is_delete d = true |- _ => rewrite H end. reflexivity.
Defined.

(** ** [checkFileExists] (main.go, lines 423-430) *)

(** [checkFileExists] answers true exactly when some entry of the listing
    has the very name asked for (byte for byte, whatever the entry's
    type). *)
Theorem checkFileExists_spec (name : string) (files : list FileInfo.t) :
  checkFileExists name files = true <-> In name (map FileInfo.Name files).
Proof.
  induction files as [|item files IH]; cbn.
  - split; [discriminate|contradiction].
  - destruct (String.eqb_spec (FileInfo.Name item) name) as [E|E].
    + split; [now left|reflexivity].
    + rewrite IH. split; [now right|]. intros [H|H]; [contradiction|exact H].
Qed.

(** ** [createRemoteDir] (main.go, lines 339-362) *)

(** [createRemoteDir] always returns.  It makes one and the same request,
    at least once and at most as often as the pacer retries: a
    [POST /api/files/makedir] whose JSON body holds a path that begins with
    a slash, namely the path given if that begins with a slash and the
    path given behind a slash otherwise. *)
Theorem createRemoteDir_request {P : Platform} (path : string) (s : state) :
  exists p k err s',
    createRemoteDir path s = (s', Done err) /\
    (1 <= k <= pacer_retries)%nat /\
    trace s' = (repeat (HttpCall (makedir_request p)) k ++ trace s)%list /\
    (exists r, p = String "/" r) /\
    (forall r, path = String "/" r -> p = path) /\
    ((forall r, path <> String "/" r) -> p = "/" ++ path).
Proof.
  unfold createRemoteDir.
  set (p := match path with String "/" _ => path | _ => "/" ++ path end).
  assert (Hp : (exists r, p = String "/" r) /\
               (forall r, path = String "/" r -> p = path) /\
               ((forall r, path <> String "/" r) -> p = "/" ++ path)).
  { unfold p. destruct path as [|c r].
    - split; [now exists ""|]. split; [discriminate|reflexivity].
    - destruct (Ascii.ascii_dec "/" c) as [<-|Hc].
      + split; [now exists r|]. split; [reflexivity|].
        intros H. now contradiction (H r).
      + assert (Hm : match String c r with
                     | String "/" _ => String c r
                     | _ => "/" ++ String c r
                     end = "/" ++ String c r).
        { destruct c as [[] [] [] [] [] [] [] []]; try reflexivity.
          now contradiction Hc. }
        rewrite Hm. split; [now exists (String c r)|].
        split; [|reflexivity].
        intros r' E. injection E as E _. now contradiction Hc. }
  unfold bind.
  destruct (paced_call_trace
              (rest.mkOpts "POST" "/api/files/makedir" [] rest.NoBody None "")
              (Some (rest.JsonCreateDir (CreateDirRequest.mk p))) s)
    as (k & err & Hk & Ht & Hr).
  destruct (paced_call _ _ s) as [s1 o]. cbn [fst snd] in Ht, Hr. subst o.
  exists p, k, err, s1.
  split; [now destruct err|]. split; [exact Hk|]. split; [exact Ht|].
  exact Hp.
Qed.

(** ** [readMetaDataForPath] (main.go, lines 364-396) *)

Section ListingRequests.

Context {P : Platform}.

(** The last try of a pacer loop decides what the loop returns. *)
Lemma pacer_loop_last {V} (e : event)
    (fn : V -> M (V * (bool * option error))) :
  (forall v s, trace (fst (fn v s)) = e :: trace s /\
               exists r, snd (fn v s) = Done r) ->
  forall tries v err s, (0 < tries)%nat ->
  exists k v0 s0 s' v' retry err',
    (1 <= k <= tries)%nat /\
    trace s0 = (repeat e (k - 1) ++ trace s)%list /\
    fn v0 s0 = (s', Done (v', (retry, err'))) /\
    pacer_loop tries fn v err s = (s', Done (v', err')).
Proof.
  intros Hfn tries. induction tries as [|tries IH]; intros v err s Hpos; [lia|].
  cbn [pacer_loop]. unfold bind.
  destruct (Hfn v s) as (Ht & r & Hr).
  destruct (fn v s) as [s1 o] eqn:Hrun. cbn [fst snd] in Ht, Hr. subst o.
  destruct r as [v' [retry err']]. destruct retry.
  - destruct tries as [|tries'].
    + exists 1%nat, v, s, s1, v', true, err'. cbn.
      repeat split; try lia. exact Hrun.
    + destruct (IH v' err' s1 ltac:(lia))
        as (k & v0 & s0 & s' & v'' & retry & err'' & Hk & Htr & Hlast & Hloop).
      exists (S k), v0, s0, s', v'', retry, err''.
      split; [lia|]. split; [|split; [exact Hlast|exact Hloop]].
      rewrite Htr, Ht. replace (S k - 1)%nat with (S (k - 1)) by lia.
      change (e :: trace s) with ([e] ++ trace s)%list.
      now rewrite app_assoc, <- repeat_cons.
  - exists 1%nat, v, s, s1, v', false, err'. cbn.
    repeat split; try lia. exact Hrun.
Qed.

(** One try of [readMetaDataForPath], from the round trip it makes. *)
Lemma listing_try (path : string) (options : MetadataRequestOptions.t)
    (v : option rest.Response * ReadMetadataResponse.t) (s : state) :
  let opts := list_opts path options in
  let '(w, r) := Do (world s) opts in
  let answer :=
    match r with
    | Err e => (None, Some e, snd v)
    | Ok resp =>
        if (rest.StatusCode resp <? 200) || (299 <? rest.StatusCode resp)
        then (Some resp,
              Some (if String.eqb (rest.ErrorText resp) ""
                    then "http error " ++ Go.FormatInt (rest.StatusCode resp)
                           ++ ": " ++ rest.Status resp
                    else rest.ErrorText resp),
              snd v)
        else match rest.as_listing resp with
             | Ok info => (Some resp, None, info)
             | Err e => (Some resp, Some e, snd v)
             end
    end in
  bind (CallJSON opts None (Some rest.as_listing) (snd v))
       (fun x => let '(resp, err, info) := x in
                 bind ctx_err (fun ctxErr =>
                   ret ((resp, info), shouldRetry ctxErr resp err))) s
  = (mkState w (HttpCall opts :: trace s),
     Done ((fst (fst answer), snd answer),
           shouldRetry (ctx_Err w) (fst (fst answer)) (snd (fst answer)))).
Proof.
  intros opts. unfold CallJSON, bind.
  pose proof (Call_run (with_request opts None) s) as Hc.
  change (on_the_wire (with_request opts None)) with opts in Hc.
  change (with_request opts None) with opts in *.
  destruct (Do (world s) opts) as [w r]. rewrite Hc. clear Hc.
  destruct r as [resp|e]; cbn; [|reflexivity].
  destruct ((rest.StatusCode resp <? 200) || (299 <? rest.StatusCode resp));
    cbn; [reflexivity|].
  destruct (rest.as_listing resp); reflexivity.
Qed.

End ListingRequests.

(** [readMetaDataForPath], run: the tries and the outcome of the last. *)
Lemma readMetaDataForPath_run {P : Platform} (path : string)
    (options : MetadataRequestOptions.t) (s : state) :
  exists k s0 w r,
    (1 <= k <= pacer_retries)%nat /\
    trace s0 = (repeat (HttpCall (list_opts path options)) (k - 1) ++ trace s)%list /\
    Do (world s0) (list_opts path options) = (w, r) /\
    readMetaDataForPath path options s
    = (mkState w (repeat (HttpCall (list_opts path options)) k ++ trace s)%list,
       listing_outcome (ctx_Err w) r).
Proof.
  unfold readMetaDataForPath, pacer_Call.
  set (opts := list_opts path options).
  set (fn := fun v : option rest.Response * ReadMetadataResponse.t =>
               bind (CallJSON opts None (Some rest.as_listing) (snd v))
                 (fun x => let '(resp, err, info) := x in
                           bind ctx_err (fun ctxErr =>
                             ret ((resp, info), shouldRetry ctxErr resp err)))).
  assert (Hfn : forall v s, trace (fst (fn v s)) = HttpCall opts :: trace s /\
                            exists r, snd (fn v s) = Done r).
  { intros v s1. unfold fn. pose proof (listing_try path options v s1) as H.
    fold opts in H. cbv zeta in H. destruct (Do (world s1) opts) as [w r].
    rewrite H. split; [reflexivity|eexists; reflexivity]. }
  destruct (pacer_loop_last (HttpCall opts) fn Hfn pacer_retries
              (None, ReadMetadataResponse.zero) None s pacer_retries_pos)
    as (k & v0 & s0 & s' & v' & retry & err' & Hk & Htr & Hlast & Hloop).
  unfold bind at 1. fold fn. rewrite Hloop. clear Hloop.
  unfold fn in Hlast. pose proof (listing_try path options v0 s0) as H.
  fold opts in H. cbv zeta in H.
  destruct (Do (world s0) opts) as [w r] eqn:HDo. rewrite H in Hlast. clear H.
  exists k, s0, w, r. split; [exact Hk|]. split; [exact Htr|].
  split; [exact HDo|].
  assert (Hs : s' = mkState w (repeat (HttpCall opts) k ++ trace s)%list).
  { injection Hlast as Hs _. rewrite <- Hs, Htr.
    destruct k as [|k']; [lia|]. cbn. now rewrite Nat.sub_0_r. }
  rewrite <- Hs. clear Hs.
  injection Hlast as _ Hv Hretry.
  unfold listing_outcome, shouldRetry, fserrors.ContextError in *.
  destruct r as [resp|e].
  - destruct ((rest.StatusCode resp <? 200) || (299 <? rest.StatusCode resp))
      eqn:Hbad.
    + cbn [fst snd] in Hv, Hretry. subst v'. fold (status_error resp) in Hretry.
      destruct (ctx_Err w); inversion Hretry; subst err';
        now destruct (rest.StatusCode resp =? 404).
    + apply Bool.orb_false_iff in Hbad. destruct Hbad as [Hlo Hhi].
      apply Z.ltb_ge in Hlo, Hhi.
      assert (H404 : (rest.StatusCode resp =? 404) = false)
        by (apply Z.eqb_neq; lia).
      destruct (rest.as_listing resp) as [decoded|e];
        cbn [fst snd] in Hv, Hretry; subst v';
        destruct (ctx_Err w); inversion Hretry; subst err';
        cbn; now rewrite ?H404.
  - cbn [fst snd] in Hv, Hretry. subst v'.
    destruct (ctx_Err w); inversion Hretry; subst err'; reflexivity.
Qed.

(** [readMetaDataForPath] makes one and the same request, at least once and
    at most as often as the pacer retries, and what it does then depends on
    the last round trip alone:
    - when that round trip failed, so that there is no response, the
      function does not return the error: it panics on a nil pointer;
    - when the response has status 404, it returns the error
      [fs.ErrorDirNotFound];
    - it returns a listing exactly when the response has a status in
      200..299, its body decodes to that listing and the context is not
      done; with a response it returns in every other case an error and no
      listing. *)
Theorem readMetaDataForPath_outcomes {P : Platform} (path : string)
    (options : MetadataRequestOptions.t) (s : state) :
  exists k s0 s' o,
    readMetaDataForPath path options s = (s', o) /\
    (1 <= k <= pacer_retries)%nat /\
    trace s0 = (repeat (HttpCall (list_opts path options)) (k - 1) ++ trace s)%list /\
    trace s' = (repeat (HttpCall (list_opts path options)) k ++ trace s)%list /\
    world s' = fst (Do (world s0) (list_opts path options)) /\
    match snd (Do (world s0) (list_opts path options)) with
    | Err _ => o = Panic nil_dereference
    | Ok resp =>
        (rest.StatusCode resp = 404 -> o = Done (None, Some fs_ErrorDirNotFound)) /\
        ((exists e, o = Done (None, Some e)) \/
         (exists info, o = Done (Some info, None))) /\
        (forall info,
           o = Done (Some info, None) <->
           200 <= rest.StatusCode resp <= 299 /\
           rest.as_listing resp = Ok info /\
           ctx_Err (world s') = None)
    end.
Proof.
  destruct (readMetaDataForPath_run path options s)
    as (k & s0 & w & r & Hk & Htr & HDo & Hrun).
  eexists k, s0, _, _. split; [exact Hrun|]. split; [exact Hk|].
  split; [exact Htr|]. split; [reflexivity|]. rewrite HDo. cbn [fst snd world].
  split; [reflexivity|].
  destruct r as [resp|e]; [|reflexivity].
  unfold listing_outcome.
  destruct (Z.ltb_spec (rest.StatusCode resp) 200) as [Hlo|Hlo];
    [|destruct (Z.ltb_spec 299 (rest.StatusCode resp)) as [Hhi|Hhi]];
    cbn [orb].
  - destruct (Z.eqb_spec (rest.StatusCode resp) 404); [lia|].
    split; [lia|]. split; [left; eauto|].
    intros info. split; [discriminate|lia].
  - destruct (Z.eqb_spec (rest.StatusCode resp) 404).
    + split; [reflexivity|]. split; [left; eauto|].
      intros info. split; [discriminate|lia].
    + split; [contradiction|]. split; [left; eauto|].
      intros info. split; [discriminate|lia].
  - split; [lia|].
    destruct (rest.as_listing resp) as [decoded|e]; [destruct (ctx_Err w) as [ce|]|].
    + split; [left; eauto|]. intros info.
      split; [discriminate|]. intros (_ & _ & H). discriminate.
    + split; [right; eauto|]. intros info. split.
      * intros E. inversion E. repeat split; lia.
      * intros (_ & E & _). now inversion E.
    + split; [left; eauto|]. intros info.
      split; [discriminate|]. intros (_ & H & _). discriminate.
Qed.

(** ** [list] (main.go, lines 398-421) *)

Lemma list_pages_requests {P : Platform} (fuel : nat) (path : string) :
  forall (s : state) (token : string) (files : list FileInfo.t) s' o,
  list_pages fuel path files token s = (s', o) ->
  exists new,
    trace s' = (new ++ trace s)%list /\
    Forall (fun e => exists token, e = HttpCall (page_request path token)) new /\
    (fuel <> 0%nat ->
     exists later, new = (later ++ [HttpCall (page_request path token)])%list) /\
    (forall fs e, o = Done (fs, Some e) -> fs = []).
Proof.
  induction fuel as [|fuel IH]; intros s token files s' o.
  - cbn. intros E. inversion E. exists [].
    repeat split; [constructor|congruence|discriminate].
  - cbn [list_pages]. unfold bind at 1.
    destruct (readMetaDataForPath_run path
                (MetadataRequestOptions.mk 500 "" "" token) s)
      as (k & s0 & w & r & Hk & _ & _ & Hrun).
    rewrite Hrun. clear Hrun.
    change (list_opts path (MetadataRequestOptions.mk 500 "" "" token))
      with (page_request path token).
    assert (Hrep : Forall (fun e => exists token, e = HttpCall (page_request path token))
                     (repeat (HttpCall (page_request path token)) k)).
    { apply Forall_forall. intros e He. apply repeat_spec in He. eauto. }
    assert (Hfirst : exists later,
               repeat (HttpCall (page_request path token)) k
               = (later ++ [HttpCall (page_request path token)])%list).
    { destruct k as [|k']; [lia|]. exists (repeat (HttpCall (page_request path token)) k').
      now rewrite <- repeat_cons. }
    destruct (listing_outcome (ctx_Err w) r) as [[info err]|msg|code|];
      try (intros E; inversion E;
           exists (repeat (HttpCall (page_request path token)) k);
           split; [reflexivity|]; split; [exact Hrep|];
           split; [intros _; exact Hfirst|discriminate]).
    destruct err as [e|]; [|destruct info as [info|]].
    + intros E; inversion E.
      exists (repeat (HttpCall (page_request path token)) k).
      split; [reflexivity|]. split; [exact Hrep|].
      split; [intros _; exact Hfirst|].
      intros fs e' E'. congruence.
    + destruct (String.eqb (ReadMetadataResponse.NextPageToken info) "").
      * intros E; inversion E.
        exists (repeat (HttpCall (page_request path token)) k).
        split; [reflexivity|]. split; [exact Hrep|].
        split; [intros _; exact Hfirst|discriminate].
      * intros Hrest.
        destruct (IH _ _ _ _ _ Hrest) as (new & Htr & Hall & _ & Herr).
        exists (new ++ repeat (HttpCall (page_request path token)) k)%list.
        split; [rewrite Htr; cbn; now rewrite app_assoc|].
        split; [apply Forall_app; now split|].
        split; [|exact Herr].
        intros _. destruct Hfirst as (later & ->).
        exists (new ++ later)%list. now rewrite app_assoc.
    + intros E; inversion E.
      exists (repeat (HttpCall (page_request path token)) k).
      split; [reflexivity|]. split; [exact Hrep|].
      split; [intros _; exact Hfirst|discriminate].
Qed.

(** Every request [list] makes is a [GET /api/files] for the path asked
    about, in pages of 500 sorted by name in ascending order; the first one
    carries the empty page token.  When a page cannot be fetched, [list]
    returns the error and no file, also none of the pages fetched
    before. *)
Theorem list_requests {P : Platform} (fuel : nat) (path : string) (s : state) :
  exists new,
    trace (fst (list_ fuel path s)) = (new ++ trace s)%list /\
    Forall (fun e => exists token, e = HttpCall (page_request path token)) new /\
    (fuel <> 0%nat ->
     exists later, new = (later ++ [HttpCall (page_request path "")])%list) /\
    (forall files e, snd (list_ fuel path s) = Done (files, Some e) -> files = []).
Proof.
  unfold list_. destruct (list_pages fuel path [] "" s) as [s' o] eqn:Hrun.
  exact (list_pages_requests fuel path s "" [] s' o Hrun).
Qed.

Lemma list_requests_witness :
  exists new,
    trace (fst (list_ (P := Fixture.platform) 1 "dst" (Fixture.start [])))
    = (new ++ trace (Fixture.start []))%list /\
    exists later, new = (later ++ [HttpCall (page_request "dst" "")])%list.
Proof.
  destruct (list_requests (P := Fixture.platform) 1 "dst" (Fixture.start []))
    as (new & Htr & _ & Hfirst & _).
  exists new. split; [exact Htr|]. apply Hfirst. discriminate.
Defined.

(** ** [uploadFilesInDirectory] (main.go, lines 432-472) *)

(** The only errors [uploadFilesInDirectory] returns are those of reading
    the source directory and of listing the destination, both before the
    first entry is walked: when it returns an error, either [os.ReadDir]
    failed and nothing was done at all, or the listing failed and the
    requests made are those of the listing.  What goes wrong at an entry
    never reaches the caller as an error. *)
Theorem walk_errors_come_before_the_entries {P : Platform} (fuel : nat)
    (u : Uploader.t) (sourcePath destDir : string) (read_err : option error)
    (entries : list node) (s s' : state) (e : error) :
  uploadFilesInDirectory fuel u sourcePath destDir read_err entries s
    = (s', Done (Some e)) ->
  (read_err = Some e /\ s' = s) \/
  (read_err = None /\
   list_ fuel (backslashes_to_slashes destDir) s = (s', Done ([], Some e)) /\
   exists new,
     trace s' = (new ++ trace s)%list /\
     Forall (fun ev => exists token,
               ev = HttpCall (page_request (backslashes_to_slashes destDir) token))
            new).
Proof.
  unfold uploadFilesInDirectory, walk_directory.
  destruct read_err as [re|].
  - intros E. inversion E. now left.
  - unfold bind at 1.
    destruct (list_ fuel (backslashes_to_slashes destDir) s) as [s1 o] eqn:Hlist.
    destruct (list_pages_requests fuel (backslashes_to_slashes destDir) s "" []
                s1 o Hlist)
      as (new & Htr & Hall & _ & Herr).
    destruct o as [[files err]|msg|code|]; try discriminate.
    destruct err as [e'|].
    + intros E. inversion E; subst. right. split; [reflexivity|].
      rewrite (Herr files e eq_refl). split; [reflexivity|].
      exists new. now split.
    + unfold bind.
      destruct (for_each _ entries s1) as [s2 [[]|msg|code|]]; discriminate.
Qed.

Lemma walk_errors_come_before_the_entries_witness :
  uploadFilesInDirectory (P := Fixture.platform) 1 Fixture.uploader "src" "dst"
    (Some "open src: no such file or directory")
    [File "a.txt" (Fixture.file 10)] (Fixture.start [])
  = (Fixture.start [], Done (Some "open src: no such file or directory")) /\
  ((Some "open src: no such file or directory"
    = Some "open src: no such file or directory" /\
    Fixture.start [] = Fixture.start []) \/
   (Some "open src: no such file or directory" = None /\
    list_ (P := Fixture.platform) 1 (backslashes_to_slashes "dst") (Fixture.start [])
    = (Fixture.start [], Done ([], Some "open src: no such file or directory")) /\
    exists new,
      trace (Fixture.start []) = (new ++ trace (Fixture.start []))%list /\
      Forall (fun ev => exists token,
                ev = HttpCall (page_request (backslashes_to_slashes "dst") token))
             new)).
Proof.
  split; [reflexivity|].
  apply (walk_errors_come_before_the_entries (P := Fixture.platform) 1
           Fixture.uploader "src" "dst" _ [File "a.txt" (Fixture.file 10)]).
  reflexivity.
Defined.

(** ** The requests of a whole walk *)

Section WalkRequests.

Context {P : Platform}.

Lemma walk_event_quiet (e : event) : is_http_call e = false -> walk_event e.
Proof. destruct e; [discriminate|constructor]. Qed.

Lemma emits_uploadFile (u : Uploader.t) (filePath destDir : string)
    (f : LocalFile) :
  emits walk_event (uploadFile u filePath destDir f).
Proof.
  intros s s' r E.
  destruct (uploadFile_run u filePath destDir f s) as (new & Htr & Hnew).
  rewrite E in Htr. cbn [fst] in Htr. exists new. split; [exact Htr|].
  destruct Hnew as [Hquiet|Hrun].
  - eapply Forall_impl; [|exact Hquiet]. apply walk_event_quiet.
  - destruct Hrun as [n s1 o1 new1 new2 _ _ _ _ _ Hev1 -> Hev2].
    apply Forall_app. split.
    + destruct o1 as [received| | |]; try (subst new2; constructor).
      eapply Forall_impl; [|exact Hev2].
      intros e (_ & [->| ->]); cbn.
      * right. right. left. now split.
      * right. right. right. eexists. split; [reflexivity|now right].
    + eapply Forall_impl; [|exact Hev1].
      intros e (t & _ & [Hq| ->]); [now apply walk_event_quiet|].
      cbn. right. right. right. eexists. split; [reflexivity|now left].
Qed.

Lemma emits_createRemoteDir (path : string) :
  emits walk_event (createRemoteDir path).
Proof.
  unfold createRemoteDir.
  apply emits_bind; [|intros [e|]; apply emits_ret].
  eapply emits_weaken; [|apply emits_paced_call].
  intros e <-. cbn. left. now split.
Qed.

Lemma emits_list (fuel : nat) (path : string) :
  emits walk_event (list_ fuel path).
Proof.
  intros s s' r E.
  destruct (list_pages_requests fuel path s "" [] s' r E)
    as (new & Htr & Hall & _).
  exists new. split; [exact Htr|].
  eapply Forall_impl; [|exact Hall].
  intros e (token & ->). cbn. right. left. now split.
Qed.

Lemma emits_for_each {A} (Q : event -> Prop) (body : A -> M unit) (l : list A) :
  Forall (fun x => emits Q (body x)) l -> emits Q (for_each body l).
Proof.
  induction 1 as [|x l Hx _ IH]; cbn [for_each].
  - apply emits_ret.
  - apply emits_bind; [exact Hx|intros _; exact IH].
Qed.

Lemma emits_walk_directory
    (on_entry : string -> string -> list FileInfo.t -> node -> M unit)
    (fuel : nat) (sourcePath destDir : string) (read_err : option error)
    (entries : list node) :
  Forall (fun entry => forall src dst files,
            emits walk_event (on_entry src dst files entry)) entries ->
  emits walk_event
    (walk_directory on_entry fuel sourcePath destDir read_err entries).
Proof.
  intros Hall. unfold walk_directory.
  destruct read_err as [e|]; [apply emits_ret|].
  apply emits_bind; [apply emits_list|intros [files [e|]]]; [apply emits_ret|].
  apply emits_bind; [|intros _; apply emits_ret].
  apply emits_for_each. eapply Forall_impl; [|exact Hall].
  intros entry H. apply H.
Qed.

Lemma emits_println (logger : list string -> M unit) (operands : list string) :
  logger = Error_Println \/ logger = Info_Println ->
  emits walk_event (logger operands).
Proof. intros [-> | ->]; now apply emits_emit. Qed.

Lemma upload_entry_Dir (fuel : nat) (u : Uploader.t)
    (sourcePath destDir : string) (files : list FileInfo.t)
    (name : string) (read_err : option error) (entries : list node) :
  upload_entry fuel u sourcePath destDir files (Dir name read_err entries)
  = bind (createRemoteDir (backslashes_to_slashes (filepath_Join destDir name)))
      (fun err =>
         bind (match err with
               | Some e => Error_Fatalln [e]
               | None => ret tt
               end)
           (fun _ =>
              bind (uploadFilesInDirectory fuel u (filepath_Join sourcePath name)
                      (backslashes_to_slashes (filepath_Join destDir name))
                      read_err entries)
                   (fun err => Error_Println [show_error err]))).
Proof. reflexivity. Qed.

Lemma emits_upload_entry (fuel : nat) (u : Uploader.t) :
  forall (entry : node) (sourcePath destDir : string) (files : list FileInfo.t),
  emits walk_event (upload_entry fuel u sourcePath destDir files entry).
Proof.
  fix IH 1. intros [name f|name read_err entries] sourcePath destDir files.
  - cbn [upload_entry]. destruct (negb (checkFileExists name files)).
    + apply emits_bind; [apply emits_uploadFile|intros [e|]];
        [apply emits_println; now left|apply emits_ret].
    + apply emits_println; now right.
  - rewrite upload_entry_Dir.
    apply emits_bind; [apply emits_createRemoteDir|intros err].
    apply emits_bind.
    + destruct err as [e|]; [|apply emits_ret].
      unfold Error_Fatalln.
      apply emits_bind; [apply emits_println; now left|intros _].
      apply emits_os_Exit.
    + intros _. apply emits_bind; [|intros err'; apply emits_println; now left].
      apply emits_walk_directory.
      induction entries as [|entry entries IHentries]; constructor.
      * apply IH.
      * exact IHentries.
Qed.

End WalkRequests.

(** Whatever the tree walked and whatever the backend answers, every
    request [uploadFilesInDirectory] makes, at any depth, is one of five:
    [POST /api/files/makedir], [GET /api/files], [POST /api/files], and
    [POST] or [DELETE] on an upload session under [/api/uploads/].  In
    particular the only thing a walk ever deletes is an upload session. *)
Theorem walk_requests {P : Platform} (fuel : nat) (u : Uploader.t)
    (sourcePath destDir : string) (read_err : option error)
    (entries : list node) (s : state) :
  exists new,
    trace (fst (uploadFilesInDirectory fuel u sourcePath destDir read_err entries s))
    = (new ++ trace s)%list /\
    (forall o, In (HttpCall o) new -> walk_request o) /\
    (forall o, In (HttpCall o) new -> rest.Method o = "DELETE" ->
               exists session, rest.Path o = "/api/uploads/" ++ session).
Proof.
  destruct (uploadFilesInDirectory fuel u sourcePath destDir read_err entries s)
    as [s' r] eqn:E.
  assert (H : emits walk_event
                (uploadFilesInDirectory fuel u sourcePath destDir read_err entries)).
  { apply emits_walk_directory. apply Forall_forall. intros entry _ src dst files.
    apply emits_upload_entry. }
  destruct (H s s' r E) as (new & Htr & Hall).
  exists new. split; [exact Htr|].
  rewrite Forall_forall in Hall.
  assert (Hreq : forall o, In (HttpCall o) new -> walk_request o).
  { intros o Hin. exact (Hall _ Hin). }
  split; [exact Hreq|].
  intros o Hin Hdel.
  destruct (Hreq o Hin) as [(Hm & _)|[(Hm & _)|[(Hm & _)|(session & Hp & _)]]];
    try (rewrite Hm in Hdel; discriminate).
  now exists session.
Qed.

(** ** [uploadFile] returns (main.go, lines 155-337) *)



(** ** [loadConfigFromEnv] (main.go, lines 124-142) *)

(** A configuration that [loadConfigFromEnv] returns is the one
    [envconfig.Process] filled in, except that a part size of zero has
    become 1000 MiB (1048576000 bytes).  Its part size is therefore never
    zero, and the part count of [uploadFile] never divides by zero with
    it.  Loading touches neither the backend nor the log. *)
Theorem loadConfigFromEnv_part_size {P : Platform} (dotenv : option error)
    (processed : result Config.t) (config : Config.t) (s s' : state) :
  loadConfigFromEnv dotenv processed s = (s', Done (Ok config)) ->
  s' = s /\
  exists filled,
    processed = Ok filled /\
    Config.ApiURL config = Config.ApiURL filled /\
    Config.SessionToken config = Config.SessionToken filled /\
    Config.Workers config = Config.Workers filled /\
    Config.ChannelID config = Config.ChannelID filled /\
    Config.PartSize config
    = (if Config.PartSize filled =? 0 then 1048576000 else Config.PartSize filled) /\
    Config.PartSize config <> 0 /\
    forall fileSize, numParts fileSize (Config.PartSize config) <> None.
Proof.
  unfold loadConfigFromEnv.
  destruct dotenv as [e|]; [discriminate|].
  destruct processed as [filled|e]; [|discriminate].
  assert (Hnum : forall partSize fileSize,
             partSize <> 0 -> numParts fileSize partSize <> None).
  { intros partSize fileSize Hne. unfold numParts.
    destruct (Z.eqb_spec partSize 0); [contradiction|discriminate]. }
  destruct (Z.eqb_spec (Config.PartSize filled) 0) as [E|E];
    intros H; injection H as Hs Hc; subst s' config;
    (split; [reflexivity|]); exists filled; cbn.
  - do 5 (split; [reflexivity|]). rewrite E. cbn.
    do 2 (split; [easy|]). intros fileSize. discriminate.
  - do 5 (split; [reflexivity|]).
    destruct (Z.eqb_spec (Config.PartSize filled) 0); [contradiction|].
    do 2 (split; [easy|]). intros fileSize. now apply Hnum.
Qed.

Lemma loadConfigFromEnv_part_size_witness :
  let filled := Config.mk "http://localhost" "token" 0 4 7 in
  exists config,
    loadConfigFromEnv (P := Fixture.platform) None (Ok filled) (Fixture.start [])
    = (Fixture.start [], Done (Ok config)) /\
    Config.PartSize config = 1048576000 /\
    numParts 2500 (Config.PartSize config) <> None.
Proof.
  intros filled.
  pose (config := Config.mk "http://localhost" "token" 1048576000 4 7).
  assert (Hrun : loadConfigFromEnv (P := Fixture.platform) None (Ok filled)
                   (Fixture.start [])
                 = (Fixture.start [], Done (Ok config))) by reflexivity.
  destruct (loadConfigFromEnv_part_size (P := Fixture.platform) None (Ok filled)
              config (Fixture.start []) (Fixture.start []) Hrun)
    as (_ & filled' & _ & _ & _ & _ & _ & _ & _ & Hnum).
  exists config. split; [exact Hrun|]. split; [reflexivity|apply Hnum].
Defined.

(** ** [main] (main.go, lines 474-533) *)

(** [main] makes no request before both flags are given and the
    configuration is loaded: with an empty [-path] or [-dest] it prints the
    usage line and returns, without looking at the configuration; when
    [upload.env] cannot be loaded it logs the error and exits with
    status 1; when the environment cannot be processed it panics. *)
Theorem main_needs_flags_and_configuration {P : Platform} (fuel : nat)
    (sourcePath destDir : string) (dotenv : option error)
    (processed : result Config.t) (source : stat) (s : state) :
  ((sourcePath = "" \/ destDir = "") ->
   main fuel sourcePath destDir dotenv processed source s
   = (mkState (world s) (LogLine "" usage :: trace s), Done tt)) /\
  (sourcePath <> "" -> destDir <> "" ->
   (forall e, dotenv = Some e ->
      main fuel sourcePath destDir dotenv processed source s
      = (logged "ERROR" e s, Exit 1)) /\
   (forall e, dotenv = None -> processed = Err e ->
      main fuel sourcePath destDir dotenv processed source s
      = (s, Panic e))).
Proof.
  unfold main. split.
  - intros [-> | ->]; [reflexivity|].
    now rewrite String.eqb_refl, Bool.orb_true_r.
  - intros Hs Hd.
    apply String.eqb_neq in Hs, Hd. rewrite Hs, Hd. cbn [orb].
    split.
    + intros e ->. reflexivity.
    + intros e -> ->. reflexivity.
Qed.

Lemma main_needs_flags_and_configuration_witness :
  main (P := Fixture.platform) 1 "" "/dst" None (Err "required key API_URL missing value")
    (StatFile (Fixture.file 10)) (Fixture.start [])
  = (mkState (world (Fixture.start []))
       (LogLine "" usage :: trace (Fixture.start [])), Done tt) /\
  main (P := Fixture.platform) 1 "a.bin" "/dst" None
    (Err "required key API_URL missing value")
    (StatFile (Fixture.file 10)) (Fixture.start [])
  = (Fixture.start [], Panic "required key API_URL missing value").
Proof.
  split.
  - apply (main_needs_flags_and_configuration (P := Fixture.platform) 1 "" "/dst"
             None (Err "required key API_URL missing value")
             (StatFile (Fixture.file 10)) (Fixture.start [])).
    now left.
  - apply (main_needs_flags_and_configuration (P := Fixture.platform) 1 "a.bin" "/dst"
             None (Err "required key API_URL missing value")
             (StatFile (Fixture.file 10)) (Fixture.start []));
      [discriminate|discriminate|reflexivity|reflexivity].
Defined.

(** Once the flags are given and the configuration is loaded, the first
    thing [main] does is to create the destination directory; when that
    fails, [main] logs the error and exits with status 1, having made no
    other request.  When it succeeds and the source is a regular file,
    [main] returns normally and logs [Uploads complete!] whether the upload
    succeeded or not: a failed upload is logged, and does not change how
    the process ends. *)
Theorem main_single_file {P : Platform} (fuel : nat)
    (sourcePath destDir : string) (config : Config.t) (f : LocalFile)
    (s : state) :
  sourcePath <> "" -> destDir <> "" -> Config.PartSize config <> 0 ->
  let uploader := Uploader.mk (Config.Workers config) (Config.PartSize config)
                    (Config.ChannelID config) in
  let run := main fuel sourcePath destDir None (Ok config) (StatFile f) s in
  (forall s1 e,
     createRemoteDir destDir s = (s1, Done (Some e)) ->
     run = (logged "ERROR" e s1, Exit 1)) /\
  (forall s1 s2 e,
     createRemoteDir destDir s = (s1, Done None) ->
     uploadFile uploader sourcePath destDir f s1 = (s2, Done (Some e)) ->
     run = (logged "INFO" "Uploads complete!"
              (logged "ERROR" ("upload failed: " ++ e) s2), Done tt)) /\
  (forall s1 s2,
     createRemoteDir destDir s = (s1, Done None) ->
     uploadFile uploader sourcePath destDir f s1 = (s2, Done None) ->
     run = (logged "INFO" "Uploads complete!" s2, Done tt)).
Proof.
  intros Hs Hd Hsize uploader run. subst run.
  apply String.eqb_neq in Hs, Hd. apply Z.eqb_neq in Hsize.
  assert (Hmain :
    main fuel sourcePath destDir None (Ok config) (StatFile f) s
    = bind (createRemoteDir destDir)
        (fun err =>
           bind (match err with
                 | Some e => Error_Fatalln [e]
                 | None => ret tt
                 end)
             (fun _ =>
                bind (bind (uploadFile uploader sourcePath destDir f)
                        (fun err => match err with
                                    | Some e => Error_Println ["upload failed:"; e]
                                    | None => ret tt
                                    end))
                     (fun _ => Info_Println ["Uploads complete!"]))) s).
  { unfold main, loadConfigFromEnv. rewrite Hs, Hd, Hsize. reflexivity. }
  rewrite Hmain. clear Hmain.
  split; [|split].
  - intros s1 e Hmk. unfold bind at 1. rewrite Hmk. reflexivity.
  - intros s1 s2 e Hmk Hup. unfold bind at 1. rewrite Hmk.
    unfold bind at 1. cbn [ret]. unfold bind at 1. unfold bind at 1.
    rewrite Hup. reflexivity.
  - intros s1 s2 Hmk Hup. unfold bind at 1. rewrite Hmk.
    unfold bind at 1. cbn [ret]. unfold bind at 1. unfold bind at 1.
    rewrite Hup. reflexivity.
Qed.

Lemma main_single_file_witness :
  let config := Config.mk "http://localhost" "token" 1000 4 7 in
  let uploader := Uploader.mk 4 1000 7 in
  let s1 := fst (createRemoteDir (P := Fixture.platform) "/dst"
                   (Fixture.start [200; 404])) in
  let s2 := fst (uploadFile (P := Fixture.platform) uploader "a.bin" "/dst"
                   (Fixture.file 10) s1) in
  main (P := Fixture.platform) 1 "a.bin" "/dst" None (Ok config)
    (StatFile (Fixture.file 10)) (Fixture.start [200; 404])
  = (logged "INFO" "Uploads complete!"
       (logged "ERROR" "upload failed: upload failed: a.bin" s2), Done tt).
Proof.
  intros config uploader s1 s2.
  destruct (main_single_file (P := Fixture.platform) 1 "a.bin" "/dst" config
              (Fixture.file 10) (Fixture.start [200; 404]))
    as (_ & Hfailed & _); [discriminate|discriminate|discriminate|].
  apply (Hfailed s1 s2 "upload failed: a.bin"); reflexivity.
Defined.

(** ** Retries of a paced call (main.go, lines 108-122, 318-330, 349-352) *)

Section RetryPolicy.

Context {P : Platform}.

(** One try of a paced call, from the round trip it makes. *)
Lemma paced_try (opts : rest.Opts) (request : option rest.body) (s : state) :
  let req := with_request opts request in
  let '(w, r) := Do (world s) (on_the_wire req) in
  let answer :=
    match r with
    | Err e => (None, Some e)
    | Ok resp =>
        (Some resp,
         if (rest.StatusCode resp <? 200) || (299 <? rest.StatusCode resp)
         then Some (status_error resp) else None)
    end in
  bind (CallJSON opts request None tt)
       (fun x => let '(resp, err, _) := x in
                 bind ctx_err (fun ctxErr =>
                   ret (tt, shouldRetry ctxErr resp err))) s
  = (mkState w (HttpCall req :: trace s),
     Done (tt, shouldRetry (ctx_Err w) (fst answer) (snd answer))).
Proof.
  intros req. unfold CallJSON, bind. fold req.
  pose proof (Call_run req s) as Hc.
  destruct (Do (world s) (on_the_wire req)) as [w r]. rewrite Hc. clear Hc.
  destruct r as [resp|e]; cbn; [|reflexivity].
  unfold status_error.
  destruct ((rest.StatusCode resp <? 200) || (299 <? rest.StatusCode resp));
    reflexivity.
Qed.

(** A pacer loop whose every try asks for another runs all its tries. *)
Lemma pacer_loop_exhausted {V} (e : event)
    (fn : V -> M (V * (bool * option error))) :
  (forall v s, exists s' v' err',
      fn v s = (s', Done (v', (true, Some err'))) /\
      trace s' = e :: trace s) ->
  forall tries v err s, (0 < tries)%nat ->
  exists s' v' err',
    pacer_loop tries fn v err s = (s', Done (v', Some err')) /\
    trace s' = (repeat e tries ++ trace s)%list.
Proof.
  intros Hfn tries. induction tries as [|tries IH]; intros v err s Hpos; [lia|].
  cbn [pacer_loop]. unfold bind.
  destruct (Hfn v s) as (s1 & v1 & e1 & Hrun & Ht). rewrite Hrun.
  destruct tries as [|tries'].
  - exists s1, v1, e1. split; [reflexivity|]. now rewrite Ht.
  - destruct (IH v1 (Some e1) s1 ltac:(lia)) as (s2 & v2 & e2 & Hloop & Ht2).
    exists s2, v2, e2. split; [exact Hloop|].
    rewrite Ht2, Ht. change (e :: trace s) with ([e] ++ trace s)%list.
    rewrite app_assoc, <- repeat_cons. reflexivity.
Qed.

End RetryPolicy.

(** How often a paced call (creating a directory, finalizing a file,
    removing an upload session) makes its request:
    - once, returning nil, when the first answer has a status in 200..299
      and the context is not done;
    - once, returning the error, when the first answer has another status
      that is not one of 429, 500, 502, 503, 504, 509 and the error is not
      one that [fserrors.ShouldRetry] retries;
    - once, returning an error, when the context is done, whatever the
      answer;
    - as often as the pacer allows, returning an error, when the context is
      never done and the backend answers every time with one of 429, 500,
      502, 503, 504, 509. *)
Theorem paced_call_retry_policy {P : Platform} (opts : rest.Opts)
    (request : option rest.body) (s : state) :
  let req := with_request opts request in
  let once w := mkState w (HttpCall req :: trace s) in
  (forall w r,
     Do (world s) (on_the_wire req) = (w, Ok r) ->
     200 <= rest.StatusCode r <= 299 -> ctx_Err w = None ->
     paced_call opts request s = (once w, Done None)) /\
  (forall w r,
     Do (world s) (on_the_wire req) = (w, Ok r) ->
     ~ 200 <= rest.StatusCode r <= 299 ->
     ~ In (rest.StatusCode r) retryErrorCodes ->
     fserrors_ShouldRetry (status_error r) = false ->
     paced_call opts request s = (once w, Done (Some (status_error r)))) /\
  (forall w r ce,
     Do (world s) (on_the_wire req) = (w, r) -> ctx_Err w = Some ce ->
     exists e, paced_call opts request s = (once w, Done (Some e))) /\
  ((forall w, ctx_Err w = None) ->
   (forall w, exists w' r,
      Do w (on_the_wire req) = (w', Ok r) /\
      In (rest.StatusCode r) retryErrorCodes) ->
   exists e s',
     paced_call opts request s = (s', Done (Some e)) /\
     trace s' = (repeat (HttpCall req) pacer_retries ++ trace s)%list).
Proof.
  intros req once.
  assert (Hcodes : forall r,
            In (rest.StatusCode r) retryErrorCodes ->
            existsb (Z.eqb (rest.StatusCode r)) retryErrorCodes = true /\
            (rest.StatusCode r <? 200) || (299 <? rest.StatusCode r) = true).
  { intros r Hin. split.
    - apply existsb_exists. exists (rest.StatusCode r). split; [exact Hin|].
      apply Z.eqb_refl.
    - cbn in Hin.
      destruct Hin as [<-|[<-|[<-|[<-|[<-|[<-|[]]]]]]]; reflexivity. }
  assert (Hfirst : forall w r,
            Do (world s) (on_the_wire req) = (w, r) ->
            forall answer,
            answer = match r with
                     | Err e => (None, Some e)
                     | Ok resp =>
                         (Some resp,
                          if (rest.StatusCode resp <? 200)
                             || (299 <? rest.StatusCode resp)
                          then Some (status_error resp) else None)
                     end ->
            fst (shouldRetry (ctx_Err w) (fst answer) (snd answer)) = false ->
            paced_call opts request s
            = (once w, Done (snd (shouldRetry (ctx_Err w) (fst answer) (snd answer))))).
  { intros w r HDo answer -> Hno.
    unfold paced_call, pacer_Call.
    pose proof pacer_retries_pos as Hpos.
    destruct pacer_retries as [|tries]; [lia|].
    cbn [pacer_loop]. unfold bind at 1. unfold bind at 1.
    pose proof (paced_try opts request s) as Htry. cbv zeta in Htry.
    fold req in Htry. rewrite HDo in Htry. rewrite Htry. clear Htry.
    destruct (shouldRetry (ctx_Err w) _ _) as [retry err] eqn:Hsr.
    cbn [fst snd] in Hno |- *. subst retry. reflexivity. }
  split; [|split; [|split]].
  - intros w r HDo Hok Hctx.
    rewrite (Hfirst w (Ok r) HDo _ eq_refl).
    + assert (Hin : (rest.StatusCode r <? 200) || (299 <? rest.StatusCode r) = false).
      { apply Bool.orb_false_iff. split; apply Z.ltb_ge; lia. }
      rewrite Hin, Hctx. reflexivity.
    + assert (Hin : (rest.StatusCode r <? 200) || (299 <? rest.StatusCode r) = false).
      { apply Bool.orb_false_iff. split; apply Z.ltb_ge; lia. }
      assert (Hex : existsb (Z.eqb (rest.StatusCode r)) retryErrorCodes = false).
      { destruct (existsb _ _) eqn:Hex; [|reflexivity].
        apply existsb_exists in Hex. destruct Hex as (c & Hc & Heq).
        apply Z.eqb_eq in Heq. subst c.
        destruct (Hcodes r Hc) as (_ & Hbad). congruence. }
      rewrite Hin. cbn [fst snd].
      unfold shouldRetry, fserrors.ContextError, ShouldRetry,
        fserrors.ShouldRetryHTTP.
      rewrite Hctx, Hex. reflexivity.
  - intros w r HDo Hbad Hnot Hsr.
    assert (Hout : (rest.StatusCode r <? 200) || (299 <? rest.StatusCode r) = true).
    { apply Bool.orb_true_iff.
      destruct (Z.ltb_spec (rest.StatusCode r) 200); [now left|right].
      apply Z.ltb_lt. lia. }
    assert (Hex : existsb (Z.eqb (rest.StatusCode r)) retryErrorCodes = false).
    { destruct (existsb _ _) eqn:Hex; [|reflexivity].
      apply existsb_exists in Hex. destruct Hex as (c & Hc & Heq).
      apply Z.eqb_eq in Heq. subst c. contradiction. }
    rewrite (Hfirst w (Ok r) HDo _ eq_refl); rewrite Hout; cbn [fst snd];
      unfold shouldRetry, fserrors.ContextError, ShouldRetry,
        fserrors.ShouldRetryHTTP;
      destruct (ctx_Err w); cbn [fst snd]; rewrite ?Hsr, ?Hex; reflexivity.
  - intros w r ce HDo Hctx.
    assert (Hsr : forall resp err,
              exists e, shouldRetry (ctx_Err w) resp err = (false, Some e)).
    { intros resp err. unfold shouldRetry, fserrors.ContextError. rewrite Hctx.
      destruct err; eauto. }
    destruct (Hsr (fst match r with
                       | Err e => (None, Some e)
                       | Ok resp =>
                           (Some resp,
                            if (rest.StatusCode resp <? 200)
                               || (299 <? rest.StatusCode resp)
                            then Some (status_error resp) else None)
                       end)
                  (snd match r with
                       | Err e => (None, Some e)
                       | Ok resp =>
                           (Some resp,
                            if (rest.StatusCode resp <? 200)
                               || (299 <? rest.StatusCode resp)
                            then Some (status_error resp) else None)
                       end)) as (e & He).
    exists e. rewrite (Hfirst w r HDo _ eq_refl); rewrite He; reflexivity.
  - intros Hctx Hbusy.
    unfold paced_call, pacer_Call. unfold bind at 1.
    destruct (pacer_loop_exhausted (HttpCall req)
                (fun _ : unit =>
                   bind (CallJSON opts request None tt)
                     (fun x => let '(resp, err, _) := x in
                               bind ctx_err (fun ctxErr =>
                                 ret (tt, shouldRetry ctxErr resp err)))))
      with (tries := pacer_retries) (v := tt) (err := @None error) (s := s)
      as (s' & v' & e & Hloop & Ht).
    + intros [] s0.
      pose proof (paced_try opts request s0) as Htry. cbv zeta in Htry.
      fold req in Htry.
      destruct (Hbusy (world s0)) as (w' & r & HDo & Hin).
      rewrite HDo in Htry. destruct (Hcodes r Hin) as (Hex & Hout).
      rewrite Hout in Htry. cbn [fst snd] in Htry.
      unfold shouldRetry, fserrors.ContextError, fserrors.ShouldRetryHTTP in Htry.
      rewrite Hctx, Hex, Bool.orb_true_r in Htry.
      eexists _, tt, _. split; [exact Htry|reflexivity].
    + apply pacer_retries_pos.
    + rewrite Hloop. exists e, s'. split; [reflexivity|exact Ht].
Qed.

Lemma paced_call_retry_policy_witness :
  let opts := rest.mkOpts "DELETE" "/api/uploads/x" [] rest.NoBody None "" in
  (exists e s',
     paced_call (P := Fixture.busy) opts None (mkState (P := Fixture.busy) tt [])
     = (s', Done (Some e)) /\
     trace s' = [HttpCall opts; HttpCall opts; HttpCall opts]) /\
  paced_call (P := Fixture.platform) opts None (Fixture.start [])
  = (mkState (P := Fixture.platform) [] [HttpCall opts], Done None).
Proof.
  intros opts. split.
  - destruct (paced_call_retry_policy (P := Fixture.busy) opts None (mkState (P := Fixture.busy) tt []))
      as (_ & _ & _ & Hbusy).
    apply Hbusy.
    + reflexivity.
    + intros []. exists tt, (Fixture.reply 503 opts).
      split; [reflexivity|]. cbn. tauto.
  - destruct (paced_call_retry_policy (P := Fixture.platform) opts None
                (Fixture.start []))
      as (Hok & _).
    apply (Hok [] (Fixture.reply 200 opts)); [reflexivity|cbn; lia|reflexivity].
Defined.

(** ** A walked subdirectory and the log (main.go, lines 446-456) *)

(** In the loop over the entries of a directory, a subdirectory that was
    created and walked without any error still leaves an [ERROR] line in
    the log, the line [<nil>]: the result of the walk is logged whether or
    not it is an error.  The loop then goes on with the entries after
    it. *)
Theorem subdirectory_success_is_logged {P : Platform} (fuel : nat)
    (u : Uploader.t) (sourcePath destDir : string) (files : list FileInfo.t)
    (before after : list node) (name : string) (read_err : option error)
    (entries : list node) (s0 s1 s2 s3 : state) :
  let body := upload_entry fuel u sourcePath destDir files in
  for_each body before s0 = (s1, Done tt) ->
  createRemoteDir (backslashes_to_slashes (filepath_Join destDir name)) s1
    = (s2, Done None) ->
  uploadFilesInDirectory fuel u (filepath_Join sourcePath name)
    (backslashes_to_slashes (filepath_Join destDir name)) read_err entries s2
    = (s3, Done None) ->
  for_each body (before ++ Dir name read_err entries :: after)%list s0
  = for_each body after (logged "ERROR" "<nil>" s3).
Proof.
  intros body Hbefore Hmk Hwalk.
  rewrite (for_each_after body before after _ s0 s1 Hbefore).
  unfold body at 1. rewrite upload_entry_Dir.
  unfold bind at 1. unfold bind at 1. rewrite Hmk.
  unfold bind at 1. cbn [ret]. unfold bind at 1. rewrite Hwalk.
  reflexivity.
Qed.

Lemma subdirectory_success_is_logged_witness :
  let s2 := fst (createRemoteDir (P := Fixture.platform) "dst/sub"
                   (Fixture.start [])) in
  let s3 := fst (uploadFilesInDirectory (P := Fixture.platform) 1
                   Fixture.uploader "src/sub" "dst/sub" None [] s2) in
  for_each (upload_entry (P := Fixture.platform) 1 Fixture.uploader
              "src" "dst" [])
    [Dir "sub" None []; File "b.txt" (Fixture.file 10)] (Fixture.start [])
  = for_each (upload_entry (P := Fixture.platform) 1 Fixture.uploader
                "src" "dst" [])
      [File "b.txt" (Fixture.file 10)] (logged "ERROR" "<nil>" s3).
Proof.
  intros s2 s3.
  apply (subdirectory_success_is_logged (P := Fixture.platform) 1
           Fixture.uploader "src" "dst" [] [] [File "b.txt" (Fixture.file 10)]
           "sub" None [] (Fixture.start []) (Fixture.start []) s2 s3);
    reflexivity.
Defined.

(** ** What the size parser accepts (earlier revision of main.go, lines 66-88) *)

Section SizeParserDomain.

Import SizeParser.
















End SizeParserDomain.



(** * The earlier revision of main.go *)

Section LegacyProgram.

Context {P : Platform}.

(** [CallJSON] without a value to decode into, from the round trip it
    makes. *)
Lemma CallJSON_plain (opts : rest.Opts) (request : option rest.body) (s : state) :
  let req := with_request opts request in
  CallJSON opts request None tt s
  = (mkState (fst (Do (world s) (on_the_wire req))) (HttpCall req :: trace s),
     Done (answer_of (snd (Do (world s) (on_the_wire req))), tt)).
Proof.
  intros req. unfold CallJSON, bind. fold req.
  pose proof (Call_run req s) as Hc.
  destruct (Do (world s) (on_the_wire req)) as [w r]. rewrite Hc. clear Hc.
  destruct r as [resp|e]; cbn; [|reflexivity].
  unfold status_error.
  destruct ((rest.StatusCode resp <? 200) || (299 <? rest.StatusCode resp));
    reflexivity.
Qed.

Lemma legacy_quiet (e : event) : is_http_call e = false -> legacy_walk_event e.
Proof. destruct e; [discriminate|constructor]. Qed.










End LegacyProgram.



(** In the earlier revision [uploadFile] makes the finalize request once,
    without a pacer, and reads the status of the answer also when there is
    none.  So, once every part has been received:
    - a finalize round trip that fails makes it panic on a nil pointer;
    - an answer with a status other than 200 is printed as failed and ends
      the upload without the [DELETE] of the session; the function then
      returns the error of [CallJSON], which is nil for the other statuses
      in 200..299: such an upload is reported as done;
    - only after status 200 is the session removed, and the answer to that
      request is treated in the same way. *)
Theorem legacy_uploadFile_reads_the_status {P : Platform}
    (filePath destDir : string) (partSize numWorkers : Z) (f : LocalFile)
    (n : Z) (received : list UploadPartOut.t) (s s1 : state) :
  let fileName := filepath_Base filePath in
  let uploadURL := upload_url fileName destDir (f_size f) in
  let finalize :=
    with_request finalize_opts
      (Some (rest.JsonFilePayload (payload_of filePath destDir f received))) in
  let discard := delete_opts uploadURL in
  let run := Legacy.uploadFile filePath destDir partSize numWorkers f s in
  let failed code := "Request failed with status code: " ++ Go.FormatInt code in
  f_open f = None -> f_read f = None ->
  numParts (f_size f) partSize = Some n ->
  Legacy.upload_parts f filePath fileName uploadURL partSize numWorkers
    (f_size f) n s = (s1, Done received) ->
  Z.of_nat (List.length received) = n ->
  (forall w e,
     Do (world s1) (on_the_wire finalize) = (w, Err e) ->
     run = (mkState w (HttpCall finalize :: trace s1), Panic nil_dereference)) /\
  (forall w r,
     Do (world s1) (on_the_wire finalize) = (w, Ok r) ->
     rest.StatusCode r <> 200 ->
     run = (logged "" (failed (rest.StatusCode r))
              (mkState w (HttpCall finalize :: trace s1)),
            Done (if (200 <=? rest.StatusCode r) && (rest.StatusCode r <=? 299)
                  then None else Some (status_error r)))) /\
  (forall w r w' x,
     Do (world s1) (on_the_wire finalize) = (w, Ok r) ->
     rest.StatusCode r = 200 ->
     Do w discard = (w', x) ->
     let s2 := mkState w' (HttpCall discard :: HttpCall finalize :: trace s1) in
     run = match x with
           | Err _ => (s2, Panic nil_dereference)
           | Ok r' =>
               if rest.StatusCode r' =? 200 then (s2, Done None)
               else (logged "" (failed (rest.StatusCode r')) s2,
                     Done (if (200 <=? rest.StatusCode r')
                              && (rest.StatusCode r' <=? 299)
                           then None else Some (status_error r')))
           end).
Proof.
  intros fileName uploadURL finalize discard run failed Hopen Hread Hn Hparts Hlen.
  assert (Hstatus : forall r,
            snd (answer_of (Ok r))
            = if (200 <=? rest.StatusCode r) && (rest.StatusCode r <=? 299)
              then None else Some (status_error r)).
  { intros r. cbn.
    destruct (Z.ltb_spec (rest.StatusCode r) 200),
             (Z.ltb_spec 299 (rest.StatusCode r)),
             (Z.leb_spec 200 (rest.StatusCode r)),
             (Z.leb_spec (rest.StatusCode r) 299); try lia; reflexivity. }
  assert (Hrun : run
                 = bind (CallJSON finalize_opts
                           (Some (rest.JsonFilePayload
                                    (payload_of filePath destDir f received)))
                           None tt)
                     (fun x =>
                        let '(resp, err, _) := x in
                        match resp with
                        | None => panic nil_dereference
                        | Some r =>
                            if negb (rest.StatusCode r =? 200) then
                              bind (fmt_Println
                                      ["Request failed with status code:";
                                       Go.FormatInt (rest.StatusCode r)])
                                   (fun _ => ret err)
                            else
                              bind (CallJSON discard None None tt)
                                (fun y =>
                                   let '(resp', err', _) := y in
                                   match resp' with
                                   | None => panic nil_dereference
                                   | Some r' =>
                                       if negb (rest.StatusCode r' =? 200) then
                                         bind (fmt_Println
                                                 ["Request failed with status code:";
                                                  Go.FormatInt (rest.StatusCode r')])
                                              (fun _ => ret err')
                                       else ret None
                                   end)
                        end) s1).
  { unfold run, Legacy.uploadFile. rewrite Hopen, Hread, Hn.
    unfold bind at 1. fold fileName. fold uploadURL. rewrite Hparts.
    unfold Legacy.finish_upload. rewrite length_map, Hlen, Z.eqb_refl.
    reflexivity. }
  split; [|split].
  - intros w e HDo. rewrite Hrun. unfold bind at 1. rewrite CallJSON_plain.
    fold finalize. rewrite HDo. reflexivity.
  - intros w r HDo Hne. rewrite Hrun. unfold bind at 1. rewrite CallJSON_plain.
    fold finalize. rewrite HDo. cbn [fst snd answer_of].
    apply Z.eqb_neq in Hne. rewrite Hne. cbn [negb].
    rewrite <- Hstatus. reflexivity.
  - intros w r w' x HDo H200 HDo' s2.
    rewrite Hrun. unfold bind at 1. rewrite CallJSON_plain.
    fold finalize. rewrite HDo. cbn [fst snd answer_of].
    rewrite H200. cbn [Z.eqb Pos.eqb negb].
    unfold bind at 1. rewrite CallJSON_plain.
    change (with_request discard None) with discard.
    change (on_the_wire discard) with discard.
    cbn [world]. rewrite HDo'. cbn [fst snd].
    destruct x as [r'|e']; [|reflexivity].
    cbn [answer_of fst snd].
    destruct (rest.StatusCode r' =? 200) eqn:H'; cbn [negb]; [reflexivity|].
    rewrite <- Hstatus. reflexivity.
Qed.

Lemma legacy_uploadFile_reads_the_status_witness :
  let run := Legacy.uploadFile (P := Fixture.platform) "a.bin" "/dst" 1000 4
               (Fixture.file 10) (Fixture.start [200; 201]) in
  snd run = Done None /\
  Fixture.log_lines (fst run) = ["Request failed with status code: 201"] /\
  map rest.Method (Fixture.requests (fst run)) = ["POST"; "POST"].
Proof.
  intros run.
  pose (parts := Legacy.upload_parts (P := Fixture.platform) (Fixture.file 10)
                   "a.bin" "a.bin" "/api/uploads/a.bin:/dst:10" 1000 4 10 1
                   (Fixture.start [200; 201])).
  pose (received := match snd parts with Done r => r | _ => [] end).
  destruct (legacy_uploadFile_reads_the_status (P := Fixture.platform)
              "a.bin" "/dst" 1000 4 (Fixture.file 10) 1 received
              (Fixture.start [200; 201]) (fst parts)
              eq_refl eq_refl eq_refl eq_refl eq_refl)
    as (_ & Hfailed & _).
  specialize (Hfailed [] (Fixture.reply 201 finalize_opts)).
  fold run in Hfailed. rewrite Hfailed; [|reflexivity|discriminate].
  repeat split.
Defined.

(** ** The configuration of the earlier revision (lines 90-122) *)

Lemma Atoi_not_numeral (s : string) : ~ numeral s -> Legacy.Atoi s = 0.
Proof.
  intros Hs.
  assert (Hds : forall ds,
            (s = ds \/ s = "+" ++ ds \/ s = "-" ++ ds) ->
            SizeParser.is_empty ds
            || negb (SizeParser.all_bytes SizeParser.is_digit ds) = true).
  { intros ds Hshape.
    destruct (SizeParser.is_empty ds) eqn:He; [reflexivity|].
    destruct (SizeParser.all_bytes SizeParser.is_digit ds) eqn:Hd; [|reflexivity].
    exfalso. apply Hs. exists ds. split; [|exact Hshape].
    split; [|exact Hd]. intros ->. discriminate. }
  destruct s as [|c r].
  - reflexivity.
  - destruct c as [[] [] [] [] [] [] [] []]; unfold Legacy.Atoi; cbv iota beta;
      match goal with
      | |- (if SizeParser.is_empty ?ds || _ then _ else _) = _ =>
          rewrite (Hds ds); [reflexivity|cbn; tauto]
      end.
Qed.

(** [loadConfigFromEnv] of the earlier revision: without [PART_SIZE] the
    part size is that of [1GB], 1048576000 bytes; a [PART_SIZE] the parser
    rejects makes it return the parser's error.  Nothing else is checked:
    [API_URL] and [SESSION_TOKEN] are taken as they are, also when empty;
    without [WORKERS] there are 4 workers, and a [WORKERS] that is not a
    decimal integer gives 0 workers without any error. *)
Theorem legacy_configuration (getenv : string -> string) :
  let load := Legacy.loadConfigFromEnv None getenv in
  (getenv "PART_SIZE" = "" ->
   exists c, load = Ok c /\
             Legacy.Config.PartSize c = Float64.Int64 1048576000) /\
  (forall e,
     getenv "PART_SIZE" <> "" ->
     SizeParser.fileSizeToBytes (getenv "PART_SIZE") = Err e ->
     load = Err e) /\
  (forall c,
     load = Ok c ->
     Legacy.Config.ApiURL c = getenv "API_URL" /\
     Legacy.Config.SessionToken c = getenv "SESSION_TOKEN" /\
     (getenv "WORKERS" = "" -> Legacy.Config.Workers c = 4) /\
     (getenv "WORKERS" <> "" -> ~ numeral (getenv "WORKERS") ->
      Legacy.Config.Workers c = 0)).
Proof.
  intros load. subst load. unfold Legacy.loadConfigFromEnv.
  split; [|split].
  - intros ->. cbn [String.eqb negb].
    change (SizeParser.fileSizeToBytes "1GB")
      with (@Ok Float64.conv (Float64.Int64 1048576000)).
    eexists. split; reflexivity.
  - intros e Hset Herr. apply String.eqb_neq in Hset. rewrite Hset. cbn [negb].
    now rewrite Herr.
  - intros c.
    destruct (SizeParser.fileSizeToBytes _) as [size|e]; [|discriminate].
    intros E. inversion E; subst c; clear E. cbn.
    split; [reflexivity|]. split; [reflexivity|]. split.
    + intros ->. reflexivity.
    + intros Hset Hnum. apply String.eqb_neq in Hset. rewrite Hset. cbn [negb].
      now apply Atoi_not_numeral.
Qed.

Lemma legacy_configuration_witness :
  let getenv := fun key : string =>
    if String.eqb key "WORKERS" then "four"
    else if String.eqb key "API_URL" then "http://localhost" else "" in
  Legacy.loadConfigFromEnv None getenv
  = Ok (Legacy.Config.mk "http://localhost" "" (Float64.Int64 1048576000) 0) /\
  Legacy.Config.Workers
    (Legacy.Config.mk "http://localhost" "" (Float64.Int64 1048576000) 0) = 0.
Proof.
  intros getenv.
  assert (Hload : Legacy.loadConfigFromEnv None getenv
                  = Ok (Legacy.Config.mk "http://localhost" ""
                          (Float64.Int64 1048576000) 0))
    by (vm_compute; reflexivity).
  split; [exact Hload|].
  destruct (legacy_configuration getenv) as (_ & _ & Hok).
  destruct (Hok _ Hload) as (_ & _ & _ & Hworkers).
  apply Hworkers; [discriminate|].
  intros (ds & (_ & Hd) & [E|[E|E]]); cbn in E;
    [subst ds; discriminate Hd|discriminate E|discriminate E].
Defined.

(** * The names and numbers of the parts (main.go, lines 245-249, 264-266) *)

Section PartNames.

Import SizeParser.

Lemma of_uint_acc_value (d : Decimal.uint) :
  forall acc : positive,
  Z.pos (Pos.of_uint_acc d acc)
  = digits_value_from (Z.pos acc) (NilEmpty.string_of_uint d).
Proof.
  induction d; intros acc;
    cbn [Pos.of_uint_acc NilEmpty.string_of_uint digits_value_from];
    try reflexivity;
    rewrite IHd; f_equal; vm_compute digit_value; lia.
Qed.

Lemma of_uint_value (d : Decimal.uint) :
  Z.of_N (Pos.of_uint d) = digits_value_from 0 (NilEmpty.string_of_uint d).
Proof.
  induction d;
    cbn [Pos.of_uint NilEmpty.string_of_uint digits_value_from Z.of_N];
    try reflexivity;
    try (rewrite of_uint_acc_value; f_equal).
  exact IHd.
Qed.

(** Reading the decimal of a number that is not negative gives the number
    back. *)
Lemma FormatInt_value (n : Z) : 0 <= n -> digits_value (Go.FormatInt n) = n.
Proof.
  intros Hn. destruct n as [|p|p]; [reflexivity| |lia].
  unfold Go.FormatInt, digits_value. cbn [Z.to_int NilZero.string_of_int].
  pose proof (DecimalPos.Unsigned.to_uint_nonnil p) as Hnil.
  pose proof (DecimalPos.Unsigned.of_to p) as Hof.
  destruct (Pos.to_uint p) eqn:E; [contradiction| | | | | | | | | |];
    unfold NilZero.string_of_uint; rewrite <- of_uint_value, Hof; reflexivity.
Qed.

Lemma zeros_value (k : nat) (s : string) :
  digits_value (Go.zeros k ++ s) = digits_value s.
Proof. induction k as [|k IH]; [reflexivity|exact IH]. Qed.

Lemma Sprintf_03d_value (n : Z) : 0 <= n -> digits_value (Go.Sprintf_03d n) = n.
Proof.
  intros Hn. unfold Go.Sprintf_03d.
  destruct (Z.ltb_spec n 0); [lia|].
  rewrite zeros_value. now apply FormatInt_value.
Qed.

Lemma append_inj_l (a x y : string) : a ++ x = a ++ y -> x = y.
Proof.
  induction a as [|c a IH]; cbn; [trivial|].
  intros E. injection E as E. now apply IH.
Qed.

End PartNames.

(** The parts of a file in more than one part are uploaded under names and
    numbers that tell them apart: two different parts never share their
    [fileName] parameter, nor their [partNo]. *)
Theorem part_names_are_distinct (fileName : string) (n i j : Z) :
  1 < n -> n < 2 ^ 63 -> 0 <= i < n -> 0 <= j < n -> i <> j ->
  part_name fileName n i <> part_name fileName n j /\
  Go.FormatInt (Go.add64 i 1) <> Go.FormatInt (Go.add64 j 1).
Proof.
  intros Hn Hmax Hi Hj Hij.
  assert (Hwrap : forall k, 0 <= k < n -> Go.add64 k 1 = k + 1).
  { intros k Hk. unfold Go.add64. apply wrap64_id. unfold Go.in_int64. lia. }
  rewrite (Hwrap i Hi), (Hwrap j Hj). split.
  - unfold part_name. destruct (Z.gtb_spec n 1); [|lia].
    rewrite (Hwrap i Hi), (Hwrap j Hj). intros E.
    apply append_inj_l in E. apply (append_inj_l ".part.") in E.
    apply (f_equal SizeParser.digits_value) in E.
    rewrite !Sprintf_03d_value in E by lia. lia.
  - intros E. apply (f_equal SizeParser.digits_value) in E.
    rewrite !FormatInt_value in E by lia. lia.
Qed.

Lemma part_names_are_distinct_witness :
  part_name "a.bin" 1200 9 <> part_name "a.bin" 1200 999 /\
  Go.FormatInt (Go.add64 9 1) <> Go.FormatInt (Go.add64 999 1).
Proof.
  apply (part_names_are_distinct "a.bin" 1200 9 999); lia.
Defined.

(** * The bytes the part requests carry (main.go, lines 215-269) *)




